(** * binlog-parser: the decode engine of a MySQL binary log reader

    A shallow embedding of the Go package [binlog] (the file decoder, the
    events, and the rows events of rows_event.go) and the properties of its
    decode engine.

    Conventions of the embedding.
    - Go integers are [Z]; conversions and arithmetic that can leave the
      type's range are written with an explicit wrap ([wrap8], [wrap16],
      [wrapu64], [wrap64]).
    - A byte is [Byte.byte]; a Go [string] is its byte sequence.
    - A Go byte slice is a [slice]: the bytes below its length and the bytes
      of its backing array between length and capacity, since [s[a:b]]
      checks [b] against the capacity.
    - A run-time panic (index or slice bound out of range, nil dereference)
      is the outcome [Panic] of the monad [go].
    - A function returning [(v, nil)] or [(nil, err)] returns a [res]; the
      functions that return a value together with an error return a pair. *)

From Stdlib Require Import ZArith List Bool Lia.
From Stdlib Require Import Strings.Byte.
From stdpp Require Import base option list gmap.

Open Scope Z_scope.

(* ================================================================= *)
(** ** Machine integers *)

Definition wrap8 (x : Z) : Z := x mod 2 ^ 8.
Definition wrap16 (x : Z) : Z := x mod 2 ^ 16.
Definition wrapu64 (x : Z) : Z := x mod 2 ^ 64.
(** [int64] and, on the 64-bit targets, [int]: two's complement. *)
Definition wrap64 (x : Z) : Z := (x + 2 ^ 63) mod 2 ^ 64 - 2 ^ 63.

Definition byte_Z (b : byte) : Z := Z.of_N (Byte.to_N b).

Global Instance byte_eq_dec : EqDecision byte := Byte.byte_eq_dec.

(* ================================================================= *)
(** ** Panics *)

Inductive go (A : Type) : Type :=
| Ret (a : A)
| Panic.
Arguments Ret {A} a.
Arguments Panic {A}.

Definition go_bind {A B : Type} (m : go A) (k : A -> go B) : go B :=
  match m with
  | Ret a => k a
  | Panic => Panic
  end.

Notation "'let*' x := m 'in' k" := (go_bind m (fun x => k))
  (at level 10, x name, m at level 100, k at level 200).
Notation "'let*' ' p := m 'in' k" :=
  (go_bind m (fun x => match x with p => k end))
  (at level 10, p pattern, m at level 100, k at level 200, only parsing).

(** The errors the package returns.  [io_EOF] is the sentinel [io.EOF], the
    only error the walk compares against. *)
Inductive error : Type :=
| io_EOF
| ErrTruncated
| ErrInvalidFileHeader
| ErrInvalidHeaderSize
| ErrUnknownEventType
| ErrEmptyBinaryLogInfo
| ErrEmptyEventHeader
| ErrEventSize
| ErrChecksum
| ErrUnknownEvent
| ErrNotSupportEvent
| ErrUnknownFieldType
| ErrConsumer (code : Z).

Global Instance error_eq_dec : EqDecision error.
Proof. solve_decision. Defined.

Inductive res (A : Type) : Type :=
| Ok (a : A)
| Err (e : error).
Arguments Ok {A} a.
Arguments Err {A} e.

(* ================================================================= *)
(** ** Byte slices *)

Record slice : Type := mkSlice {
  elems : list byte;   (* s[0], ..., s[len(s)-1] *)
  spare : list byte    (* the backing array from len(s) up to cap(s) *)
}.

Definition len (s : slice) : Z := Z.of_nat (length (elems s)).
Definition cap (s : slice) : Z := Z.of_nat (length (elems s ++ spare s)).
Definition backing (s : slice) : list byte := elems s ++ spare s.
Definition fresh (l : list byte) : slice := mkSlice l [].

(** [s[i]] *)
Definition index (s : slice) (i : Z) : go byte :=
  if (0 <=? i) && (i <? len s) then
    match elems s !! Z.to_nat i with
    | Some b => Ret b
    | None => Panic
    end
  else Panic.

(** [s[lo:]]: the high bound defaults to [len(s)]. *)
Definition slice_from (s : slice) (lo : Z) : go slice :=
  if (0 <=? lo) && (lo <=? len s) then
    Ret (mkSlice (drop (Z.to_nat lo) (elems s)) (spare s))
  else Panic.

(** [s[lo:hi]]: [0 <= lo <= hi <= cap(s)]. *)
Definition slice_range (s : slice) (lo hi : Z) : go slice :=
  if (0 <=? lo) && (lo <=? hi) && (hi <=? cap s) then
    Ret (mkSlice (take (Z.to_nat (hi - lo)) (drop (Z.to_nat lo) (backing s)))
                 (drop (Z.to_nat hi) (backing s)))
  else Panic.

(** [s[:hi]] *)
Definition slice_to (s : slice) (hi : Z) : go slice := slice_range s 0 hi.

(** Little-endian value of a byte sequence. *)
Fixpoint le_value (bs : list byte) : Z :=
  match bs with
  | [] => 0
  | b :: r => byte_Z b + 256 * le_value r
  end.

(** [binary.LittleEndian.Uint16/Uint32/Uint64]: each starts with a bounds
    check on the last byte it reads. *)
Definition Uint16 (s : slice) : go Z :=
  if 2 <=? len s then Ret (le_value (take 2 (elems s))) else Panic.
Definition Uint32 (s : slice) : go Z :=
  if 4 <=? len s then Ret (le_value (take 4 (elems s))) else Panic.
Definition Uint64 (s : slice) : go Z :=
  if 8 <=? len s then Ret (le_value (take 8 (elems s))) else Panic.

(** [binary.LittleEndian.UintN(data[pos:])] *)
Definition Uint16_at (data : slice) (pos : Z) : go Z :=
  let* s := slice_from data pos in Uint16 s.
Definition Uint32_at (data : slice) (pos : Z) : go Z :=
  let* s := slice_from data pos in Uint32 s.

(* ================================================================= *)
(** ** Event header *)

(** [defaultEventHeaderSize] *)
Definition defaultEventHeaderSize : Z := 19.

Record BinEventHeader : Type := mkHeader {
  Timestamp : Z;   (* int64 *)
  EventType : Z;   (* uint8 *)
  ServerID : Z;    (* int64 *)
  EventSize : Z;   (* int64 *)
  LogPos : Z;      (* int64 *)
  Flag : Z         (* uint16 *)
}.

Definition decodeEventHeader (data : slice) (size : Z) : go (res BinEventHeader) :=
  if len data <? size then Ret (Err ErrInvalidHeaderSize) else
  let pos := 0 in
  (* timestamp *)
  let* ts := Uint32_at data pos in
  let pos := pos + 4 in
  (* event_type *)
  let* ty := index data pos in
  let pos := pos + 1 in
  (* serverId *)
  let* sid := Uint32_at data pos in
  let pos := pos + 4 in
  (* event_size *)
  let* esz := Uint32_at data pos in
  let pos := pos + 4 in
  if 13 <? size then
    (* log_pos *)
    let* lp := Uint32_at data pos in
    let pos := pos + 4 in
    (* flags *)
    let* fl := Uint16_at data pos in
    Ret (Ok (mkHeader ts (byte_Z ty) sid esz lp fl))
  else
    Ret (Ok (mkHeader ts (byte_Z ty) sid esz 0 0)).

(* ================================================================= *)
(** ** Primitive codec and byte source *)

(** Modelled from the spec: [FixedLengthInt], declared outside the files at
    hand.  Spec 4.1: "little-endian unsigned integer of 1-8 bytes"; the
    source calls it on a slice already cut to the width and takes a
    [uint64] back. *)
Definition FixedLengthInt (b : slice) : Z := wrapu64 (le_value (elems b)).

(** Modelled from the spec: [LengthEncodedInt], declared outside the files
    at hand.  Spec 4.1: "reads the first byte b.  If b <= 0xFA, the value is
    b and 1 byte is consumed.  If b == 0xFB, the value is NULL and 1 byte is
    consumed.  If b == 0xFC, read 2 further little-endian bytes (3 bytes
    consumed).  If b == 0xFD, read 3 further bytes (4 consumed).  If
    b == 0xFE, read 8 further bytes (9 consumed).  Returns the decoded
    value, a null flag, and bytes consumed."  The source takes three values
    back and no error, so absent bytes are a panic here; the byte 0xFF, on
    which the spec is silent, is read as a one-byte value. *)
Definition LengthEncodedInt (b : slice) : go (Z * bool * Z) :=
  let* b0 := index b 0 in
  let c := byte_Z b0 in
  if c =? 251 then Ret (0, true, 1)
  else if c =? 252 then
    if 3 <=? len b then Ret (le_value (take 2 (drop 1 (elems b))), false, 3)
    else Panic
  else if c =? 253 then
    if 4 <=? len b then Ret (le_value (take 3 (drop 1 (elems b))), false, 4)
    else Panic
  else if c =? 254 then
    if 9 <=? len b then Ret (le_value (take 8 (drop 1 (elems b))), false, 9)
    else Panic
  else Ret (c, false, 1).

(** Modelled from the spec: [LengthEncodedString], declared outside the
    files at hand.  Spec 4.1: "reads a packed integer length prefix, then
    that many raw bytes as the string payload; fails with Truncated on
    insufficient length."  The third value is the number of bytes consumed,
    prefix and payload, which is how the source advances past it. *)
Definition LengthEncodedString (b : slice)
  : go (slice * bool * Z * option error) :=
  let* '(num, isNull, n) := LengthEncodedInt b in
  if n + num <=? len b then
    let* s := slice_range b n (n + num) in
    Ret (s, isNull, n + num, None)
  else Ret (fresh [], false, n + num, Some ErrTruncated).

(** Modelled from the spec: [ReadNBytes], declared outside the files at
    hand.  Spec 6: "readExactly(n) -> bytes | Truncated | EndOfStream.  The
    core only ever requests an exact count or detects stream end."  The
    reader is the list of bytes not yet read; the result carries the bytes
    left.  End of stream is [io.EOF]. *)
Definition ReadNBytes (rd : list byte) (size : Z) : res slice * list byte :=
  if size <? 0 then (Err ErrTruncated, rd)
  else if size <=? Z.of_nat (length rd) then
    (Ok (fresh (take (Z.to_nat size) rd)), drop (Z.to_nat size) rd)
  else
    match rd with
    | [] => (Err io_EOF, rd)
    | _ => (Err ErrTruncated, [])
    end.

(* ================================================================= *)
(** ** Constants *)

(** Modelled from the spec: the event-type codes, declared outside the
    files at hand.  The spec has them as "small positive integer code[s]"
    of the MySQL binary log format, whose published numbering this is (its
    scenario A reads code 2 from a header). *)
Definition UnknownEvent : Z := 0.
Definition QueryEvent : Z := 2.
Definition RotateEvent : Z := 4.
Definition IntvarEvent : Z := 5.
Definition FormatDescriptionEvent : Z := 15.
Definition XIDEvent : Z := 16.
Definition TableMapEvent : Z := 19.
Definition WriteRowsEventV0 : Z := 20.
Definition UpdateRowsEventV0 : Z := 21.
Definition DeleteRowsEventV0 : Z := 22.
Definition WriteRowsEventV1 : Z := 23.
Definition UpdateRowsEventV1 : Z := 24.
Definition DeleteRowsEventV1 : Z := 25.
Definition WriteRowsEventV2 : Z := 30.
Definition UpdateRowsEventV2 : Z := 31.
Definition DeleteRowsEventV2 : Z := 32.
Definition AnonymousGTIDEvent : Z := 34.
Definition PreviousGTIDEvent : Z := 35.

(** Modelled from the spec: [binlogChecksumLength], declared outside the
    files at hand.  Spec 4.4: "the last 4 bytes are the checksum value". *)
Definition binlogChecksumLength : Z := 4.

(** Modelled from the spec: the column type codes, declared outside the
    files at hand; the spec has them as the "column type codes" of the
    table-map payload, whose published numbering this is. *)
Definition MySQLTypeDecimal : Z := 0.
Definition MySQLTypeTiny : Z := 1.
Definition MySQLTypeShort : Z := 2.
Definition MySQLTypeLong : Z := 3.
Definition MySQLTypeFloat : Z := 4.
Definition MySQLTypeDouble : Z := 5.
Definition MySQLTypeNull : Z := 6.
Definition MySQLTypeTimestamp : Z := 7.
Definition MySQLTypeLonglong : Z := 8.
Definition MySQLTypeInt24 : Z := 9.
Definition MySQLTypeDate : Z := 10.
Definition MySQLTypeTime : Z := 11.
Definition MySQLTypeDatetime : Z := 12.
Definition MySQLTypeYear : Z := 13.
Definition MySQLTypeNewDate : Z := 14.
Definition MySQLTypeVarchar : Z := 15.
Definition MySQLTypeBit : Z := 16.
Definition MySQLTypeTimestamp2 : Z := 17.
Definition MySQLTypeDatetime2 : Z := 18.
Definition MySQLTypeTime2 : Z := 19.
Definition MySQLTypeJSON : Z := 245.
Definition MySQLTypeNewDecimal : Z := 246.
Definition MySQLTypeEnum : Z := 247.
Definition MySQLTypeSet : Z := 248.
Definition MySQLTypeTinyBlob : Z := 249.
Definition MySQLTypeMediumBlob : Z := 250.
Definition MySQLTypeLongBlob : Z := 251.
Definition MySQLTypeBlob : Z := 252.
Definition MySQLTypeVarString : Z := 253.
Definition MySQLTypeString : Z := 254.
Definition MySQLTypeGeometry : Z := 255.

(** What the package takes from declarations outside the files at hand and
    the spec does not fix: the key set of the table [EventType2Str], the
    version test [hasChecksum] and the checksum comparison
    [ChecksumValidate(checksumType, checksumVal, data)]. *)
Record Extern : Type := mkExtern {
  EventType2Str_has : Z -> bool;
  hasChecksum : list byte -> bool;
  ChecksumValidate : byte -> list byte -> list byte -> bool
}.

(* ================================================================= *)
(** ** Reader options *)

(** [time.Time], by what [Unix] and [IsZero] read of it: the seconds since
    January 1 of year 1 and the nanoseconds within the second. *)
Record Time : Type := mkTime { t_sec : Z; t_nsec : Z }.

Definition unixToInternal : Z := 62135596800.
Definition Time_Unix (t : Time) : Z := wrap64 (t_sec t - unixToInternal).
Definition Time_IsZero (t : Time) : bool := (t_sec t =? 0) && (t_nsec t =? 0).
(** [time.Unix(sec, 0)] *)
Definition time_Unix (sec : Z) : Time := mkTime (wrap64 (sec + unixToInternal)) 0.
(** The zero value [time.Time{}]. *)
Definition zeroTime : Time := mkTime 0 0.

Record BinReaderOption : Type := mkOption {
  StartPos : Z;
  EndPos : Z;
  StartTime : Time;
  EndTime : Time
}.

(** [Start]; the receiver may be nil. *)
Definition Start (opt : option BinReaderOption) (header : BinEventHeader) : bool :=
  match opt with
  | None => true
  | Some o =>
    if negb (StartPos o =? 0)
       && (StartPos o <=? wrap64 (LogPos header - EventSize header)) then true
    else if Time_Unix (StartTime o) <=? Time_Unix (time_Unix (Timestamp header))
    then true
    else false
  end.

(** [Stop]; the receiver may be nil. *)
Definition Stop (opt : option BinReaderOption) (header : BinEventHeader) : bool :=
  match opt with
  | None => false
  | Some o =>
    if negb (EndPos o =? 0) && (EndPos o <? LogPos header) then true
    else if negb (Time_IsZero (EndTime o))
            && (Time_Unix (EndTime o) <=? Time_Unix (time_Unix (Timestamp header)))
    then true
    else false
  end.

(* ================================================================= *)
(** ** UTF-8 and white space *)

(** [decodeRotateEvent] calls [strings.TrimSpace].  That function and the
    functions of [unicode/utf8] and [unicode] under it belong to Go's
    library; they are written out here as the library has them, runes and
    widths as integers. *)

(** The constants of [unicode/utf8]. *)
Definition RuneError : Z := 65533.
Definition RuneSelf : Z := 128.
Definition UTFMax : Z := 4.
Definition maskx : Z := 63.
Definition mask2 : Z := 31.
Definition mask3 : Z := 15.
Definition mask4 : Z := 7.
Definition locb : Z := 128.
Definition hicb : Z := 191.

(** The entry of the table [first] for a leading byte: 0xF0 for ASCII,
    0xF1 for a byte that starts no rune, otherwise the index of the accept
    range in the high nibble and the size in the low one. *)
Definition first (b : Z) : Z :=
  if b <? 128 then 240
  else if b <? 194 then 241
  else if b <? 224 then 2
  else if b =? 224 then 19
  else if b <? 237 then 3
  else if b =? 237 then 35
  else if b <? 240 then 3
  else if b =? 240 then 52
  else if b <? 244 then 4
  else if b =? 244 then 68
  else 241.

(** [acceptRanges]: the bounds of the second byte. *)
Definition acceptRanges (i : Z) : Z * Z :=
  if i =? 0 then (locb, hicb)
  else if i =? 1 then (160, hicb)
  else if i =? 2 then (locb, 159)
  else if i =? 3 then (144, hicb)
  else if i =? 4 then (locb, 143)
  else (0, 0).

(** [utf8.DecodeRuneInString]: the first rune of [s] and its width in
    bytes; [(RuneError, 1)] for an encoding that is not valid.  The bytes
    after the first are read only when [s] has [sz] bytes. *)
Definition DecodeRuneInString (s : list byte) : Z * Z :=
  match s with
  | [] => (RuneError, 0)
  | b0 :: t =>
    let n := Z.of_nat (length s) in
    let s0 := byte_Z b0 in
    let x := first s0 in
    if 240 <=? x then ((if Z.odd x then RuneError else s0), 1)
    else
      let sz := Z.land x 7 in
      let accept := acceptRanges (Z.shiftr x 4) in
      if n <? sz then (RuneError, 1)
      else
        match t with
        | [] => (RuneError, 1)
        | b1 :: t =>
          let s1 := byte_Z b1 in
          if (s1 <? fst accept) || (snd accept <? s1) then (RuneError, 1)
          else if sz <=? 2 then
            (Z.lor (Z.shiftl (Z.land s0 mask2) 6) (Z.land s1 maskx), 2)
          else
            match t with
            | [] => (RuneError, 1)
            | b2 :: t =>
              let s2 := byte_Z b2 in
              if (s2 <? locb) || (hicb <? s2) then (RuneError, 1)
              else if sz <=? 3 then
                (Z.lor (Z.lor (Z.shiftl (Z.land s0 mask3) 12)
                          (Z.shiftl (Z.land s1 maskx) 6))
                   (Z.land s2 maskx), 3)
              else
                match t with
                | [] => (RuneError, 1)
                | b3 :: _ =>
                  let s3 := byte_Z b3 in
                  if (s3 <? locb) || (hicb <? s3) then (RuneError, 1)
                  else
                    (Z.lor (Z.lor (Z.lor (Z.shiftl (Z.land s0 mask4) 18)
                                     (Z.shiftl (Z.land s1 maskx) 12))
                              (Z.shiftl (Z.land s2 maskx) 6))
                       (Z.land s3 maskx), 4)
                end
            end
        end
  end.

(** [utf8.RuneStart] *)
Definition RuneStart (b : Z) : bool := negb (Z.land b 192 =? 128).

(** The loop of [DecodeLastRuneInString] that steps [start] back to the
    first byte that can start a rune, no further than [lim]. *)
Fixpoint lastRuneStart (fuel : nat) (s : list byte) (start lim : Z) : Z :=
  match fuel with
  | O => start
  | S k =>
    if lim <=? start then
      match s !! Z.to_nat start with
      | Some b =>
        if RuneStart (byte_Z b) then start else lastRuneStart k s (start - 1) lim
      | None => start
      end
    else start
  end.

(** [utf8.DecodeLastRuneInString]: the last rune of [s] and its width. *)
Definition DecodeLastRuneInString (s : list byte) : Z * Z :=
  let end_ := Z.of_nat (length s) in
  match last s with
  | None => (RuneError, 0)
  | Some b =>
    let r := byte_Z b in
    if r <? RuneSelf then (r, 1)
    else
      let lim := Z.max 0 (end_ - UTFMax) in
      let start := lastRuneStart 4 s (end_ - 1 - 1) lim in
      let start := if start <? 0 then 0 else start in
      let '(r, size) := DecodeRuneInString (drop (Z.to_nat start) s) in
      if negb (start + size =? end_) then (RuneError, 1) else (r, size)
  end.

(** [unicode.IsSpace]: the Latin-1 white space, and beyond it the table
    [White_Space]. *)
Definition IsSpace (r : Z) : bool :=
  if r <=? 255 then
    ((9 <=? r) && (r <=? 13)) || (r =? 32) || (r =? 133) || (r =? 160)
  else
    (r =? 5760) || ((8192 <=? r) && (r <=? 8202)) || (r =? 8232) || (r =? 8233)
    || (r =? 8239) || (r =? 8287) || (r =? 12288).

(** [indexFunc(s, f, truth)], from byte offset [i] on: the offset of the
    first rune [r] with [f(r) == truth], or -1.  The [range] loop decodes
    one rune at each step. *)
Fixpoint indexFunc (fuel : nat) (s : list byte) (i : Z) (f : Z -> bool)
    (truth : bool) : Z :=
  match fuel with
  | O => -1
  | S k =>
    match drop (Z.to_nat i) s with
    | [] => -1
    | rest =>
      let '(r, size) := DecodeRuneInString rest in
      if Bool.eqb (f r) truth then i else indexFunc k s (i + size) f truth
    end
  end.

(** [strings.TrimLeftFunc] *)
Definition TrimLeftFunc (s : list byte) (f : Z -> bool) : list byte :=
  let i := indexFunc (length s) s 0 f false in
  if i =? -1 then [] else drop (Z.to_nat i) s.

(** [lastIndexFunc(s, f, truth)], with [i] bytes still to see. *)
Fixpoint lastIndexFunc (fuel : nat) (s : list byte) (i : Z) (f : Z -> bool)
    (truth : bool) : Z :=
  match fuel with
  | O => -1
  | S k =>
    if 0 <? i then
      let '(r, size) := DecodeLastRuneInString (take (Z.to_nat i) s) in
      let i := i - size in
      if Bool.eqb (f r) truth then i else lastIndexFunc k s i f truth
    else -1
  end.

(** [strings.TrimRightFunc]: the index [lastIndexFunc] returns is -1 or
    an index of [s]. *)
Definition TrimRightFunc (s : list byte) (f : Z -> bool) : list byte :=
  let i := lastIndexFunc (length s) s (Z.of_nat (length s)) f false in
  let i :=
    match (if 0 <=? i then s !! Z.to_nat i else None) with
    | Some b =>
      if RuneSelf <=? byte_Z b
      then i + snd (DecodeRuneInString (drop (Z.to_nat i) s))
      else i + 1
    | None => i + 1
    end in
  take (Z.to_nat i) s.

(** [strings.TrimFunc] *)
Definition TrimFunc (s : list byte) (f : Z -> bool) : list byte :=
  TrimRightFunc (TrimLeftFunc s f) f.

(** [strings.TrimSpace]: "all leading and trailing white space removed, as
    defined by Unicode", that is [TrimFunc(s, unicode.IsSpace)]; the loops
    over ASCII bytes it runs first return the same string. *)
Definition TrimSpace (s : list byte) : list byte := TrimFunc s IsSpace.

(* ================================================================= *)
(** ** Event bodies *)

Record BinFmtDescEvent : Type := mkFmtDesc {
  BinlogVersion : Z;          (* int *)
  MySQLVersion : list byte;   (* string *)
  CreateTime : Z;             (* int64 *)
  EventHeaderLength : Z;      (* int64 *)
  EventTypeHeader : slice;
  hasCheckSum : bool
}.

Fixpoint trimLeftFunc (f : byte -> bool) (s : list byte) : list byte :=
  match s with
  | [] => []
  | b :: r => if f b then trimLeftFunc f r else s
  end.
Definition trimRightFunc (f : byte -> bool) (s : list byte) : list byte :=
  reverse (trimLeftFunc f (reverse s)).

(** [bytes.Trim(s, cutset)] for a cutset of one ASCII byte. *)
Definition bytes_Trim (s : list byte) (c : byte) : list byte :=
  trimLeftFunc (Byte.eqb c) (trimRightFunc (Byte.eqb c) s).

(** [strconv.Itoa(0x00)] is the one-character string "0". *)
Definition Itoa_0 : byte := x30.

Definition decodeFmtDescEvent (X : Extern) (data : slice) : go BinFmtDescEvent :=
  let pos := 0 in
  (* binlog-version *)
  let* ver := Uint16 data in
  let pos := pos + 2 in
  (* mysql-server version *)
  let* v := slice_range data pos (pos + 50) in
  let version := bytes_Trim (elems v) Itoa_0 in
  let pos := pos + 50 in
  (* create timestamp *)
  let* ct := Uint32_at data pos in
  let pos := pos + 4 in
  (* event header length *)
  let* hl := index data pos in
  let pos := pos + 1 in
  (* event type header lengths *)
  let* eth := slice_from data pos in
  Ret (mkFmtDesc ver version ct (byte_Z hl) eth (hasChecksum X version)).

Record BinQueryEvent : Type := mkQuery {
  SlaveProxyID : Z;
  ExecutionTime : Z;
  ErrorCode : Z;
  statusVarsLength : Z;
  StatusVars : option slice;
  q_Schema : list byte;
  Query : list byte
}.

Definition decodeQueryEvent (data : slice) (binlogVersion : Z) : go BinQueryEvent :=
  let pos := 0 in
  (* slave_proxy_id *)
  let* spid := Uint32_at data pos in
  let pos := pos + 4 in
  (* execution time *)
  let* et := Uint32_at data pos in
  let pos := pos + 4 in
  (* schema length *)
  let* sl := index data pos in
  let schemaLength := byte_Z sl in
  let pos := pos + 1 in
  (* error-code *)
  let* ec := Uint16_at data pos in
  let pos := pos + 2 in
  let* '(svl, sv, pos) :=
    if 4 <=? binlogVersion then
      (* status-vars length *)
      let* svl := Uint16_at data pos in
      let pos := pos + 2 in
      (* status-vars *)
      let* sv := slice_range data pos (pos + svl) in
      Ret (svl, Some sv, pos + svl)
    else Ret (0, None, pos) in
  (* schema *)
  let* sch := slice_range data pos (pos + schemaLength) in
  let pos := pos + schemaLength in
  (* ignore 0x00 *)
  let pos := pos + 1 in
  (* query *)
  let* q := slice_from data pos in
  Ret (mkQuery spid et ec svl sv (elems sch) (elems q)).

Record BinXIDEvent : Type := mkXID { XID : Z }.

Definition decodeXIDEvent (data : slice) : go BinXIDEvent :=
  let* x := Uint64 data in Ret (mkXID x).

Record BinIntvarEvent : Type := mkIntvar { iv_Type : Z; iv_Value : Z }.

Definition decodeIntvarEvent (data : slice) : go BinIntvarEvent :=
  let* t := index data 0 in
  let* r := slice_from data 1 in
  let* v := Uint64 r in
  Ret (mkIntvar (byte_Z t) v).

Record BinRotateEvent : Type := mkRotate {
  Position : Z;          (* uint64 *)
  FileName : list byte   (* string *)
}.

Definition decodeRotateEvent (data : slice) (binlogVersion : Z) : go BinRotateEvent :=
  let pos := 0 in
  let* '(position, pos) :=
    if 1 <? binlogVersion then
      (* next_binlog_po *)
      let* p := Uint64 data in
      Ret (p, pos + 8)
    else Ret (0, pos) in
  (* next_binlog_filename *)
  let* name := slice_from data pos in
  Ret (mkRotate position (TrimSpace (elems name))).

Record BinEventUnParsed : Type := mkUnParsed { up_Data : slice }.

Definition decodeUnSupportEvent (data : slice) : BinEventUnParsed :=
  mkUnParsed data.

(* ================================================================= *)
(** ** Table-map and rows events (rows_event.go) *)

(** [bitmapByteSize]: [int] addition, and Go's division, which truncates. *)
Definition bitmapByteSize (columnCount : Z) : Z :=
  Z.quot (wrap64 (columnCount + 7)) 8.

(** [Bitfield.isSet] *)
Definition isSet (bits : slice) (i : Z) : go bool :=
  let* b := index bits (i / 8) in
  Ret (negb (Z.land (byte_Z b) (Z.shiftl 1 (i mod 8)) =? 0)).

Record ColumnType : Type := mkColumnType {
  columnType : Z;      (* FieldType *)
  ct_name : list byte;
  ct_unsigned : bool;
  maxLength : Z;       (* uint16 *)
  lengthSize : Z;      (* uint8 *)
  precision : Z;
  decimals : Z;
  ct_size : Z;         (* uint16 *)
  ct_bytes : Z;
  ct_bits : Z;         (* byte *)
  fsp : Z              (* uint8 *)
}.

Record BinTableMapEvent : Type := mkTableMap {
  tm_TableID : Z;               (* uint64 *)
  tm_tableIDLen : Z;
  tm_Flags : Z;
  tm_Schema : list byte;
  tm_Table : list byte;
  tm_ColumnCount : Z;           (* uint64 *)
  ColumnTypeDef : list Z;
  ColumnMetaDef : list ColumnType;
  NullBitmap : option slice
}.

(** The test both [Init] methods make on the format description; [h] may be
    nil, [i] is the index into [EventTypeHeader]. *)
Definition tableIDLen_of (h : option BinFmtDescEvent) (i : Z) : go Z :=
  match h with
  | None => Panic
  | Some d =>
    let* b := index (EventTypeHeader d) i in
    Ret (if byte_Z b =? 6 then 4 else 6)
  end.

(** One turn of the loop of [decodeMeta]: the entry of a column of type [t]
    and the position after its metadata. *)
Definition decodeMeta_column (data : slice) (pos : Z) (t : Z)
  : go (res (ColumnType * Z)) :=
  if t =? MySQLTypeString then
    let* fieldType := index data pos in
    let pos := pos + 1 in
    let* fieldLength := index data pos in
    let pos := pos + 1 in
    let metadata := wrap16 (Z.shiftl (byte_Z fieldType) 8 + byte_Z fieldLength) in
    if (byte_Z fieldType =? MySQLTypeEnum) || (byte_Z fieldType =? MySQLTypeSet) then
      Ret (Ok (mkColumnType (byte_Z fieldType) [] false 0 0 0 0
                 (Z.land metadata 255) 0 0 0, pos))
    else
      Ret (Ok (mkColumnType 0 [] false
                 (wrap16 (Z.lxor (Z.land (Z.shiftr metadata 4) 768) 768
                          + Z.land metadata 255))
                 0 0 0 0 0 0 0, pos))
  else if (t =? MySQLTypeVarString) || (t =? MySQLTypeVarchar)
          || (t =? MySQLTypeDecimal) then
    let* ml := Uint16_at data pos in
    Ret (Ok (mkColumnType 0 [] false ml 0 0 0 0 0 0 0, pos + 2))
  else if t =? MySQLTypeBit then
    let* bits := index data pos in
    let pos := pos + 1 in
    let* bytes := index data pos in
    let pos := pos + 1 in
    let b := wrap8 (wrap8 (byte_Z bytes * 8) + byte_Z bits) in
    Ret (Ok (mkColumnType 0 [] false 0 0 0 0 0 (wrap8 (b + 7) / 8) b 0, pos))
  else if (t =? MySQLTypeBlob) || (t =? MySQLTypeGeometry)
          || (t =? MySQLTypeDouble) || (t =? MySQLTypeFloat)
          || (t =? MySQLTypeMediumBlob) || (t =? MySQLTypeTinyBlob)
          || (t =? MySQLTypeLongBlob) || (t =? MySQLTypeJSON) then
    let* ls := index data pos in
    Ret (Ok (mkColumnType 0 [] false 0 (byte_Z ls) 0 0 0 0 0 0, pos + 1))
  else if t =? MySQLTypeNewDecimal then
    let* p := index data pos in
    let pos := pos + 1 in
    let* d := index data pos in
    let pos := pos + 1 in
    Ret (Ok (mkColumnType 0 [] false 0 0 (byte_Z p) (byte_Z d) 0 0 0 0, pos))
  else if (t =? MySQLTypeTime2) || (t =? MySQLTypeDatetime2)
          || (t =? MySQLTypeTimestamp2) then
    let* f := index data pos in
    Ret (Ok (mkColumnType 0 [] false 0 0 0 0 0 0 0 (byte_Z f), pos + 1))
  else if (t =? MySQLTypeDate) || (t =? MySQLTypeDatetime)
          || (t =? MySQLTypeTimestamp) || (t =? MySQLTypeTime)
          || (t =? MySQLTypeTiny) || (t =? MySQLTypeShort)
          || (t =? MySQLTypeInt24) || (t =? MySQLTypeLong)
          || (t =? MySQLTypeLonglong) || (t =? MySQLTypeNull)
          || (t =? MySQLTypeYear) || (t =? MySQLTypeNewDate) then
    Ret (Ok (mkColumnType 0 [] false 0 0 0 0 0 0 0 0, pos))
  else Ret (Err ErrUnknownFieldType).

Fixpoint decodeMeta_loop (data : slice) (pos : Z) (types : list Z)
  : go (res (list ColumnType)) :=
  match types with
  | [] => Ret (Ok [])
  | t :: rest =>
    let* c := decodeMeta_column data pos t in
    match c with
    | Err e => Ret (Err e)
    | Ok (m, pos) =>
      let* r := decodeMeta_loop data pos rest in
      match r with
      | Err e => Ret (Err e)
      | Ok ms => Ret (Ok (m :: ms))
      end
    end
  end.

(** [decodeMeta], as a function of the column types of its receiver to the
    metadata entries it stores there. *)
Definition decodeMeta (types : list Z) (data : slice) : go (res (list ColumnType)) :=
  decodeMeta_loop data 0 types.

(** The loop that copies [n] column types from [data[pos], data[pos+1], ...],
    after [make([]FieldType, columnCount)]: a count whose [int] is not
    positive reads nothing (and a count that is no [int] cannot be
    allocated); otherwise every index must be in range. *)
Definition columnTypes (data : slice) (pos : Z) (columnCount : Z) : go (list Z) :=
  if 2 ^ 63 <=? columnCount then Panic
  else if columnCount <=? 0 then Ret []
  else if (0 <=? pos) && (pos + columnCount <=? len data) then
    Ret (byte_Z <$> take (Z.to_nat columnCount) (drop (Z.to_nat pos) (elems data)))
  else Panic.

Definition decodeTableMapEvent (data : slice) (h : option BinFmtDescEvent)
  : go (option BinTableMapEvent * option error) :=
  (* set table id *)
  let* tableIDLen := tableIDLen_of h (TableMapEvent - 1) in
  let pos := tableIDLen in
  let* idb := slice_to data pos in
  let tableID := FixedLengthInt idb in
  (* set flags *)
  let* flags := Uint16_at data pos in
  let pos := pos + 2 in
  (* set schema && skip 0x00 *)
  let* sl := index data pos in
  let schemaLength := byte_Z sl in
  let pos := pos + 1 in
  let* schema := slice_range data pos (pos + schemaLength) in
  let pos := pos + (schemaLength + 1) in
  (* set table && skip 0x00 *)
  let* tl := index data pos in
  let tableLength := byte_Z tl in
  let pos := pos + 1 in
  let* table := slice_range data pos (pos + tableLength) in
  let pos := pos + (tableLength + 1) in
  (* set column count *)
  let* rest := slice_from data pos in
  let* '(columnCount, _, n) := LengthEncodedInt rest in
  let pos := pos + n in
  (* column_type_def *)
  let* types := columnTypes data pos columnCount in
  let pos := pos + wrap64 columnCount in
  (* decode column meta *)
  let* rest := slice_from data pos in
  let* '(metaData, _, n, err) := LengthEncodedString rest in
  match err with
  | Some e => Ret (None, Some e)
  | None =>
    let* metas := decodeMeta types metaData in
    match metas with
    | Err e => Ret (None, Some e)
    | Ok metas =>
      let pos := pos + n in
      (* null_bitmap *)
      let* bitmap := slice_from data pos in
      let event := mkTableMap tableID tableIDLen flags (elems schema)
                     (elems table) columnCount types metas in
      if len bitmap =? bitmapByteSize (wrap64 columnCount) then
        Ret (Some (event (Some bitmap)), None)
      else Ret (Some (event None), Some io_EOF)
    end
  end.

Record BinRowsEvent : Type := mkRows {
  Version : Z;
  r_TableID : Z;                       (* uint64 *)
  r_tableIDLen : Z;
  r_Flags : Z;
  ExtraData : option slice;            (* if version == 2 *)
  r_ColumnCount : Z;                   (* uint64 *)
  ColumnsBitmap1 : slice;
  ColumnsBitmap2 : option slice;       (* if UPDATE_ROWS_EVENTv1 or v2 *)
  tableMap : option BinTableMapEvent   (* never assigned *)
}.

(** The version [BinRowsEvent.Init] sets from the event type. *)
Definition rowsVersion (eventType : Z) : Z :=
  if (eventType =? WriteRowsEventV0) || (eventType =? UpdateRowsEventV0)
     || (eventType =? DeleteRowsEventV0) then 0
  else if (eventType =? WriteRowsEventV1) || (eventType =? UpdateRowsEventV1)
          || (eventType =? DeleteRowsEventV1) then 1
  else if (eventType =? WriteRowsEventV2) || (eventType =? UpdateRowsEventV2)
          || (eventType =? DeleteRowsEventV2) then 2
  else 0.

Definition decodeRowsEvent (data : slice) (h : option BinFmtDescEvent) (typ : Z)
  : go BinRowsEvent :=
  let* tableIDLen := tableIDLen_of h (wrap8 (typ - 1)) in
  let version := rowsVersion typ in
  (* set table id *)
  let pos := tableIDLen in
  let* idb := slice_to data pos in
  let tableID := FixedLengthInt idb in
  (* set flags *)
  let* flags := Uint16_at data pos in
  let pos := pos + 2 in
  (* set extraDataLength *)
  let* '(extra, pos) :=
    if version =? 2 then
      let* extraDataLen := Uint16_at data pos in
      let pos := pos + 2 in
      let* e := slice_range data pos (pos + wrap16 (extraDataLen - 2)) in
      Ret (Some e, pos + wrap16 (extraDataLen - 2))
    else Ret (None, pos) in
  (* body *)
  let* rest := slice_from data pos in
  let* '(columnCount, _, n) := LengthEncodedInt rest in
  let pos := pos + n in
  (* columns-present-bitmap1 *)
  let bitCount := bitmapByteSize (wrap64 columnCount) in
  let* bitmap1 := slice_range data pos (pos + bitCount) in
  let pos := pos + bitCount in
  (* columns-present-bitmap2 *)
  let* bitmap2 :=
    if (typ =? UpdateRowsEventV1) || (typ =? UpdateRowsEventV2) then
      let* b := slice_range data pos (pos + bitCount) in Ret (Some b)
    else Ret None in
  Ret (mkRows version tableID tableIDLen flags extra columnCount
         bitmap1 bitmap2 None).

(* ================================================================= *)
(** ** Events and their validation *)

Inductive BinEventBody : Type :=
| BodyFmtDesc (d : BinFmtDescEvent)
| BodyQuery (q : BinQueryEvent)
| BodyXID (x : BinXIDEvent)
| BodyIntvar (i : BinIntvarEvent)
| BodyRotate (r : BinRotateEvent)
| BodyTableMap (t : BinTableMapEvent)
| BodyRows (r : BinRowsEvent)
| BodyUnParsed (u : BinEventUnParsed).

Record BinEvent : Type := mkEvent {
  Header : BinEventHeader;
  Body : option BinEventBody;
  ChecksumType : byte;
  ChecksumVal : slice
}.

(** [BinaryLogInfo]: the decode context. *)
Record BinaryLogInfo : Type := mkInfo {
  description : option BinFmtDescEvent;
  tableInfo : gmap Z BinTableMapEvent
}.

(** [BinEvent.Validation].  [hdr] is [event.Header]; the result is the
    checksum type and value the method stores in the event, then the two
    values it returns. *)
Definition Validation (X : Extern) (hdr : option BinEventHeader)
    (bin : option BinaryLogInfo) (header body : slice)
  : go (byte * slice * slice * option error) :=
  match bin, hdr with
  | None, _ => Ret (x00, fresh [], body, Some ErrEmptyBinaryLogInfo)
  | Some _, None => Ret (x00, fresh [], body, Some ErrEmptyEventHeader)
  | Some bin, Some h =>
    if negb (wrap64 (len body + len header) =? EventSize h) then
      Ret (x00, fresh [], body, Some ErrEventSize)
    else
      match description bin with
      | Some d =>
        if hasCheckSum d then
          let i := len body - binlogChecksumLength - 1 in
          let* checksumType := index body i in
          let* checksumVal := slice_from body (i + 1) in
          let* body := slice_to body (i + 1) in
          if negb (ChecksumValidate X checksumType (elems checksumVal)
                     (elems header ++ elems body))
             || negb (len checksumVal =? 4) then
            Ret (checksumType, checksumVal, body, Some ErrChecksum)
          else Ret (checksumType, checksumVal, body, None)
        else Ret (x00, fresh [], body, None)
      | None => Ret (x00, fresh [], body, None)
      end
  end.

(* ================================================================= *)
(** ** The file decoder *)

(** [binFileHeader] *)
Definition binFileHeader : list byte := [xfe; x62; x69; x6e].

(** [BinFileDecoder]: the options, the bytes of the file not yet read, and
    the decode context. *)
Record BinFileDecoder : Type := mkDecoder {
  Option : option BinReaderOption;
  buf : list byte;
  bin : BinaryLogInfo
}.

Definition with_buf (decoder : BinFileDecoder) (rd : list byte) : BinFileDecoder :=
  mkDecoder (Option decoder) rd (bin decoder).
Definition with_bin (decoder : BinFileDecoder) (b : BinaryLogInfo) : BinFileDecoder :=
  mkDecoder (Option decoder) (buf decoder) b.

(** [NewBinFileDecoder] with [init], on the bytes of the file at the path:
    the first read fills up to four bytes of a zeroed header. *)
Definition NewBinFileDecoder (file : list byte) (options : option BinReaderOption)
  : res BinFileDecoder :=
  match file with
  | [] => Err io_EOF
  | _ =>
    if bool_decide (take 4 file ++ repeat x00 (4 - length (take 4 file))%nat
                    = binFileHeader)
    then Ok (mkDecoder options (drop 4 file) (mkInfo None ∅))
    else Err ErrInvalidFileHeader
  end.

(** The width of the next header. *)
Definition eventHeaderLength (decoder : BinFileDecoder) : Z :=
  match description (bin decoder) with
  | Some d => EventHeaderLength d
  | None => defaultEventHeaderSize
  end.

(** The first part of [DecodeEvent], down to "read binlog event body": the
    header bytes, the header, the body bytes, and the bytes left. *)
Definition readEvent (X : Extern) (decoder : BinFileDecoder)
  : go (res (slice * BinEventHeader * slice) * list byte) :=
  match ReadNBytes (buf decoder) (eventHeaderLength decoder) with
  | (Err e, rd) => Ret (Err e, rd)
  | (Ok headerData, rd) =>
    let* h := decodeEventHeader headerData (eventHeaderLength decoder) in
    match h with
    | Err e => Ret (Err e, rd)
    | Ok header =>
      if negb (EventType2Str_has X (EventType header)) then
        Ret (Err ErrUnknownEventType, rd)
      else
        let readDataLength := wrap64 (EventSize header - eventHeaderLength decoder) in
        match ReadNBytes rd readDataLength with
        | (Err e, rd) => Ret (Err e, rd)
        | (Ok data, rd) => Ret (Ok (headerData, header, data), rd)
        end
    end
  end.

Definition isRowsEvent (t : Z) : bool :=
  (t =? WriteRowsEventV0) || (t =? UpdateRowsEventV0) || (t =? DeleteRowsEventV0)
  || (t =? WriteRowsEventV1) || (t =? UpdateRowsEventV1) || (t =? DeleteRowsEventV1)
  || (t =? WriteRowsEventV2) || (t =? UpdateRowsEventV2) || (t =? DeleteRowsEventV2).

(** [decoder.description.BinlogVersion] *)
Definition descriptionVersion (b : BinaryLogInfo) : go Z :=
  match description b with
  | Some d => Ret (BinlogVersion d)
  | None => Panic
  end.

(** The [switch] of [DecodeEvent] with the test that follows it: the decode
    context after it, and the body or the error. *)
Definition decodeBody (X : Extern) (b : BinaryLogInfo) (typ : Z) (data : slice)
  : go (BinaryLogInfo * res BinEventBody) :=
  if typ =? FormatDescriptionEvent then
    let* d := decodeFmtDescEvent X data in
    Ret (mkInfo (Some d) (tableInfo b), Ok (BodyFmtDesc d))
  else if typ =? QueryEvent then
    let* v := descriptionVersion b in
    let* q := decodeQueryEvent data v in
    Ret (b, Ok (BodyQuery q))
  else if typ =? XIDEvent then
    let* x := decodeXIDEvent data in
    Ret (b, Ok (BodyXID x))
  else if typ =? IntvarEvent then
    let* i := decodeIntvarEvent data in
    Ret (b, Ok (BodyIntvar i))
  else if typ =? RotateEvent then
    let* v := descriptionVersion b in
    let* r := decodeRotateEvent data v in
    Ret (b, Ok (BodyRotate r))
  else if typ =? TableMapEvent then
    let* '(t, err) := decodeTableMapEvent data (description b) in
    match err, t with
    | Some e, _ => Ret (b, Err e)
    | None, None => Panic
    | None, Some t =>
      Ret (mkInfo (description b) (<[tm_TableID t := t]> (tableInfo b)),
           Ok (BodyTableMap t))
    end
  else if isRowsEvent typ then
    let* r := decodeRowsEvent data (description b) typ in
    Ret (b, Ok (BodyRows r))
  else if (typ =? PreviousGTIDEvent) || (typ =? AnonymousGTIDEvent) then
    Ret (b, Ok (BodyUnParsed (decodeUnSupportEvent data)))
  else if typ =? UnknownEvent then Ret (b, Err ErrUnknownEvent)
  else Ret (b, Err ErrNotSupportEvent).

(** [DecodeEvent]: the decoder after the call and the two values returned. *)
Definition DecodeEvent (X : Extern) (decoder : BinFileDecoder)
  : go (BinFileDecoder * (option BinEvent * option error)) :=
  let* '(r, rd) := readEvent X decoder in
  let decoder := with_buf decoder rd in
  match r with
  | Err e => Ret (decoder, (None, Some e))
  | Ok (headerData, header, data) =>
    (* skip data if not start *)
    if negb (EventType header =? FormatDescriptionEvent)
       && negb (Start (Option decoder) header) then
      Ret (decoder, (None, None))
    else
      let* '(ct, cv, data, err) :=
        Validation X (Some header) (Some (bin decoder)) headerData data in
      let event := mkEvent header None ct cv in
      match err with
      | Some e => Ret (decoder, (Some event, Some e))
      | None =>
        (* decode binlog event body *)
        let* '(b, body) := decodeBody X (bin decoder) (EventType header) data in
        let decoder := with_bin decoder b in
        match body with
        | Err e => Ret (decoder, (None, Some e))
        | Ok eventBody =>
          (* set event body *)
          Ret (decoder, (Some (mkEvent header (Some eventBody) ct cv), None))
        end
      end
  end.

(** What a walk leaves: the error returned, the decoder, the state of the
    consumer, and the events the consumer was called with, in order. *)
Record Walked (C : Type) : Type := mkWalked {
  w_err : option error;
  w_decoder : BinFileDecoder;
  w_consumer : C;
  w_calls : list BinEvent
}.
Arguments mkWalked {C}.
Arguments w_err {C}.
Arguments w_decoder {C}.
Arguments w_consumer {C}.
Arguments w_calls {C}.

Definition called {C : Type} (event : BinEvent) (w : Walked C) : Walked C :=
  mkWalked (w_err w) (w_decoder w) (w_consumer w) (event :: w_calls w).

Section Walk.
Context (X : Extern).
(** The consumer [f], a closure: [C] is the state it closes over. *)
Context {C : Type} (f : C -> BinEvent -> C * (bool * option error)).

(** The loop of [WalkEvent], for at most [fuel] turns. *)
Fixpoint WalkEvent_loop (fuel : nat) (decoder : BinFileDecoder) (c : C)
  : option (go (Walked C)) :=
  match fuel with
  | O => None
  | S fuel =>
    match DecodeEvent X decoder with
    | Panic => Some Panic
    | Ret (decoder, (event, err)) =>
      match err with
      | Some e =>
        if bool_decide (e = io_EOF) then Some (Ret (mkWalked None decoder c []))
        else Some (Ret (mkWalked (Some e) decoder c []))
      | None =>
        match event with
        | None =>
          (* will receive a nil event if decoding not start yet *)
          WalkEvent_loop fuel decoder c
        | Some event =>
          (* if stop decoding *)
          if Stop (Option decoder) (Header event) then
            Some (Ret (mkWalked None decoder c []))
          else
            let '(c, (isContinue, err)) := f c event in
            if negb isContinue || bool_decide (err <> None) then
              Some (Ret (mkWalked err decoder c [event]))
            else
              match WalkEvent_loop fuel decoder c with
              | Some (Ret w) => Some (Ret (called event w))
              | r => r
              end
        end
      end
    end
  end.

(** [WalkEvent]: every turn that goes on has read a header, so the bytes
    left bound the turns ([WalkEvent_loop_total]). *)
Definition WalkEvent (decoder : BinFileDecoder) (c : C) : go (Walked C) :=
  match WalkEvent_loop (S (length (buf decoder))) decoder c with
  | Some r => r
  | None => Panic
  end.
End Walk.

(* ================================================================= *)
(** ** An instance of the outside declarations, and sample files *)

(** CRC-32 (IEEE 802.3, reflected), one bit and one byte at a time. *)
Definition crc32_bit (crc : Z) : Z :=
  if Z.testbit crc 0 then Z.lxor (Z.shiftr crc 1) 0xEDB88320 else Z.shiftr crc 1.
Definition crc32_byte (crc : Z) (b : byte) : Z :=
  Nat.iter 8 crc32_bit (Z.lxor crc (byte_Z b)).
Definition crc32 (data : list byte) : Z :=
  Z.lxor (fold_left crc32_byte data 0xFFFFFFFF) 0xFFFFFFFF.

(** Modelled from the spec: [ChecksumValidate], declared outside the files
    at hand.  Spec 4.4: "The checksum is recomputed (CRC-32 by convention,
    algorithm identifier permitting) over headerBytes ++ trimmedBody and
    must equal the stored 4-byte value". *)
Definition ChecksumValidate_crc32 (checksumType : byte) (checksumVal data : list byte)
  : bool :=
  crc32 data =? le_value checksumVal.

(** Byte-wise order on strings, as Go compares them. *)
Fixpoint string_lt (a b : list byte) : bool :=
  match a, b with
  | _, [] => false
  | [], _ :: _ => true
  | x :: a, y :: b =>
    if byte_Z x <? byte_Z y then true
    else if byte_Z y <? byte_Z x then false
    else string_lt a b
  end.

(** Modelled from the spec: [hasChecksum], declared outside the files at
    hand.  Spec 4.5 and 9: "treat as enabled unless the version predates the
    checksum feature's introduction", by "a string comparison against the
    server-version string"; the feature came with server version 5.6.1. *)
Definition hasChecksum_561 (version : list byte) : bool :=
  negb (string_lt version [x35; x2e; x36; x2e; x31]).

(** The instance the examples run with; the event types named are the codes
    0 to 35. *)
Definition sample_extern : Extern :=
  mkExtern (fun t => (0 <=? t) && (t <=? 35)) hasChecksum_561 ChecksumValidate_crc32.

(** A consumer that counts its calls and always continues. *)
Definition counting (c : Z) (event : BinEvent) : Z * (bool * option error) :=
  (c + 1, (true, None)).

(** A format description event of a 5.5.62 server at offset 4: 19 bytes of
    header (timestamp 1, type 15, server 1, size 111, end 115), binlog
    version 4, header length 19, and 35 event-type header lengths of 8. *)
Definition sample_fde : list byte :=
  [x01;x00;x00;x00; x0f; x01;x00;x00;x00; x6f;x00;x00;x00; x73;x00;x00;x00; x00;x00]
  ++ [x04;x00] ++ [x35;x2e;x35;x2e;x36;x32] ++ repeat x00 44
  ++ [x01;x00;x00;x00] ++ [x13] ++ repeat x08 35.

(** A transaction-id event at offset 115: timestamp 100, type 16, size 27,
    end 142, transaction 9. *)
Definition sample_xid : list byte :=
  [x64;x00;x00;x00; x10; x01;x00;x00;x00; x1b;x00;x00;x00; x8e;x00;x00;x00; x00;x00]
  ++ [x09;x00;x00;x00;x00;x00;x00;x00].

(** A version-1 write-rows event at offset 115 for table 7, which no
    table-map event announces: flags 1, two columns, presence bitmap 03,
    three bytes of row data. *)
Definition sample_write_rows : list byte :=
  [x64;x00;x00;x00; x17; x01;x00;x00;x00; x20;x00;x00;x00; x93;x00;x00;x00; x00;x00]
  ++ [x07;x00;x00;x00;x00;x00] ++ [x01;x00] ++ [x02] ++ [x03]
  ++ [xfc; x01; x07].

(** A table-map event at offset 115 for table 7, schema "db", table "t", one
    column of type 3, no metadata, and a null bitmap of two bytes where one
    is due. *)
Definition sample_table_map_long : list byte :=
  [x64;x00;x00;x00; x13; x01;x00;x00;x00; x27;x00;x00;x00; x9a;x00;x00;x00; x00;x00]
  ++ [x07;x00;x00;x00;x00;x00] ++ [x01;x00]
  ++ [x02; x64;x62; x00] ++ [x01; x74; x00]
  ++ [x01] ++ [x03] ++ [x00] ++ [x00;x00].

(** The same event with the null bitmap of one byte that is due. *)
Definition sample_table_map : list byte :=
  [x64;x00;x00;x00; x13; x01;x00;x00;x00; x26;x00;x00;x00; x99;x00;x00;x00; x00;x00]
  ++ [x07;x00;x00;x00;x00;x00] ++ [x01;x00]
  ++ [x02; x64;x62; x00] ++ [x01; x74; x00]
  ++ [x01] ++ [x03] ++ [x00] ++ [x00].


(** A format description event of a 5.7.30 server at offset 4, with 38
    event-type header lengths and the checksum suffix: algorithm 1 and the
    CRC-32 of all that precedes it. *)
Definition sample_fde_crc : list byte :=
  [x01;x00;x00;x00; x0f; x01;x00;x00;x00; x77;x00;x00;x00; x7b;x00;x00;x00; x00;x00]
  ++ [x04;x00] ++ [x35;x2e;x37;x2e;x33;x30] ++ repeat x00 44
  ++ [x01;x00;x00;x00] ++ [x13] ++ repeat x08 38
  ++ [x01] ++ [xf7;xe8;x09;x21].

(** A previous-GTIDs event at offset 123, laid out as spec 4.4 has it: eight
    bytes of payload, the algorithm byte 1, and four bytes of checksum, the
    CRC-32 of the header, the payload and the algorithm byte. *)
Definition sample_previous_gtids : list byte :=
  [x64;x00;x00;x00; x23; x01;x00;x00;x00; x20;x00;x00;x00; x9b;x00;x00;x00; x00;x00]
  ++ repeat x00 8 ++ [x01] ++ [x73;x55;x4e;x65].

(** The body of an update-rows event for table 7: flags 1, two columns, the
    presence bitmaps 03 and 01, three bytes of row data. *)
Definition sample_update_body : list byte :=
  [x07;x00;x00;x00;x00;x00] ++ [x01;x00] ++ [x02] ++ [x03] ++ [x01]
  ++ [xfc; x01; x07].

(** The format description [sample_fde] decodes to. *)
Definition sample_description : BinFmtDescEvent :=
  mkFmtDesc 4 ([x35;x2e;x35;x2e;x36;x32] ++ repeat x00 44) 1 19
    (fresh (repeat x08 35)) false.

(** The decoder [NewBinFileDecoder] returns for a file of the magic number
    followed by [events]. *)
Definition opened (options : option BinReaderOption) (events : list byte)
  : BinFileDecoder :=
  mkDecoder options events (mkInfo None ∅).

(** The decoder with another table registry. *)
Definition with_tableInfo (decoder : BinFileDecoder) (ti : gmap Z BinTableMapEvent)
  : BinFileDecoder :=
  with_bin decoder (mkInfo (description (bin decoder)) ti).

(* ================================================================= *)
(** ** Encoders and predicates the statements use *)

(** The byte of value [z mod 256]. *)
Definition byte_of_Z (z : Z) : byte :=
  default x00 (Byte.of_N (Z.to_N (z mod 256))).

(** The [n] bytes of [v], least significant first. *)
Fixpoint le_bytes (n : nat) (v : Z) : list byte :=
  match n with
  | O => []
  | S k => byte_of_Z v :: le_bytes k (v / 256)
  end.

(** The UTF-8 encodings of the white space of Unicode: U+0009 to U+000D,
    U+0020, U+0085, U+00A0, U+1680, U+2000 to U+200A, U+2028, U+2029,
    U+202F, U+205F and U+3000. *)
Definition spaceSeqs : list (list byte) :=
  [ [x09]; [x0a]; [x0b]; [x0c]; [x0d]; [x20];
    [xc2; x85]; [xc2; xa0];
    [xe1; x9a; x80];
    [xe2; x80; x80]; [xe2; x80; x81]; [xe2; x80; x82]; [xe2; x80; x83];
    [xe2; x80; x84]; [xe2; x80; x85]; [xe2; x80; x86]; [xe2; x80; x87];
    [xe2; x80; x88]; [xe2; x80; x89]; [xe2; x80; x8a];
    [xe2; x80; xa8]; [xe2; x80; xa9]; [xe2; x80; xaf];
    [xe2; x81; x9f];
    [xe3; x80; x80] ].

(** [l] is a run of white space. *)
Definition spaces (l : list byte) : Prop :=
  exists cs, Forall (fun c => In c spaceSeqs) cs /\ l = concat cs.

(** [t] is [s] without its leading and trailing white space. *)
Definition trimmed (s t : list byte) : Prop :=
  exists l r, s = l ++ t ++ r
              /\ spaces l
              /\ spaces r
              /\ (forall c rest, In c spaceSeqs -> t <> c ++ rest)
              /\ (forall c pre, In c spaceSeqs -> t <> pre ++ c).

(** [t] is [s] without its trailing white space. *)
Definition right_trimmed (s t : list byte) : Prop :=
  exists r, s = t ++ r
            /\ spaces r
            /\ (forall c pre, In c spaceSeqs -> t <> pre ++ c).

(** The bytes [utf8.EncodeRune] writes for a rune below U+10000 that is no
    surrogate. *)
Definition EncodeRune (r : Z) : list byte :=
  if r <? 128 then [byte_of_Z r]
  else if r <? 2048 then [byte_of_Z (192 + r / 64); byte_of_Z (128 + r mod 64)]
  else [byte_of_Z (224 + r / 4096); byte_of_Z (128 + (r / 64) mod 64);
        byte_of_Z (128 + r mod 64)].

(** The leading bytes of the encodings of two, three and four bytes, with
    the size and the bounds of the second byte. *)
Inductive lead_class (s0 : Z) : Z -> Z -> Z -> Prop :=
| lead_2 : 194 <= s0 <= 223 -> lead_class s0 2 128 191
| lead_3 : 224 <= s0 <= 239 ->
           lead_class s0 3 (if s0 =? 224 then 160 else 128)
                           (if s0 =? 237 then 159 else 191)
| lead_4 : 240 <= s0 <= 244 ->
           lead_class s0 4 (if s0 =? 240 then 144 else 128)
                           (if s0 =? 244 then 143 else 191).

(** What the proofs use of each sequence of the list: its first byte
    starts a rune and continues none, the one or two bytes after it
    continue one, and it decodes to a white-space rune of its length. *)
Definition seq_ok (c : list byte) : bool :=
  match c with
  | [] => false
  | h :: conts =>
    ((byte_Z h <? 128) || (191 <? byte_Z h))
    && RuneStart (byte_Z h)
    && forallb (fun b => (128 <=? byte_Z b) && negb (RuneStart (byte_Z b))) conts
    && (Z.of_nat (length conts) <=? 2)
    && (match conts with [] => byte_Z h <? 128 | _ => true end)
    && (let '(r, n) := DecodeRuneInString c in
        IsSpace r && (n =? Z.of_nat (length c)))
  end.

(** The event types the [switch] of [DecodeEvent] gives a body. *)
Definition handledEvent (t : Z) : bool :=
  (t =? FormatDescriptionEvent) || (t =? QueryEvent) || (t =? XIDEvent)
  || (t =? IntvarEvent) || (t =? RotateEvent) || (t =? TableMapEvent)
  || isRowsEvent t || (t =? PreviousGTIDEvent) || (t =? AnonymousGTIDEvent).

(** The event types whose case reads [decoder.description]. *)
Definition readsDescription (t : Z) : bool :=
  (t =? QueryEvent) || (t =? RotateEvent) || (t =? TableMapEvent) || isRowsEvent t.

(** The column types [decodeMeta] has a case for. *)
Definition metaKnown (t : Z) : bool :=
  (t =? MySQLTypeString)
  || (t =? MySQLTypeVarString) || (t =? MySQLTypeVarchar) || (t =? MySQLTypeDecimal)
  || (t =? MySQLTypeBit)
  || (t =? MySQLTypeBlob) || (t =? MySQLTypeGeometry) || (t =? MySQLTypeDouble)
  || (t =? MySQLTypeFloat) || (t =? MySQLTypeMediumBlob) || (t =? MySQLTypeTinyBlob)
  || (t =? MySQLTypeLongBlob) || (t =? MySQLTypeJSON)
  || (t =? MySQLTypeNewDecimal)
  || (t =? MySQLTypeTime2) || (t =? MySQLTypeDatetime2) || (t =? MySQLTypeTimestamp2)
  || (t =? MySQLTypeDate) || (t =? MySQLTypeDatetime) || (t =? MySQLTypeTimestamp)
  || (t =? MySQLTypeTime) || (t =? MySQLTypeTiny) || (t =? MySQLTypeShort)
  || (t =? MySQLTypeInt24) || (t =? MySQLTypeLong) || (t =? MySQLTypeLonglong)
  || (t =? MySQLTypeNull) || (t =? MySQLTypeYear) || (t =? MySQLTypeNewDate).

(** What a table-map event that decoded without error satisfies. *)
Definition tableMap_ok (t : BinTableMapEvent) : Prop :=
  (tm_tableIDLen t = 4 \/ tm_tableIDLen t = 6)
  /\ 0 <= tm_TableID t < 256 ^ tm_tableIDLen t
  /\ 0 <= tm_ColumnCount t < 2 ^ 63
  /\ Z.of_nat (length (ColumnTypeDef t)) = tm_ColumnCount t
  /\ length (ColumnMetaDef t) = length (ColumnTypeDef t)
  /\ Forall (fun c => metaKnown c = true) (ColumnTypeDef t)
  /\ exists bitmap,
       NullBitmap t = Some bitmap
       /\ tm_ColumnCount t <= 8 * len bitmap < tm_ColumnCount t + 8.

(** What the decode context of a walk satisfies: the header length of the
    format description is a byte, and every table of the registry is a
    table-map event that decoded, under its own id. *)
Definition context_ok (b : BinaryLogInfo) : Prop :=
  (forall d, description b = Some d -> 0 <= EventHeaderLength d <= 255)
  /\ (forall id t, tableInfo b !! id = Some t -> tm_TableID t = id /\ tableMap_ok t).

(** The window of the options, read on a header: the event is not past the
    end position and is before the end time, where set. *)
Definition before_stop (o : BinReaderOption) (header : BinEventHeader) : Prop :=
  (EndPos o = 0 \/ LogPos header <= EndPos o)
  /\ (Time_IsZero (EndTime o) = true \/ Timestamp header < Time_Unix (EndTime o)).

(** The body [DecodeEvent] builds for an event type: which struct it is. *)
Definition body_of_type (t : Z) (body : BinEventBody) : Prop :=
  match body with
  | BodyFmtDesc _ => t = FormatDescriptionEvent
  | BodyQuery _ => t = QueryEvent
  | BodyXID _ => t = XIDEvent
  | BodyIntvar _ => t = IntvarEvent
  | BodyRotate _ => t = RotateEvent
  | BodyTableMap _ => t = TableMapEvent
  | BodyRows r => isRowsEvent t = true /\ Version r = rowsVersion t
  | BodyUnParsed _ => t = PreviousGTIDEvent \/ t = AnonymousGTIDEvent
  end.

(** What holds of an event the consumer is called with, under the options
    [opt] of the walk. *)
Definition delivered (X : Extern) (opt : option BinReaderOption) (ev : BinEvent)
  : Prop :=
  EventType2Str_has X (EventType (Header ev)) = true
  /\ (exists body, Body ev = Some body /\ body_of_type (EventType (Header ev)) body)
  /\ (EventType (Header ev) = FormatDescriptionEvent
      \/ Start opt (Header ev) = true)
  /\ Stop opt (Header ev) = false
  /\ (forall o, opt = Some o -> before_stop o (Header ev)).

(** A stop event (type 3, no body) at offset 115. *)
Definition sample_stop : list byte :=
  [x64;x00;x00;x00; x03; x01;x00;x00;x00; x13;x00;x00;x00; x86;x00;x00;x00; x00;x00].

(** A query event at offset 115: thread 5, execution time 0, schema "db",
    error code 0, no status variables, text "BEGIN". *)
Definition sample_query : list byte :=
  [x64;x00;x00;x00; x02; x01;x00;x00;x00; x28;x00;x00;x00; x9b;x00;x00;x00; x00;x00]
  ++ [x05;x00;x00;x00] ++ [x00;x00;x00;x00] ++ [x02] ++ [x00;x00] ++ [x00;x00]
  ++ [x64;x62] ++ [x00] ++ [x42;x45;x47;x49;x4e].

(* ================================================================= *)
(** * Properties *)

(** ** Integers, panics and slices *)

Lemma byte_Z_range (b : byte) : 0 <= byte_Z b < 256.
Proof.
  unfold byte_Z. pose proof (Byte.to_N_bounded b) as H. lia.
Qed.

Lemma le_value_nonneg (bs : list byte) : 0 <= le_value bs.
Proof.
  induction bs as [|b r IH]; simpl; [lia|].
  pose proof (byte_Z_range b). lia.
Qed.

Lemma le_value_bound (bs : list byte) : le_value bs < 256 ^ Z.of_nat (length bs).
Proof.
  induction bs as [|b r IH]; [simpl; lia|].
  cbn [le_value length]. rewrite Nat2Z.inj_succ, Z.pow_succ_r by lia.
  pose proof (byte_Z_range b). lia.
Qed.

Lemma wrap64_small (x : Z) : - 2 ^ 63 <= x < 2 ^ 63 -> wrap64 x = x.
Proof. intros H. unfold wrap64. rewrite Z.mod_small; lia. Qed.

(** [time.Unix(sec, 0).Unix()] gives [sec] back. *)
Lemma Time_Unix_time_Unix (sec : Z) :
  - 2 ^ 63 <= sec < 2 ^ 63 -> Time_Unix (time_Unix sec) = sec.
Proof.
  intros H. unfold Time_Unix, time_Unix, wrap64, unixToInternal. cbn [t_sec].
  replace ((sec + 62135596800 + 2 ^ 63) mod 2 ^ 64 - 2 ^ 63 - 62135596800 + 2 ^ 63)
    with ((sec + 62135596800 + 2 ^ 63) mod 2 ^ 64 - 62135596800) by lia.
  rewrite Zminus_mod_idemp_l.
  replace (sec + 62135596800 + 2 ^ 63 - 62135596800) with (sec + 2 ^ 63) by lia.
  rewrite Z.mod_small; lia.
Qed.

Lemma go_bind_Ret_inv {A B : Type} (m : go A) (k : A -> go B) (b : B) :
  go_bind m k = Ret b -> exists a, m = Ret a /\ k a = Ret b.
Proof. destruct m as [a|]; simpl; [eauto | discriminate]. Qed.

(** Splits a hypothesis [let* x := m in k = Ret b] into [m = Ret x] and
    [k x = Ret b]. *)
Ltac go_inv H :=
  let a := fresh "a" in
  let Ha := fresh "Hm" in
  apply go_bind_Ret_inv in H; destruct H as (a & Ha & H).

(** The same, with the tuple bound split into its components. *)
Ltac go_step H :=
  go_inv H;
  repeat match goal with
         | x : (_ * _)%type |- _ => destruct x
         end.

Lemma len_mkSlice (d sp : list byte) : len (mkSlice d sp) = Z.of_nat (length d).
Proof. reflexivity. Qed.

Lemma index_ok (d sp : list byte) (i : Z) (b : byte) :
  0 <= i -> d !! Z.to_nat i = Some b -> index (mkSlice d sp) i = Ret b.
Proof.
  intros Hi Hb. unfold index, len. cbn [elems]. rewrite Hb.
  apply lookup_lt_Some in Hb.
  destruct (Z.leb_spec 0 i); [|lia].
  destruct (Z.ltb_spec i (Z.of_nat (length d))); [reflexivity | lia].
Qed.

Lemma index_Ret_inv (s : slice) (i : Z) (b : byte) :
  index s i = Ret b -> 0 <= i < len s /\ elems s !! Z.to_nat i = Some b.
Proof.
  unfold index. intros H.
  destruct (Z.leb_spec 0 i); [|discriminate].
  destruct (Z.ltb_spec i (len s)); [|discriminate].
  cbn in H. destruct (elems s !! Z.to_nat i); [|discriminate].
  inversion H; subst. auto.
Qed.

Lemma slice_from_ok (d sp : list byte) (lo : Z) :
  0 <= lo <= Z.of_nat (length d) ->
  slice_from (mkSlice d sp) lo = Ret (mkSlice (drop (Z.to_nat lo) d) sp).
Proof.
  intros H. unfold slice_from, len. cbn [elems spare].
  destruct (Z.leb_spec 0 lo); [|lia].
  destruct (Z.leb_spec lo (Z.of_nat (length d))); [reflexivity | lia].
Qed.

Lemma slice_from_Ret_inv (s t : slice) (lo : Z) :
  slice_from s lo = Ret t ->
  0 <= lo <= len s /\ t = mkSlice (drop (Z.to_nat lo) (elems s)) (spare s).
Proof.
  unfold slice_from. intros H.
  destruct (Z.leb_spec 0 lo); [|discriminate].
  destruct (Z.leb_spec lo (len s)); [|discriminate].
  cbn in H. inversion H; subst. auto.
Qed.

Lemma slice_range_Ret_inv (s t : slice) (lo hi : Z) :
  slice_range s lo hi = Ret t ->
  0 <= lo <= hi /\ hi <= cap s
  /\ t = mkSlice (take (Z.to_nat (hi - lo)) (drop (Z.to_nat lo) (backing s)))
                 (drop (Z.to_nat hi) (backing s)).
Proof.
  unfold slice_range. intros H.
  destruct (Z.leb_spec 0 lo); [|discriminate].
  destruct (Z.leb_spec lo hi); [|discriminate].
  destruct (Z.leb_spec hi (cap s)); [|discriminate].
  cbn in H. inversion H; subst. auto.
Qed.

Lemma Uint16_ok (d sp : list byte) :
  2 <= Z.of_nat (length d) -> Uint16 (mkSlice d sp) = Ret (le_value (take 2 d)).
Proof.
  intros H. unfold Uint16, len. cbn [elems].
  destruct (Z.leb_spec 2 (Z.of_nat (length d))); [reflexivity | lia].
Qed.

Lemma Uint32_ok (d sp : list byte) :
  4 <= Z.of_nat (length d) -> Uint32 (mkSlice d sp) = Ret (le_value (take 4 d)).
Proof.
  intros H. unfold Uint32, len. cbn [elems].
  destruct (Z.leb_spec 4 (Z.of_nat (length d))); [reflexivity | lia].
Qed.

Lemma Uint64_ok (d sp : list byte) :
  8 <= Z.of_nat (length d) -> Uint64 (mkSlice d sp) = Ret (le_value (take 8 d)).
Proof.
  intros H. unfold Uint64, len. cbn [elems].
  destruct (Z.leb_spec 8 (Z.of_nat (length d))); [reflexivity | lia].
Qed.

Lemma Uint16_at_ok (d sp : list byte) (pos : Z) :
  0 <= pos -> pos + 2 <= Z.of_nat (length d) ->
  Uint16_at (mkSlice d sp) pos = Ret (le_value (take 2 (drop (Z.to_nat pos) d))).
Proof.
  intros H0 H. unfold Uint16_at. rewrite slice_from_ok by lia. cbn [go_bind].
  apply Uint16_ok. rewrite length_drop. lia.
Qed.

Lemma Uint32_at_ok (d sp : list byte) (pos : Z) :
  0 <= pos -> pos + 4 <= Z.of_nat (length d) ->
  Uint32_at (mkSlice d sp) pos = Ret (le_value (take 4 (drop (Z.to_nat pos) d))).
Proof.
  intros H0 H. unfold Uint32_at. rewrite slice_from_ok by lia. cbn [go_bind].
  apply Uint32_ok. rewrite length_drop. lia.
Qed.

(** ** The event header codec *)

(** A header the codec returns was cut from at least five bytes. *)
Lemma decodeEventHeader_Ok_len (data : slice) (size : Z) (h : BinEventHeader) :
  decodeEventHeader data size = Ret (Ok h) -> 4 < len data /\ size <= len data.
Proof.
  unfold decodeEventHeader. intros H.
  destruct (Z.ltb_spec (len data) size) as [|Hsz]; [discriminate|].
  go_inv H. go_inv H. apply index_Ret_inv in Hm0. lia.
Qed.

(** The fields of a decoded header are 32-bit, 8-bit and 16-bit values. *)
Lemma decodeEventHeader_Ok_range (data : slice) (size : Z) (h : BinEventHeader) :
  decodeEventHeader data size = Ret (Ok h) ->
  0 <= Timestamp h < 2 ^ 32 /\ 0 <= EventType h < 256
  /\ 0 <= EventSize h < 2 ^ 32 /\ 0 <= LogPos h < 2 ^ 32.
Proof.
  assert (U32 : forall s p v, Uint32_at s p = Ret v -> 0 <= v < 2 ^ 32).
  { intros s p v H. unfold Uint32_at in H. go_inv H. unfold Uint32 in H.
    destruct (4 <=? len a); [|discriminate]. inversion H; subst.
    pose proof (le_value_nonneg (take 4 (elems a))).
    pose proof (le_value_bound (take 4 (elems a))) as Hb.
    assert (length (take 4 (elems a)) <= 4)%nat by (rewrite length_take; lia).
    assert (256 ^ Z.of_nat (length (take 4 (elems a))) <= 256 ^ 4)
      by (apply Z.pow_le_mono_r; lia).
    lia. }
  unfold decodeEventHeader. intros H.
  destruct (len data <? size); [discriminate|].
  go_inv H. go_inv H. go_inv H. go_inv H.
  apply U32 in Hm, Hm1, Hm2. pose proof (byte_Z_range a0).
  destruct (13 <? size).
  - go_inv H. go_inv H. apply U32 in Hm3. inversion H; subst; cbn. lia.
  - inversion H; subst; cbn. lia.
Qed.

(** C6.  The event-header codec fails on fewer than [size] bytes; on at
    least [size] bytes, 19 of them and a width above 13 it reads, in order
    and little-endian, the 4-byte timestamp, the 1-byte type, the 4-byte
    server id, the 4-byte event size, the 4-byte log position and the
    2-byte flags; on 13 bytes and a width of at most 13 it reads the first
    four fields and leaves log position and flags zero; the 19 bytes of
    scenario A decode to timestamp 100, type 2, server 1, size 19, log
    position 19, flags 0. *)
Theorem decodeEventHeader_layout :
  (forall (data : slice) (size : Z),
      len data < size -> decodeEventHeader data size = Ret (Err ErrInvalidHeaderSize))
  /\ (forall t0 t1 t2 t3 ty s0 s1 s2 s3 z0 z1 z2 z3 p0 p1 p2 p3 f0 f1
             (rest sp : list byte) (size : Z),
         13 < size <= 19 + Z.of_nat (length rest) ->
         decodeEventHeader
           (mkSlice ([t0;t1;t2;t3; ty; s0;s1;s2;s3; z0;z1;z2;z3; p0;p1;p2;p3; f0;f1]
                     ++ rest) sp) size
         = Ret (Ok (mkHeader (le_value [t0;t1;t2;t3]) (byte_Z ty)
                      (le_value [s0;s1;s2;s3]) (le_value [z0;z1;z2;z3])
                      (le_value [p0;p1;p2;p3]) (le_value [f0;f1]))))
  /\ (forall t0 t1 t2 t3 ty s0 s1 s2 s3 z0 z1 z2 z3 (rest sp : list byte) (size : Z),
         size <= 13 ->
         decodeEventHeader
           (mkSlice ([t0;t1;t2;t3; ty; s0;s1;s2;s3; z0;z1;z2;z3] ++ rest) sp) size
         = Ret (Ok (mkHeader (le_value [t0;t1;t2;t3]) (byte_Z ty)
                      (le_value [s0;s1;s2;s3]) (le_value [z0;z1;z2;z3]) 0 0)))
  /\ decodeEventHeader
       (fresh [x64;x00;x00;x00; x02; x01;x00;x00;x00; x13;x00;x00;x00;
               x13;x00;x00;x00; x00;x00]) 19
     = Ret (Ok (mkHeader 100 2 1 19 19 0)).
Proof.
  split; [|split; [|split]].
  - intros data size H. unfold decodeEventHeader.
    destruct (Z.ltb_spec (len data) size); [reflexivity | lia].
  - intros. unfold decodeEventHeader.
    rewrite (proj2 (Z.ltb_ge _ _)) by (rewrite len_mkSlice; cbn [length app]; lia).
    cbv zeta.
    rewrite !Uint32_at_ok, Uint16_at_ok by (cbn [length app]; lia).
    erewrite index_ok; [|lia|reflexivity].
    cbn [go_bind].
    destruct (Z.ltb_spec 13 size); [reflexivity | lia].
  - intros. unfold decodeEventHeader.
    rewrite (proj2 (Z.ltb_ge _ _)) by (rewrite len_mkSlice; cbn [length app]; lia).
    cbv zeta.
    rewrite !Uint32_at_ok by (cbn [length app]; lia).
    erewrite index_ok; [|lia|reflexivity].
    cbn [go_bind].
    destruct (Z.ltb_spec 13 size); [lia | reflexivity].
  - reflexivity.
Qed.

(** ** Reading and the walk *)

Lemma ReadNBytes_Ok (rd rd' : list byte) (n : Z) (s : slice) :
  ReadNBytes rd n = (Ok s, rd') ->
  0 <= n <= Z.of_nat (length rd)
  /\ s = fresh (take (Z.to_nat n) rd) /\ rd' = drop (Z.to_nat n) rd.
Proof.
  unfold ReadNBytes. intros H.
  destruct (Z.ltb_spec n 0); [discriminate|].
  destruct (Z.leb_spec n (Z.of_nat (length rd))).
  - inversion H; subst. auto.
  - destruct rd; discriminate.
Qed.

Lemma ReadNBytes_len (rd rd' : list byte) (n : Z) (s : slice) :
  ReadNBytes rd n = (Ok s, rd') ->
  len s = n /\ spare s = [] /\ Z.of_nat (length rd') = Z.of_nat (length rd) - n.
Proof.
  intros H. apply ReadNBytes_Ok in H as (Hn & -> & ->).
  unfold len, fresh. cbn [elems spare]. rewrite length_take, length_drop.
  repeat split; lia.
Qed.

(** What [readEvent] has done when it returns a frame. *)
Lemma readEvent_Ok (X : Extern) (decoder : BinFileDecoder)
    (headerData data : slice) (header : BinEventHeader) (rd : list byte) :
  readEvent X decoder = Ret (Ok (headerData, header, data), rd) ->
  exists rd0,
    ReadNBytes (buf decoder) (eventHeaderLength decoder) = (Ok headerData, rd0)
    /\ decodeEventHeader headerData (eventHeaderLength decoder) = Ret (Ok header)
    /\ EventType2Str_has X (EventType header) = true
    /\ ReadNBytes rd0 (wrap64 (EventSize header - eventHeaderLength decoder))
       = (Ok data, rd).
Proof.
  unfold readEvent. intros H.
  destruct (ReadNBytes (buf decoder) (eventHeaderLength decoder)) as [[hd|e] rd0] eqn:E1;
    [|discriminate].
  go_inv H. destruct a as [h|e]; [|discriminate].
  destruct (EventType2Str_has X (EventType h)) eqn:E2; [|discriminate].
  cbn [negb] in H.
  destruct (ReadNBytes rd0 _) as [[dt|e] rd1] eqn:E3; [|discriminate].
  inversion H; subst. eauto.
Qed.

Lemma readEvent_shrinks (X : Extern) (decoder : BinFileDecoder)
    (frame : slice * BinEventHeader * slice) (rd : list byte) :
  readEvent X decoder = Ret (Ok frame, rd) ->
  (length rd < length (buf decoder))%nat.
Proof.
  destruct frame as [[hd h] dt]. intros H.
  apply readEvent_Ok in H as (rd0 & H1 & H2 & _ & H3).
  apply ReadNBytes_len in H1 as (L1 & _ & L2).
  apply ReadNBytes_Ok in H3 as (L3 & _ & ->).
  apply decodeEventHeader_Ok_len in H2. rewrite length_drop. lia.
Qed.

(** A call of [DecodeEvent] that returns no error has read a frame. *)
Lemma DecodeEvent_shrinks (X : Extern) (decoder decoder' : BinFileDecoder)
    (event : option BinEvent) :
  DecodeEvent X decoder = Ret (decoder', (event, None)) ->
  (length (buf decoder') < length (buf decoder))%nat.
Proof.
  unfold DecodeEvent. intros H. go_inv H. destruct a as [[frame|e] rd].
  - apply readEvent_shrinks in Hm. destruct frame as [[hd h] dt].
    destruct (_ && _).
    + inversion H; subst. exact Hm.
    + go_inv H. destruct a as [[[ct cv] dt'] [e|]]; [discriminate|].
      go_inv H. destruct a as [b [body|e]]; [|discriminate].
      inversion H; subst. exact Hm.
  - discriminate.
Qed.

Section WalkFacts.
Context (X : Extern) {C : Type} (f : C -> BinEvent -> C * (bool * option error)).

Lemma WalkEvent_loop_mono (n : nat) :
  forall (decoder : BinFileDecoder) (c : C) (r : go (Walked C)),
    WalkEvent_loop X f n decoder c = Some r ->
    forall m, (n <= m)%nat -> WalkEvent_loop X f m decoder c = Some r.
Proof.
  induction n as [|n IH]; intros decoder c r H m Hm; [discriminate|].
  destruct m as [|m]; [lia|]. cbn [WalkEvent_loop] in *.
  destruct (DecodeEvent X decoder) as [[d' [event [e|]]]|]; try exact H.
  destruct event as [event|]; [|apply IH; [exact H | lia]].
  destruct (Stop (Option d') (Header event)); [exact H|].
  destruct (f c event) as [c' [isContinue err]].
  destruct (negb isContinue || bool_decide (err <> None)); [exact H|].
  destruct (WalkEvent_loop X f n d' c') as [r'|] eqn:E.
  - rewrite (IH _ _ _ E m) by lia. exact H.
  - discriminate.
Qed.

(** The walk ends: with more turns than bytes left, the loop returns. *)
Lemma WalkEvent_loop_total (n : nat) :
  forall (decoder : BinFileDecoder) (c : C),
    (length (buf decoder) < n)%nat ->
    exists r, WalkEvent_loop X f n decoder c = Some r.
Proof.
  induction n as [|n IH]; intros decoder c Hn; [lia|].
  cbn [WalkEvent_loop].
  destruct (DecodeEvent X decoder) as [[d' [event [e|]]]|] eqn:E; eauto.
  - destruct (bool_decide (e = io_EOF)); eauto.
  - apply DecodeEvent_shrinks in E.
    destruct event as [event|]; [|apply IH; lia].
    destruct (Stop (Option d') (Header event)); eauto.
    destruct (f c event) as [c' [isContinue err]].
    destruct (negb isContinue || bool_decide (err <> None)); eauto.
    destruct (IH d' c') as [r Hr]; [lia|]. rewrite Hr.
    destruct r; eauto.
Qed.

Lemma WalkEvent_loop_enough (n : nat) (decoder : BinFileDecoder) (c : C) :
  (length (buf decoder) < n)%nat ->
  WalkEvent_loop X f n decoder c = Some (WalkEvent X f decoder c).
Proof.
  intros Hn. unfold WalkEvent.
  destruct (WalkEvent_loop_total (S (length (buf decoder))) decoder c) as [r Hr];
    [lia|].
  rewrite Hr. apply (WalkEvent_loop_mono _ _ _ _ Hr). lia.
Qed.

(** One turn of the loop of [WalkEvent]. *)
Lemma WalkEvent_unfold (decoder : BinFileDecoder) (c : C) :
  WalkEvent X f decoder c =
  match DecodeEvent X decoder with
  | Panic => Panic
  | Ret (decoder', (event, err)) =>
    match err, event with
    | Some e, _ =>
      if bool_decide (e = io_EOF) then Ret (mkWalked None decoder' c [])
      else Ret (mkWalked (Some e) decoder' c [])
    | None, None => WalkEvent X f decoder' c
    | None, Some event =>
      if Stop (Option decoder') (Header event) then
        Ret (mkWalked None decoder' c [])
      else
        let '(c', (isContinue, err)) := f c event in
        if negb isContinue || bool_decide (err <> None) then
          Ret (mkWalked err decoder' c' [event])
        else
          match WalkEvent X f decoder' c' with
          | Ret w => Ret (called event w)
          | Panic => Panic
          end
    end
  end.
Proof.
  unfold WalkEvent at 1. cbn [WalkEvent_loop].
  destruct (DecodeEvent X decoder) as [[d' [event [e|]]]|] eqn:E; try reflexivity.
  - destruct (bool_decide (e = io_EOF)); reflexivity.
  - apply DecodeEvent_shrinks in E.
    destruct event as [event|].
    + destruct (Stop (Option d') (Header event)); [reflexivity|].
      destruct (f c event) as [c' [isContinue err]].
      destruct (negb isContinue || bool_decide (err <> None)); [reflexivity|].
      rewrite WalkEvent_loop_enough by lia.
      destruct (WalkEvent X f d' c'); reflexivity.
    + rewrite WalkEvent_loop_enough by lia. reflexivity.
Qed.
End WalkFacts.

Lemma NewBinFileDecoder_opened (options : option BinReaderOption) (events : list byte) :
  NewBinFileDecoder (binFileHeader ++ events) options = Ok (opened options events).
Proof. reflexivity. Qed.

Lemma DecodeEvent_Option (X : Extern) (decoder decoder' : BinFileDecoder)
    (r : option BinEvent * option error) :
  DecodeEvent X decoder = Ret (decoder', r) -> Option decoder' = Option decoder.
Proof.
  unfold DecodeEvent. intros H. go_inv H. destruct a as [[[[hd h] dt]|e] rd].
  - destruct (_ && _); [inversion H; reflexivity|].
    go_inv H. destruct a as [[[ct cv] dt'] [e|]]; [inversion H; reflexivity|].
    go_inv H. destruct a as [b [body|e]]; inversion H; reflexivity.
  - inversion H; reflexivity.
Qed.

(** What [DecodeEvent] has done when it returns an event and no error. *)
Lemma DecodeEvent_event_inv (X : Extern) (decoder decoder' : BinFileDecoder)
    (event : BinEvent) :
  DecodeEvent X decoder = Ret (decoder', (Some event, None)) ->
  exists headerData data rd data' body,
    readEvent X decoder = Ret (Ok (headerData, Header event, data), rd)
    /\ negb (EventType (Header event) =? FormatDescriptionEvent)
       && negb (Start (Option decoder) (Header event)) = false
    /\ Validation X (Some (Header event)) (Some (bin decoder)) headerData data
       = Ret (ChecksumType event, ChecksumVal event, data', None)
    /\ decodeBody X (bin decoder) (EventType (Header event)) data'
       = Ret (bin decoder', Ok body)
    /\ Body event = Some body
    /\ decoder' = mkDecoder (Option decoder) rd (bin decoder').
Proof.
  unfold DecodeEvent. intros H. go_inv H.
  destruct a as [[[[hd h] dt]|e] rd]; [|discriminate].
  cbn [with_buf Option bin] in H.
  destruct (_ && _) eqn:Esk; [discriminate|].
  go_inv H. destruct a as [[[ct cv] dt'] [e|]]; [discriminate|].
  go_inv H. destruct a as [b [body|e]]; [|discriminate].
  inversion H; subst. cbn.
  exists hd, dt, rd, dt', body. auto 10.
Qed.

Lemma decodeBody_FormatDescription (X : Extern) (b b' : BinaryLogInfo)
    (data : slice) (body : BinEventBody) :
  decodeBody X b FormatDescriptionEvent data = Ret (b', Ok body) ->
  exists d, decodeFmtDescEvent X data = Ret d
            /\ body = BodyFmtDesc d /\ b' = mkInfo (Some d) (tableInfo b).
Proof.
  unfold decodeBody. cbn. intros H. go_inv H. inversion H; subst. eauto.
Qed.

Lemma decodeBody_TableMap (X : Extern) (b b' : BinaryLogInfo)
    (data : slice) (body : BinEventBody) :
  decodeBody X b TableMapEvent data = Ret (b', Ok body) ->
  exists t, decodeTableMapEvent data (description b) = Ret (Some t, None)
            /\ body = BodyTableMap t
            /\ b' = mkInfo (description b) (<[tm_TableID t := t]> (tableInfo b)).
Proof.
  unfold decodeBody. cbn. intros H. go_inv H.
  destruct a as [[t|] [e|]]; try discriminate.
  inversion H; subst. eauto.
Qed.

(** ** The window filter *)

(** C9.  When the frame read is not a format description event and the
    start condition does not hold for its header, [DecodeEvent] returns no
    event and no error, whatever the checksum functions are (nothing is
    validated), and the decode context is the one before the call: format
    description and table registry are unchanged, so a skipped table-map
    event registers nothing; the walk goes on to the next frame. *)
Theorem DecodeEvent_skips_before_start :
  forall (X : Extern) (decoder : BinFileDecoder) (headerData data : slice)
         (header : BinEventHeader) (rd : list byte),
    readEvent X decoder = Ret (Ok (headerData, header, data), rd) ->
    EventType header <> FormatDescriptionEvent ->
    Start (Option decoder) header = false ->
    (forall hc cv,
        DecodeEvent (mkExtern (EventType2Str_has X) hc cv) decoder
        = Ret (with_buf decoder rd, (None, None)))
    /\ DecodeEvent X decoder = Ret (with_buf decoder rd, (None, None))
    /\ description (bin (with_buf decoder rd)) = description (bin decoder)
    /\ tableInfo (bin (with_buf decoder rd)) = tableInfo (bin decoder)
    /\ (forall (C : Type) (f : C -> BinEvent -> C * (bool * option error)) (c : C),
           WalkEvent X f decoder c = WalkEvent X f (with_buf decoder rd) c).
Proof.
  intros X decoder hd dt h rd Hread Hty Hstart.
  assert (Hskip : forall X', readEvent X' decoder = readEvent X decoder ->
                             DecodeEvent X' decoder = Ret (with_buf decoder rd, (None, None))).
  { intros X' HX. unfold DecodeEvent. rewrite HX, Hread. cbn [go_bind].
    cbn [with_buf Option]. rewrite Hstart.
    destruct (Z.eqb_spec (EventType h) FormatDescriptionEvent); [contradiction|].
    reflexivity. }
  split; [|split; [|split; [|split]]].
  - intros hc cv. apply Hskip. reflexivity.
  - apply Hskip. reflexivity.
  - reflexivity.
  - reflexivity.
  - intros C f c. rewrite WalkEvent_unfold. rewrite (Hskip X eq_refl). reflexivity.
Qed.

Lemma DecodeEvent_skips_before_start_witness :
  let decoder :=
    mkDecoder (Some (mkOption 0 0 (time_Unix 2000000000) zeroTime))
      (sample_table_map ++ sample_xid)
      (mkInfo (Some sample_description) ∅) in
  DecodeEvent sample_extern decoder
  = Ret (with_buf decoder sample_xid, (None, None))
  /\ tableInfo (bin (with_buf decoder sample_xid)) = ∅.
Proof.
  intros decoder.
  assert (Hread : readEvent sample_extern decoder
                  = Ret (Ok (fresh (take 19 sample_table_map),
                             mkHeader 100 19 1 38 153 0,
                             fresh (drop 19 sample_table_map)), sample_xid))
    by (vm_compute; reflexivity).
  assert (Hty : EventType (mkHeader 100 19 1 38 153 0) <> FormatDescriptionEvent)
    by (vm_compute; discriminate).
  assert (Hstart : Start (Option decoder) (mkHeader 100 19 1 38 153 0) = false)
    by (vm_compute; reflexivity).
  destruct (DecodeEvent_skips_before_start sample_extern decoder _ _ _ _
              Hread Hty Hstart) as (_ & Hd & _ & Ht & _).
  split; [exact Hd | exact Ht].
Defined.

(** C10.  When [DecodeEvent] has returned an event and the stop condition
    holds for its header, the walk ends with no error and without calling
    the consumer, and the decoder it leaves is the one after the decode: if
    the event is a format description event, its body is the decoder's
    format description; if it is a table-map event, its body is registered
    under its table id. *)
Theorem stop_follows_context_update :
  forall (X : Extern) (C : Type) (f : C -> BinEvent -> C * (bool * option error))
         (decoder decoder' : BinFileDecoder) (c : C) (event : BinEvent),
    DecodeEvent X decoder = Ret (decoder', (Some event, None)) ->
    Stop (Option decoder) (Header event) = true ->
    WalkEvent X f decoder c = Ret (mkWalked None decoder' c [])
    /\ (EventType (Header event) = FormatDescriptionEvent ->
        exists d, Body event = Some (BodyFmtDesc d)
                  /\ description (bin decoder') = Some d)
    /\ (EventType (Header event) = TableMapEvent ->
        exists t, Body event = Some (BodyTableMap t)
                  /\ tableInfo (bin decoder') !! tm_TableID t = Some t).
Proof.
  intros X C f decoder decoder' c event Hdec Hstop.
  split; [|split].
  - rewrite WalkEvent_unfold, Hdec.
    rewrite (DecodeEvent_Option _ _ _ _ Hdec), Hstop. reflexivity.
  - intros Hty.
    apply DecodeEvent_event_inv in Hdec
      as (hd & dt & rd & dt' & body & _ & _ & _ & Hbody & HB & _).
    rewrite Hty in Hbody.
    apply decodeBody_FormatDescription in Hbody as (d & _ & -> & ->).
    exists d. auto.
  - intros Hty.
    apply DecodeEvent_event_inv in Hdec
      as (hd & dt & rd & dt' & body & _ & _ & _ & Hbody & HB & _).
    rewrite Hty in Hbody.
    apply decodeBody_TableMap in Hbody as (t & _ & -> & ->).
    exists t. split; [exact HB|]. cbn [tableInfo]. apply lookup_insert_eq.
Qed.

Lemma stop_follows_context_update_witness :
  let decoder := opened (Some (mkOption 0 100 zeroTime zeroTime))
                   (sample_fde ++ sample_xid) in
  exists w d,
    WalkEvent sample_extern counting decoder 0 = Ret w
    /\ w_err w = None /\ w_calls w = [] /\ w_consumer w = 0
    /\ buf (w_decoder w) = sample_xid
    /\ description (bin (w_decoder w)) = Some d
    /\ EventHeaderLength d = 19 /\ BinlogVersion d = 4.
Proof.
  intros decoder.
  destruct (DecodeEvent sample_extern decoder)
    as [[decoder' [[event|] [e|]]]|] eqn:Hdec;
    try (exfalso; vm_compute in Hdec; discriminate Hdec).
  assert (Hstop : Stop (Option decoder) (Header event) = true).
  { vm_compute in Hdec. inversion Hdec; subst. reflexivity. }
  assert (Hty : EventType (Header event) = FormatDescriptionEvent).
  { vm_compute in Hdec. inversion Hdec; subst. reflexivity. }
  destruct (stop_follows_context_update sample_extern Z counting decoder decoder'
              0 event Hdec Hstop) as (Hw & Hf & _).
  destruct (Hf Hty) as (d & Hb & Hd).
  exists (mkWalked None decoder' 0 []), d.
  split; [exact Hw|]. cbn [w_err w_calls w_consumer w_decoder].
  vm_compute in Hdec. inversion Hdec; subst. cbn in Hd. inversion Hd; subst.
  repeat split; reflexivity.
Defined.

(** The stop condition, spelled out. *)
Lemma Stop_true_iff (o : BinReaderOption) (header : BinEventHeader) :
  Stop (Some o) header = true <->
  (EndPos o <> 0 /\ EndPos o < LogPos header)
  \/ (Time_IsZero (EndTime o) = false
      /\ Time_Unix (EndTime o) <= Time_Unix (time_Unix (Timestamp header))).
Proof.
  unfold Stop.
  destruct (Z.eqb_spec (EndPos o) 0) as [E0|E0];
    destruct (Z.ltb_spec (EndPos o) (LogPos header)) as [El|El];
    destruct (Time_IsZero (EndTime o));
    destruct (Z.leb_spec (Time_Unix (EndTime o))
                (Time_Unix (time_Unix (Timestamp header)))) as [Et|Et];
    cbn; split; intros H; try reflexivity; try discriminate;
    intuition (try discriminate; try lia).
Qed.

(** The consumer is never called with an event the stop condition holds
    for. *)
Lemma WalkEvent_loop_calls_not_stopped (X : Extern) {C : Type}
    (f : C -> BinEvent -> C * (bool * option error)) (n : nat) :
  forall (decoder : BinFileDecoder) (c : C) (w : Walked C),
    WalkEvent_loop X f n decoder c = Some (Ret w) ->
    Forall (fun e => Stop (Option decoder) (Header e) = false) (w_calls w).
Proof.
  induction n as [|n IH]; intros decoder c w H; [discriminate|].
  cbn [WalkEvent_loop] in H.
  destruct (DecodeEvent X decoder) as [[d' [event [e|]]]|] eqn:E;
    [| |discriminate].
  - destruct (bool_decide (e = io_EOF)); inversion H; constructor.
  - pose proof (DecodeEvent_Option _ _ _ _ E) as Ho. rewrite <- Ho.
    destruct event as [event|]; [|apply (IH _ _ _ H)].
    destruct (Stop (Option d') (Header event)) eqn:Es;
      [inversion H; constructor|].
    destruct (f c event) as [c' [isContinue err]].
    destruct (negb isContinue || bool_decide (err <> None)).
    + inversion H; subst. cbn. repeat constructor. exact Es.
    + destruct (WalkEvent_loop X f n d' c') as [[w'|]|] eqn:Ew; try discriminate.
      inversion H; subst. cbn. constructor; [exact Es|].
      apply (IH _ _ _ Ew).
Qed.

Lemma WalkEvent_calls_not_stopped (X : Extern) {C : Type}
    (f : C -> BinEvent -> C * (bool * option error))
    (decoder : BinFileDecoder) (c : C) (w : Walked C) :
  WalkEvent X f decoder c = Ret w ->
  Forall (fun e => Stop (Option decoder) (Header e) = false) (w_calls w).
Proof.
  intros H. apply (WalkEvent_loop_calls_not_stopped X f (S (length (buf decoder))) _ c).
  rewrite WalkEvent_loop_enough by lia. rewrite H. reflexivity.
Qed.

(** C5, as the code has it.  With a nonzero [EndPos], an event whose log
    position is strictly greater than [EndPos] ends the walk with no error
    and without a call of the consumer; an event whose log position is
    [EndPos] or less is not stopped by the position: when no [EndTime] is
    set the consumer is called with it, and the walk goes on or ends as the
    consumer says. *)
Theorem stop_position_is_strict :
  forall (X : Extern) (C : Type) (f : C -> BinEvent -> C * (bool * option error))
         (decoder decoder' : BinFileDecoder) (c : C) (event : BinEvent)
         (o : BinReaderOption),
    DecodeEvent X decoder = Ret (decoder', (Some event, None)) ->
    Option decoder = Some o ->
    EndPos o <> 0 ->
    (EndPos o < LogPos (Header event) ->
     WalkEvent X f decoder c = Ret (mkWalked None decoder' c []))
    /\ (LogPos (Header event) <= EndPos o ->
        Time_IsZero (EndTime o) = true ->
        Stop (Some o) (Header event) = false
        /\ WalkEvent X f decoder c =
           let '(c', (isContinue, err)) := f c event in
           if negb isContinue || bool_decide (err <> None) then
             Ret (mkWalked err decoder' c' [event])
           else
             match WalkEvent X f decoder' c' with
             | Ret w => Ret (called event w)
             | Panic => Panic
             end).
Proof.
  intros X C f decoder decoder' c event o Hdec Ho Hend.
  pose proof (DecodeEvent_Option _ _ _ _ Hdec) as Hopt. rewrite Ho in Hopt.
  split.
  - intros Hgt. rewrite WalkEvent_unfold, Hdec, Hopt.
    rewrite (proj2 (Stop_true_iff o (Header event))) by (left; auto).
    reflexivity.
  - intros Hle Hzero.
    assert (Hstop : Stop (Some o) (Header event) = false).
    { destruct (Stop (Some o) (Header event)) eqn:E; [|reflexivity].
      apply Stop_true_iff in E as [[_ E]|[E _]]; [lia | congruence]. }
    split; [exact Hstop|].
    rewrite WalkEvent_unfold, Hdec, Hopt, Hstop. reflexivity.
Qed.

Lemma stop_position_is_strict_witness :
  let decoder := opened (Some (mkOption 0 141 zeroTime zeroTime))
                   (sample_fde ++ sample_xid) in
  exists d' w,
    DecodeEvent sample_extern decoder = Ret (d', (w, None))
    /\ buf d' = sample_xid
    /\ WalkEvent sample_extern counting d' 0 = Ret (mkWalked None (with_buf d' []) 0 []).
Proof.
  intros decoder.
  destruct (DecodeEvent sample_extern decoder)
    as [[d' [[fde|] [e|]]]|] eqn:Hfde;
    try (exfalso; vm_compute in Hfde; discriminate Hfde).
  exists d', (Some fde). split; [reflexivity|].
  assert (Hd' : d' = mkDecoder (Option decoder) sample_xid (bin d')).
  { vm_compute in Hfde. inversion Hfde; subst. reflexivity. }
  split; [rewrite Hd'; reflexivity|].
  destruct (DecodeEvent sample_extern d')
    as [[d'' [[xid|] [e|]]]|] eqn:Hxid;
    try (exfalso; vm_compute in Hfde; inversion Hfde; subst;
         vm_compute in Hxid; discriminate Hxid).
  assert (Ho : Option d' = Some (mkOption 0 141 zeroTime zeroTime))
    by (rewrite Hd'; reflexivity).
  assert (Hend : EndPos (mkOption 0 141 zeroTime zeroTime) <> 0)
    by (vm_compute; discriminate).
  destruct (stop_position_is_strict sample_extern Z counting d' d'' 0 xid _
              Hxid Ho Hend) as (Hgt & _).
  rewrite Hgt.
  - vm_compute in Hfde. inversion Hfde; subst.
    vm_compute in Hxid. inversion Hxid; subst. reflexivity.
  - vm_compute in Hfde. inversion Hfde; subst.
    vm_compute in Hxid. inversion Hxid; subst. vm_compute. reflexivity.
Defined.

(** C5, as the claim has it, fails: with [EndPos] 142 the consumer is
    called with the transaction-id event whose log position is 142. *)
Lemma stop_position_counterexample :
  let decoder := opened (Some (mkOption 0 142 zeroTime zeroTime))
                   (sample_fde ++ sample_xid) in
  exists w,
    WalkEvent sample_extern counting decoder 0 = Ret w
    /\ w_err w = None
    /\ w_consumer w = 2
    /\ map (fun e => (EventType (Header e), LogPos (Header e))) (w_calls w)
       = [(15, 115); (16, 142)].
Proof.
  eexists. split; [vm_compute; reflexivity|].
  repeat split; reflexivity.
Qed.

(** With no [StartTime] set, the start condition holds for every header:
    the zero time is before every timestamp a header can carry, and [Start]
    does not test [IsZero] as [Stop] does. *)
Lemma Start_without_StartTime (o : BinReaderOption) (header : BinEventHeader) :
  StartTime o = zeroTime ->
  0 <= Timestamp header < 2 ^ 32 ->
  Start (Some o) header = true.
Proof.
  intros Hz Hts. unfold Start.
  destruct (negb (StartPos o =? 0) && _); [reflexivity|].
  rewrite Hz, Time_Unix_time_Unix by lia.
  change (Time_Unix zeroTime) with (- 62135596800).
  destruct (Z.leb_spec (- 62135596800) (Timestamp header)); [reflexivity | lia].
Qed.

(** So with a [StartPos] and no [StartTime] no frame is skipped. *)
Lemma start_never_skips_without_StartTime (X : Extern) (decoder : BinFileDecoder)
    (o : BinReaderOption) (headerData data : slice) (header : BinEventHeader)
    (rd : list byte) :
  Option decoder = Some o ->
  StartTime o = zeroTime ->
  readEvent X decoder = Ret (Ok (headerData, header, data), rd) ->
  Start (Option decoder) header = true.
Proof.
  intros Ho Hz Hread. rewrite Ho.
  apply readEvent_Ok in Hread as (rd0 & _ & Hh & _).
  apply decodeEventHeader_Ok_range in Hh.
  apply Start_without_StartTime; [exact Hz | tauto].
Qed.

(** C2, on the code.  The file is the magic number, a format description
    event and a transaction-id event that starts at offset 115; the options
    are [StartPos] 120 and no [StartTime].  The start condition holds for
    the header of the event, which starts before [StartPos], and the walk
    calls the consumer with it. *)
Theorem start_position_not_applied :
  let options := Some (mkOption 120 0 zeroTime zeroTime) in
  NewBinFileDecoder (binFileHeader ++ sample_fde ++ sample_xid) options
  = Ok (opened options (sample_fde ++ sample_xid))
  /\ Start options (mkHeader 100 16 1 27 142 0) = true
  /\ exists w,
      WalkEvent sample_extern counting (opened options (sample_fde ++ sample_xid)) 0
      = Ret w
      /\ w_err w = None
      /\ w_consumer w = 2
      /\ map (fun e => (EventType (Header e), LogPos (Header e) - EventSize (Header e)))
           (w_calls w)
         = [(15, 4); (16, 115)].
Proof.
  split; [reflexivity|]. split; [reflexivity|].
  eexists. split; [vm_compute; reflexivity|].
  repeat split; reflexivity.
Qed.

(** A call of [DecodeEvent] that returns [io.EOF] ends the walk as the end
    of the file does, whatever returned it. *)
Lemma WalkEvent_EOF (X : Extern) {C : Type}
    (f : C -> BinEvent -> C * (bool * option error))
    (decoder decoder' : BinFileDecoder) (c : C) (event : option BinEvent) :
  DecodeEvent X decoder = Ret (decoder', (event, Some io_EOF)) ->
  WalkEvent X f decoder c = Ret (mkWalked None decoder' c []).
Proof. intros H. rewrite WalkEvent_unfold, H. reflexivity. Qed.

(** The error of a table-map event whose null bitmap has not the length
    due is [io.EOF]. *)
Lemma decodeTableMapEvent_error (data : slice) (h : option BinFmtDescEvent)
    (t : BinTableMapEvent) (e : error) :
  decodeTableMapEvent data h = Ret (Some t, Some e) ->
  e = io_EOF /\ NullBitmap t = None.
Proof.
  unfold decodeTableMapEvent. intros H.
  do 12 go_step H.
  match type of H with
  | match ?err with _ => _ end = _ => destruct err; [discriminate|]
  end.
  go_step H.
  match type of H with
  | match ?m with _ => _ end = _ => destruct m; [|discriminate]
  end.
  go_step H. destruct (_ =? _); inversion H; subst; auto.
Qed.

(** So a table-map frame whose body decodes with an error ends the walk
    with no error, the consumer not called and the registry as it was. *)
Lemma table_map_error_ends_walk (X : Extern) {C : Type}
    (f : C -> BinEvent -> C * (bool * option error))
    (decoder : BinFileDecoder) (c : C) (headerData data data' cv : slice)
    (header : BinEventHeader) (rd : list byte) (ct : byte)
    (t : BinTableMapEvent) (e : error) :
  readEvent X decoder = Ret (Ok (headerData, header, data), rd) ->
  EventType header = TableMapEvent ->
  Start (Option decoder) header = true ->
  Validation X (Some header) (Some (bin decoder)) headerData data
  = Ret (ct, cv, data', None) ->
  decodeTableMapEvent data' (description (bin decoder)) = Ret (Some t, Some e) ->
  WalkEvent X f decoder c = Ret (mkWalked None (with_buf decoder rd) c []).
Proof.
  intros Hread Hty Hstart Hval Htm.
  destruct (decodeTableMapEvent_error _ _ _ _ Htm) as (-> & _).
  apply (WalkEvent_EOF X f decoder (with_buf decoder rd) c None).
  unfold DecodeEvent. rewrite Hread. cbn [go_bind with_buf Option bin].
  rewrite Hstart, andb_false_r, Hval. cbn [go_bind].
  rewrite Hty. unfold decodeBody. cbn [Z.eqb FormatDescriptionEvent TableMapEvent
    QueryEvent XIDEvent IntvarEvent RotateEvent Pos.eqb].
  rewrite Htm. reflexivity.
Qed.

(** C3, on the code.  The file is the magic number, a format description
    event, a table-map event of one column whose null bitmap has two bytes,
    and a transaction-id event.  Decoding the table-map body is an error,
    [io.EOF]; [DecodeEvent] returns it; the walk returns no error, having
    called the consumer with the first event only and left the third
    unread. *)
Theorem long_null_bitmap_ends_walk :
  let decoder := opened None (sample_fde ++ sample_table_map_long ++ sample_xid) in
  decodeTableMapEvent (fresh (drop 19 sample_table_map_long)) (Some sample_description)
  = Ret (Some (mkTableMap 7 6 1 [x64;x62] [x74] 1 [3]
                 [mkColumnType 0 [] false 0 0 0 0 0 0 0 0] None),
         Some io_EOF)
  /\ DecodeEvent sample_extern
       (mkDecoder None (sample_table_map_long ++ sample_xid)
          (mkInfo (Some sample_description) ∅))
     = Ret (mkDecoder None sample_xid (mkInfo (Some sample_description) ∅),
            (None, Some io_EOF))
  /\ exists w,
      WalkEvent sample_extern counting decoder 0 = Ret w
      /\ w_err w = None
      /\ w_consumer w = 1
      /\ map (fun e => EventType (Header e)) (w_calls w) = [15]
      /\ buf (w_decoder w) = sample_xid
      /\ tableInfo (bin (w_decoder w)) = ∅.
Proof.
  intros decoder. split; [vm_compute; reflexivity|].
  split; [vm_compute; reflexivity|].
  eexists. split; [vm_compute; reflexivity|].
  repeat split; reflexivity.
Qed.

(** ** Rows events and the table registry *)

(** Validation reads the format description of the context only. *)
Lemma Validation_description (X : Extern) (hdr : option BinEventHeader)
    (b b' : BinaryLogInfo) (header body : slice) :
  description b = description b' ->
  Validation X hdr (Some b) header body = Validation X hdr (Some b') header body.
Proof. intros H. unfold Validation. rewrite H. reflexivity. Qed.

(** The case of the rows events in the [switch] of [DecodeEvent]. *)
Lemma decodeBody_rows (X : Extern) (b : BinaryLogInfo) (typ : Z) (data : slice) :
  isRowsEvent typ = true ->
  decodeBody X b typ data
  = (let* r := decodeRowsEvent data (description b) typ in Ret (b, Ok (BodyRows r))).
Proof.
  unfold isRowsEvent. intros H.
  repeat (apply orb_true_iff in H; destruct H as [H|H]);
    apply Z.eqb_eq in H; subst typ; reflexivity.
Qed.

(** C1, as the code has it.  Decoding a row-mutation event does not
    consult the table registry: on a frame of a rows event type,
    [DecodeEvent] under any other registry [ti] returns what it returns
    under the decoder's own, be it an event, an error or a panic, and it
    leaves the registry as it was. *)
Theorem rows_event_ignores_registry :
  forall (X : Extern) (decoder : BinFileDecoder) (ti : gmap Z BinTableMapEvent)
         (headerData data : slice) (header : BinEventHeader) (rd : list byte),
    readEvent X decoder = Ret (Ok (headerData, header, data), rd) ->
    isRowsEvent (EventType header) = true ->
    DecodeEvent X (with_tableInfo decoder ti)
    = (let* '(decoder', r) := DecodeEvent X decoder in
       Ret (with_tableInfo decoder' ti, r))
    /\ (forall decoder' r,
           DecodeEvent X decoder = Ret (decoder', r) ->
           tableInfo (bin decoder') = tableInfo (bin decoder)).
Proof.
  intros X decoder ti hd dt h rd Hread Hrows.
  assert (Hbody : forall b dt',
             decodeBody X b (EventType h) dt'
             = (let* r := decodeRowsEvent dt' (description b) (EventType h) in
                Ret (b, Ok (BodyRows r))))
    by (intros; apply decodeBody_rows; exact Hrows).
  split.
  - unfold DecodeEvent.
    change (readEvent X (with_tableInfo decoder ti)) with (readEvent X decoder).
    rewrite Hread. cbn [go_bind with_buf with_tableInfo with_bin Option bin buf].
    destruct (_ && _); [reflexivity|].
    rewrite (Validation_description X (Some h) _ (bin decoder)) by reflexivity.
    destruct (Validation X (Some h) (Some (bin decoder)) hd dt)
      as [[[[ct cv] dt'] [e|]]|]; cbn [go_bind]; try reflexivity.
    rewrite !Hbody. cbn [description].
    destruct (decodeRowsEvent dt' (description (bin decoder)) (EventType h));
      reflexivity.
  - intros decoder' r. unfold DecodeEvent. rewrite Hread. cbn [go_bind].
    destruct (_ && _); [intros H; inversion H; reflexivity|].
    destruct (Validation X (Some h) _ hd dt)
      as [[[[ct cv] dt'] [e|]]|]; cbn [go_bind];
      try (intros H; inversion H; reflexivity); try discriminate.
    rewrite Hbody.
    destruct (decodeRowsEvent dt' _ (EventType h)); cbn [go_bind];
      [intros H; inversion H; reflexivity | discriminate].
Qed.

Lemma rows_event_ignores_registry_witness :
  let decoder :=
    mkDecoder None sample_write_rows
      (mkInfo (Some sample_description) ∅) in
  let t := mkTableMap 7 6 1 [x64;x62] [x74] 1 [3]
             [mkColumnType 0 [] false 0 0 0 0 0 0 0 0] (Some (fresh [x00])) in
  exists decoder' event,
    DecodeEvent sample_extern decoder = Ret (decoder', (Some event, None))
    /\ DecodeEvent sample_extern (with_tableInfo decoder {[7 := t]})
       = Ret (with_tableInfo decoder' {[7 := t]}, (Some event, None))
    /\ tableInfo (bin decoder') = ∅.
Proof.
  intros decoder t.
  assert (Hread : readEvent sample_extern decoder
                  = Ret (Ok (fresh (take 19 sample_write_rows),
                             mkHeader 100 23 1 32 147 0,
                             fresh (drop 19 sample_write_rows)), []))
    by (vm_compute; reflexivity).
  assert (Hrows : isRowsEvent (EventType (mkHeader 100 23 1 32 147 0)) = true)
    by (vm_compute; reflexivity).
  destruct (rows_event_ignores_registry sample_extern decoder {[7 := t]} _ _ _ _
              Hread Hrows) as (Hsame & Hkeep).
  destruct (DecodeEvent sample_extern decoder)
    as [[decoder' [[event|] [e|]]]|] eqn:Hdec;
    try (exfalso; vm_compute in Hdec; discriminate Hdec).
  exists decoder', event. split; [reflexivity|].
  split; [rewrite Hsame; reflexivity|].
  rewrite (Hkeep _ _ eq_refl). reflexivity.
Defined.

(** C1, as the claim has it, fails: the file has a write-rows event for
    table 7 and no table-map event; the walk returns no error, the consumer
    is called with the rows event, and the registry is empty. *)
Lemma unknown_table_counterexample :
  let decoder := opened None (sample_fde ++ sample_write_rows) in
  exists w,
    WalkEvent sample_extern counting decoder 0 = Ret w
    /\ w_err w = None
    /\ tableInfo (bin (w_decoder w)) !! 7 = None
    /\ map (fun e => match Body e with
                     | Some (BodyRows r) => Some (r_TableID r, r_ColumnCount r)
                     | _ => None
                     end) (w_calls w)
       = [None; Some (7, 2)].
Proof.
  eexists. split; [vm_compute; reflexivity|].
  repeat split; reflexivity.
Qed.

(** ** The checksum suffix *)

(** C4, as the code has it.  When the context has a format description
    with checksums and the sizes agree, [Validation] reads the fifth byte
    from the end of the body as the checksum type and the last four as the
    checksum value; the body it returns for decoding leaves out those four
    bytes only and still ends with the type byte; the checksum is validated
    over the header bytes followed by that body, and validation fails
    exactly when [ChecksumValidate] rejects it. *)
Theorem Validation_checksum_suffix :
  forall (X : Extern) (h : BinEventHeader) (b : BinaryLogInfo) (d : BinFmtDescEvent)
         (header : slice) (pre : list byte) (alg c0 c1 c2 c3 : byte) (sp : list byte),
    description b = Some d ->
    hasCheckSum d = true ->
    wrap64 (len (mkSlice (pre ++ alg :: [c0; c1; c2; c3]) sp) + len header)
    = EventSize h ->
    Validation X (Some h) (Some b) header (mkSlice (pre ++ alg :: [c0; c1; c2; c3]) sp)
    = Ret (alg,
           mkSlice [c0; c1; c2; c3] sp,
           mkSlice (pre ++ [alg]) ([c0; c1; c2; c3] ++ sp),
           if ChecksumValidate X alg [c0; c1; c2; c3] (elems header ++ pre ++ [alg])
           then None else Some ErrChecksum).
Proof.
  intros X h b d header pre alg c0 c1 c2 c3 sp Hd Hcs Hsize.
  unfold Validation. rewrite Hd, Hcs, Hsize, Z.eqb_refl. cbn [negb].
  set (body := mkSlice (pre ++ alg :: [c0; c1; c2; c3]) sp).
  assert (Hlen : len body = Z.of_nat (length pre) + 5).
  { unfold body. rewrite len_mkSlice, length_app. cbn [length]. lia. }
  assert (Hi : len body - binlogChecksumLength - 1 = Z.of_nat (length pre))
    by (unfold binlogChecksumLength; lia).
  rewrite Hi.
  assert (Hidx : index body (Z.of_nat (length pre)) = Ret alg).
  { apply index_ok; [lia|]. rewrite Nat2Z.id.
    rewrite lookup_app_r by lia. rewrite Nat.sub_diag. reflexivity. }
  rewrite Hidx. cbn [go_bind].
  assert (Hn : Z.to_nat (Z.of_nat (length pre) + 1) = length (pre ++ [alg]))
    by (rewrite length_app; cbn [length]; lia).
  assert (Hsplit : pre ++ alg :: [c0; c1; c2; c3] = (pre ++ [alg]) ++ [c0; c1; c2; c3])
    by (rewrite <- app_assoc; reflexivity).
  assert (Hfrom : slice_from body (Z.of_nat (length pre) + 1)
                  = Ret (mkSlice [c0; c1; c2; c3] sp)).
  { unfold body. rewrite slice_from_ok.
    - rewrite Hn, Hsplit, drop_app_length. reflexivity.
    - rewrite length_app. cbn [length]. lia. }
  rewrite Hfrom. cbn [go_bind].
  assert (Hto : slice_to body (Z.of_nat (length pre) + 1)
                = Ret (mkSlice (pre ++ [alg]) ([c0; c1; c2; c3] ++ sp))).
  { unfold slice_to, slice_range, cap, backing, body. cbn [elems spare].
    destruct (Z.leb_spec 0 (Z.of_nat (length pre) + 1)); [|lia].
    destruct (Z.leb_spec (Z.of_nat (length pre) + 1)
                (Z.of_nat (length ((pre ++ alg :: [c0; c1; c2; c3]) ++ sp)))) as [|Hc];
      [|rewrite !length_app in Hc; cbn [length] in Hc; lia].
    assert (Hback : (pre ++ alg :: [c0; c1; c2; c3]) ++ sp
                    = (pre ++ [alg]) ++ ([c0; c1; c2; c3] ++ sp))
      by (rewrite <- !app_assoc; reflexivity).
    cbn [andb]. rewrite Z.sub_0_r, Hn, Hback.
    change (Z.to_nat 0) with 0%nat.
    rewrite drop_0, take_app_length, drop_app_length. reflexivity. }
  rewrite Hto. cbn [go_bind elems len length].
  destruct (ChecksumValidate X alg [c0; c1; c2; c3] (elems header ++ pre ++ [alg]));
    reflexivity.
Qed.

Lemma Validation_checksum_suffix_witness :
  let d := mkFmtDesc 4 [x35;x2e;x37;x2e;x33;x30] 1 19 (fresh (repeat x08 38)) true in
  let header := fresh (take 19 sample_previous_gtids) in
  Validation sample_extern (Some (mkHeader 100 35 1 32 155 0))
    (Some (mkInfo (Some d) ∅)) header (fresh (drop 19 sample_previous_gtids))
  = Ret (x01, fresh [x73;x55;x4e;x65],
         mkSlice (repeat x00 8 ++ [x01]) [x73;x55;x4e;x65], None).
Proof.
  intros d header.
  exact (Validation_checksum_suffix sample_extern (mkHeader 100 35 1 32 155 0)
           (mkInfo (Some d) ∅) d header (repeat x00 8) x01 x73 x55 x4e x65 []
           eq_refl eq_refl eq_refl).
Defined.

(** C4, as the claim has it, fails: the previous-GTIDs event has eight
    bytes of payload before the algorithm byte 01 and the checksum;
    validation succeeds, and the body handed to the decoder, which the
    event carries verbatim, has nine bytes, the last being the algorithm
    byte. *)
Lemma checksum_suffix_counterexample :
  let decoder := opened None (sample_fde_crc ++ sample_previous_gtids) in
  exists w,
    WalkEvent sample_extern counting decoder 0 = Ret w
    /\ w_err w = None
    /\ map (fun e => (ChecksumType e, elems (ChecksumVal e),
                      match Body e with
                      | Some (BodyUnParsed u) => Some (elems (up_Data u))
                      | _ => None
                      end)) (w_calls w)
       = [(x00, [], None);
          (x01, [x73;x55;x4e;x65],
           Some [x00;x00;x00;x00;x00;x00;x00;x00; x01])].
Proof.
  eexists. split; [vm_compute; reflexivity|].
  repeat split; reflexivity.
Qed.

(** ** The rotate event *)

(** *** UTF-8 decoding *)

Lemma byte_of_Z_byte_Z (b : byte) : byte_of_Z (byte_Z b) = b.
Proof.
  unfold byte_of_Z, byte_Z. pose proof (Byte.to_N_bounded b) as Hb.
  rewrite Z.mod_small by lia. rewrite N2Z.id, Byte.of_to_N. reflexivity.
Qed.

(** [hi<<n | lo] is a sum when [lo] has [n] bits. *)
Lemma lor_shiftl_add (a b n : Z) :
  0 <= n -> 0 <= b < 2 ^ n -> Z.lor (Z.shiftl a n) b = a * 2 ^ n + b.
Proof.
  intros Hn Hb.
  assert (Hland : Z.land (Z.shiftl a n) b = 0).
  { apply Z.bits_inj'. intros i Hi. rewrite Z.land_spec, Z.bits_0.
    destruct (Z.lt_ge_cases i n) as [Hlt|Hge].
    - rewrite Z.shiftl_spec_low by lia. reflexivity.
    - rewrite <- (Z.mod_small b (2 ^ n)) by lia.
      rewrite Z.mod_pow2_bits_high by lia. apply andb_false_r. }
  rewrite <- Z.lxor_lor, <- Z.add_nocarry_lxor by exact Hland.
  rewrite Z.shiftl_mul_pow2 by lia. reflexivity.
Qed.

Lemma rune2_value (s0 s1 : Z) :
  0 <= s0 -> 0 <= s1 ->
  Z.lor (Z.shiftl (Z.land s0 mask2) 6) (Z.land s1 maskx)
  = (s0 mod 32) * 64 + s1 mod 64.
Proof.
  intros H0 H1. unfold mask2, maskx.
  change 31 with (Z.ones 5). change 63 with (Z.ones 6).
  rewrite !Z.land_ones by lia.
  change (2 ^ 5) with 32. change (2 ^ 6) with 64.
  pose proof (Z.mod_pos_bound s1 64 ltac:(lia)).
  rewrite lor_shiftl_add by lia. reflexivity.
Qed.

Lemma rune3_value (s0 s1 s2 : Z) :
  0 <= s0 -> 0 <= s1 -> 0 <= s2 ->
  Z.lor (Z.lor (Z.shiftl (Z.land s0 mask3) 12) (Z.shiftl (Z.land s1 maskx) 6))
    (Z.land s2 maskx)
  = (s0 mod 16) * 4096 + (s1 mod 64) * 64 + s2 mod 64.
Proof.
  intros H0 H1 H2. unfold mask3, maskx.
  change 15 with (Z.ones 4). change 63 with (Z.ones 6).
  rewrite !Z.land_ones by lia.
  change (2 ^ 4) with 16. change (2 ^ 6) with 64.
  pose proof (Z.mod_pos_bound s0 16 ltac:(lia)).
  pose proof (Z.mod_pos_bound s1 64 ltac:(lia)).
  pose proof (Z.mod_pos_bound s2 64 ltac:(lia)).
  set (A := s0 mod 16) in *. set (B := s1 mod 64) in *. set (C := s2 mod 64) in *.
  rewrite (Z.shiftl_mul_pow2 B) by lia.
  rewrite lor_shiftl_add by lia.
  replace (A * 2 ^ 12 + B * 2 ^ 6) with (Z.shiftl (A * 64 + B) 6)
    by (rewrite Z.shiftl_mul_pow2 by lia; lia).
  rewrite lor_shiftl_add by lia. lia.
Qed.

Lemma rune4_value (s0 s1 s2 s3 : Z) :
  0 <= s0 -> 0 <= s1 -> 0 <= s2 -> 0 <= s3 ->
  Z.lor (Z.lor (Z.lor (Z.shiftl (Z.land s0 mask4) 18)
                   (Z.shiftl (Z.land s1 maskx) 12))
           (Z.shiftl (Z.land s2 maskx) 6))
    (Z.land s3 maskx)
  = (s0 mod 8) * 262144 + (s1 mod 64) * 4096 + (s2 mod 64) * 64 + s3 mod 64.
Proof.
  intros H0 H1 H2 H3. unfold mask4, maskx.
  change 7 with (Z.ones 3). change 63 with (Z.ones 6).
  rewrite !Z.land_ones by lia.
  change (2 ^ 3) with 8. change (2 ^ 6) with 64.
  pose proof (Z.mod_pos_bound s0 8 ltac:(lia)).
  pose proof (Z.mod_pos_bound s1 64 ltac:(lia)).
  pose proof (Z.mod_pos_bound s2 64 ltac:(lia)).
  pose proof (Z.mod_pos_bound s3 64 ltac:(lia)).
  set (A := s0 mod 8) in *. set (B := s1 mod 64) in *.
  set (C := s2 mod 64) in *. set (D := s3 mod 64) in *.
  rewrite (Z.shiftl_mul_pow2 B) by lia.
  rewrite (Z.shiftl_mul_pow2 C) by lia.
  rewrite lor_shiftl_add by lia.
  replace (A * 2 ^ 18 + B * 2 ^ 12) with (Z.shiftl (A * 64 + B) 12)
    by (rewrite Z.shiftl_mul_pow2 by lia; lia).
  rewrite lor_shiftl_add by lia.
  replace ((A * 64 + B) * 2 ^ 12 + C * 2 ^ 6)
    with (Z.shiftl ((A * 64 + B) * 64 + C) 6)
    by (rewrite Z.shiftl_mul_pow2 by lia; lia).
  rewrite lor_shiftl_add by lia. lia.
Qed.

Lemma first_cases (s0 : Z) :
  0 <= s0 < 256 ->
  (s0 < 128 /\ first s0 = 240)
  \/ ((128 <= s0 < 194 \/ 245 <= s0) /\ first s0 = 241)
  \/ exists sz lo hi,
       lead_class s0 sz lo hi
       /\ first s0 < 240
       /\ Z.land (first s0) 7 = sz
       /\ acceptRanges (Z.shiftr (first s0) 4) = (lo, hi).
Proof.
  intros H. unfold first.
  destruct (Z.ltb_spec s0 128); [left; split; [lia | reflexivity]|].
  destruct (Z.ltb_spec s0 194); [right; left; split; [lia | reflexivity]|].
  destruct (Z.ltb_spec s0 224).
  { right; right. exists 2, 128, 191.
    repeat split; try reflexivity. apply lead_2; lia. }
  destruct (Z.eqb_spec s0 224) as [->|].
  { right; right. exists 3, 160, 191.
    repeat split; try reflexivity. apply (lead_3 224); lia. }
  destruct (Z.ltb_spec s0 237).
  { right; right. exists 3, 128, 191. repeat split; try reflexivity.
    pose proof (lead_3 s0 ltac:(lia)) as L.
    rewrite (proj2 (Z.eqb_neq s0 224)), (proj2 (Z.eqb_neq s0 237)) in L by lia.
    exact L. }
  destruct (Z.eqb_spec s0 237) as [->|].
  { right; right. exists 3, 128, 159.
    repeat split; try reflexivity. apply (lead_3 237); lia. }
  destruct (Z.ltb_spec s0 240).
  { right; right. exists 3, 128, 191. repeat split; try reflexivity.
    pose proof (lead_3 s0 ltac:(lia)) as L.
    rewrite (proj2 (Z.eqb_neq s0 224)), (proj2 (Z.eqb_neq s0 237)) in L by lia.
    exact L. }
  destruct (Z.eqb_spec s0 240) as [->|].
  { right; right. exists 4, 144, 191.
    repeat split; try reflexivity. apply (lead_4 240); lia. }
  destruct (Z.ltb_spec s0 244).
  { right; right. exists 4, 128, 191. repeat split; try reflexivity.
    pose proof (lead_4 s0 ltac:(lia)) as L.
    rewrite (proj2 (Z.eqb_neq s0 240)), (proj2 (Z.eqb_neq s0 244)) in L by lia.
    exact L. }
  destruct (Z.eqb_spec s0 244) as [->|].
  { right; right. exists 4, 128, 143.
    repeat split; try reflexivity. apply (lead_4 244); lia. }
  right; left. split; [lia | reflexivity].
Qed.

Lemma lead_class_bounds (s0 sz lo hi : Z) :
  lead_class s0 sz lo hi -> 2 <= sz <= 4 /\ 128 <= lo /\ hi <= 191.
Proof.
  intros []; repeat split; try lia;
    repeat match goal with |- context [if ?c then _ else _] => destruct c end; lia.
Qed.

(** What [DecodeRuneInString] returns, by the class of the leading byte. *)
Lemma DecodeRune_ascii (b0 : byte) (t : list byte) :
  byte_Z b0 < 128 -> DecodeRuneInString (b0 :: t) = (byte_Z b0, 1).
Proof.
  intros H. unfold DecodeRuneInString, first.
  rewrite (proj2 (Z.ltb_lt _ _)) by exact H. reflexivity.
Qed.

Lemma DecodeRune_invalid (b0 : byte) (t : list byte) :
  128 <= byte_Z b0 < 194 \/ 245 <= byte_Z b0 ->
  DecodeRuneInString (b0 :: t) = (RuneError, 1).
Proof.
  intros H. pose proof (byte_Z_range b0) as Hr.
  destruct (first_cases _ Hr) as [(? & _)|[(_ & E)|(sz & lo & hi & L & _)]].
  - lia.
  - unfold DecodeRuneInString. rewrite E. reflexivity.
  - destruct L; lia.
Qed.

Lemma DecodeRune_lead (b0 : byte) (t : list byte) (sz lo hi : Z) :
  lead_class (byte_Z b0) sz lo hi ->
  DecodeRuneInString (b0 :: t)
  = if Z.of_nat (length (b0 :: t)) <? sz then (RuneError, 1)
    else
      match t with
      | [] => (RuneError, 1)
      | b1 :: t =>
        if (byte_Z b1 <? lo) || (hi <? byte_Z b1) then (RuneError, 1)
        else if sz <=? 2 then
          ((byte_Z b0 mod 32) * 64 + byte_Z b1 mod 64, 2)
        else
          match t with
          | [] => (RuneError, 1)
          | b2 :: t =>
            if (byte_Z b2 <? 128) || (191 <? byte_Z b2) then (RuneError, 1)
            else if sz <=? 3 then
              ((byte_Z b0 mod 16) * 4096 + (byte_Z b1 mod 64) * 64
               + byte_Z b2 mod 64, 3)
            else
              match t with
              | [] => (RuneError, 1)
              | b3 :: _ =>
                if (byte_Z b3 <? 128) || (191 <? byte_Z b3) then (RuneError, 1)
                else
                  ((byte_Z b0 mod 8) * 262144 + (byte_Z b1 mod 64) * 4096
                   + (byte_Z b2 mod 64) * 64 + byte_Z b3 mod 64, 4)
              end
          end
      end.
Proof.
  intros L. pose proof (byte_Z_range b0) as Hr.
  destruct (first_cases _ Hr) as [(? & _)|[(? & _)|(sz' & lo' & hi' & L' & Hx & Hsz & Hacc)]].
  - destruct L; lia.
  - destruct L; lia.
  - assert (sz' = sz /\ lo' = lo /\ hi' = hi) as (-> & -> & ->).
    { destruct L, L'; try lia; repeat split; reflexivity. }
    unfold DecodeRuneInString.
    rewrite (proj2 (Z.leb_gt _ _)) by lia.
    rewrite Hsz, Hacc. cbn [fst snd]. fold locb hicb.
    destruct (_ <? sz); [reflexivity|].
    destruct t as [|b1 t]; [reflexivity|].
    pose proof (byte_Z_range b1).
    destruct (_ || _); [reflexivity|].
    destruct (sz <=? 2); [rewrite rune2_value by lia; reflexivity|].
    destruct t as [|b2 t]; [reflexivity|].
    pose proof (byte_Z_range b2).
    unfold locb, hicb.
    destruct (_ || _); [reflexivity|].
    destruct (sz <=? 3); [rewrite rune3_value by lia; reflexivity|].
    destruct t as [|b3 t]; [reflexivity|].
    pose proof (byte_Z_range b3).
    destruct (_ || _); [reflexivity|].
    rewrite rune4_value by lia. reflexivity.
Qed.

(** A leading byte is in one of the three cases. *)
Lemma byte_classes (b0 : byte) :
  byte_Z b0 < 128
  \/ (128 <= byte_Z b0 < 194 \/ 245 <= byte_Z b0)
  \/ exists sz lo hi, lead_class (byte_Z b0) sz lo hi.
Proof.
  pose proof (byte_Z_range b0) as Hr.
  destruct (first_cases _ Hr) as [(? & _)|[(? & _)|(sz & lo & hi & L & _)]].
  - left. assumption.
  - right; left. assumption.
  - right; right. exists sz, lo, hi. exact L.
Qed.

Lemma DecodeRune_size (s : list byte) :
  s <> [] -> 1 <= snd (DecodeRuneInString s) <= Z.of_nat (length s).
Proof.
  destruct s as [|b0 t]; [congruence|]. intros _.
  destruct (byte_classes b0) as [Ha|[Hi|(sz & lo & hi & L)]].
  - rewrite DecodeRune_ascii by exact Ha. cbn [snd length]. lia.
  - rewrite DecodeRune_invalid by exact Hi. cbn [snd length]. lia.
  - rewrite (DecodeRune_lead _ _ _ _ _ L).
    destruct (_ <? sz); [cbn [snd length]; lia|].
    destruct t as [|b1 t]; [cbn [snd length]; lia|].
    destruct (_ || _); [cbn [snd length]; lia|].
    destruct (sz <=? 2); [cbn [snd length]; lia|].
    destruct t as [|b2 t]; [cbn [snd length]; lia|].
    destruct (_ || _); [cbn [snd length]; lia|].
    destruct (sz <=? 3); [cbn [snd length]; lia|].
    destruct t as [|b3 t]; [cbn [snd length]; lia|].
    destruct (_ || _); cbn [snd length]; lia.
Qed.

(** A rune of at least two bytes is decoded from those bytes alone. *)
Lemma DecodeRune_app (a b : list byte) (r n : Z) :
  DecodeRuneInString a = (r, n) -> 2 <= n -> DecodeRuneInString (a ++ b) = (r, n).
Proof.
  destruct a as [|b0 t]; [cbn; intros H; inversion H; lia|].
  intros H Hn. cbn [app].
  destruct (byte_classes b0) as [Ha|[Hi|(sz & lo & hi & L)]].
  - rewrite DecodeRune_ascii in H by exact Ha. inversion H; lia.
  - rewrite DecodeRune_invalid in H by exact Hi. inversion H; lia.
  - rewrite (DecodeRune_lead _ _ _ _ _ L) in H.
    rewrite (DecodeRune_lead _ _ _ _ _ L).
    pose proof (lead_class_bounds _ _ _ _ L) as (Hsz & _).
    revert H.
    destruct (Z.ltb_spec (Z.of_nat (length (b0 :: t))) sz) as [Hlt|Hlen];
      intros H; [inversion H; lia|].
    rewrite (proj2 (Z.ltb_ge _ _))
      by (cbn [length] in *; rewrite length_app; lia).
    destruct t as [|b1 t]; [inversion H; lia|]. cbn [app].
    destruct (_ || _); [inversion H; lia|].
    destruct (sz <=? 2); [exact H|].
    destruct t as [|b2 t]; [inversion H; lia|]. cbn [app].
    destruct (_ || _); [inversion H; lia|].
    destruct (sz <=? 3); [exact H|].
    destruct t as [|b3 t]; [inversion H; lia|]. cbn [app].
    exact H.
Qed.

(** A byte that is not ASCII, at the end or before a byte that continues no
    rune, is decoded as one byte. *)
Lemma DecodeRune_width1 (b : byte) (t : list byte) :
  128 <= byte_Z b ->
  (t = [] \/ exists h t', t = h :: t' /\ (byte_Z h < 128 \/ 191 < byte_Z h)) ->
  snd (DecodeRuneInString (b :: t)) = 1.
Proof.
  intros Hb Ht.
  destruct (byte_classes b) as [Ha|[Hi|(sz & lo & hi & L)]]; [lia| |].
  - rewrite DecodeRune_invalid by exact Hi. reflexivity.
  - rewrite (DecodeRune_lead _ _ _ _ _ L).
    pose proof (lead_class_bounds _ _ _ _ L) as (Hsz & Hlo & Hhi).
    destruct (_ <? sz); [reflexivity|].
    destruct Ht as [->|(h & t' & -> & Hh)]; [reflexivity|].
    replace ((byte_Z h <? lo) || (hi <? byte_Z h)) with true; [reflexivity|].
    symmetry. apply orb_true_iff.
    destruct Hh; [left; apply Z.ltb_lt | right; apply Z.ltb_lt]; lia.
Qed.

Lemma IsSpace_cases (r : Z) :
  IsSpace r = true ->
  In r [9; 10; 11; 12; 13; 32; 133; 160; 5760;
        8192; 8193; 8194; 8195; 8196; 8197; 8198; 8199; 8200; 8201; 8202;
        8232; 8233; 8239; 8287; 12288].
Proof.
  unfold IsSpace. intros H. cbn [In].
  destruct (r <=? 255).
  - repeat (apply orb_true_iff in H; destruct H as [H|H]);
      try (apply Z.eqb_eq in H; lia).
    apply andb_true_iff in H as (H1 & H2).
    apply Z.leb_le in H1, H2. lia.
  - repeat (apply orb_true_iff in H; destruct H as [H|H]);
      try (apply Z.eqb_eq in H; lia).
    apply andb_true_iff in H as (H1 & H2).
    apply Z.leb_le in H1, H2. lia.
Qed.

Ltac in_list := repeat first [left; reflexivity | right].

(** The encoding of a white-space character is in the list. *)
Lemma EncodeRune_space (r : Z) : IsSpace r = true -> In (EncodeRune r) spaceSeqs.
Proof.
  intros H. apply IsSpace_cases in H. cbn [In] in H.
  repeat (destruct H as [<-|H]; [vm_compute; in_list|]).
  destruct H.
Qed.

(** A white-space rune is decoded only from its encoding. *)
Lemma DecodeRune_space (s : list byte) (r n : Z) :
  DecodeRuneInString s = (r, n) ->
  IsSpace r = true ->
  exists c rest, In c spaceSeqs /\ s = c ++ rest /\ n = Z.of_nat (length c).
Proof.
  intros H Hs.
  assert (Herr : forall n', (RuneError, n') = (r, n) -> False).
  { intros n' E. inversion E; subst r. vm_compute in Hs. discriminate Hs. }
  destruct s as [|b0 t]; [exfalso; exact (Herr _ H)|].
  pose proof (byte_Z_range b0) as R0.
  destruct (byte_classes b0) as [Ha|[Hi|(sz & lo & hi & L)]].
  - rewrite DecodeRune_ascii in H by exact Ha. inversion H; subst r n.
    exists [b0], t. split; [|split; reflexivity].
    apply EncodeRune_space in Hs. unfold EncodeRune in Hs.
    rewrite (proj2 (Z.ltb_lt _ _)) in Hs by exact Ha.
    rewrite byte_of_Z_byte_Z in Hs. exact Hs.
  - rewrite DecodeRune_invalid in H by exact Hi. exfalso; exact (Herr _ H).
  - rewrite (DecodeRune_lead _ _ _ _ _ L) in H.
    destruct (_ <? sz); [exfalso; exact (Herr _ H)|].
    destruct t as [|b1 t]; [exfalso; exact (Herr _ H)|].
    pose proof (byte_Z_range b1) as R1.
    destruct (Z.ltb_spec (byte_Z b1) lo) as [|H0]; [exfalso; exact (Herr _ H)|].
    destruct (Z.ltb_spec hi (byte_Z b1)) as [|H1]; [exfalso; exact (Herr _ H)|].
    cbn [orb] in H.
    assert (Hs1 : 128 <= byte_Z b1 <= 191)
      by (pose proof (lead_class_bounds _ _ _ _ L); lia).
    destruct L as [L|L|L].
    + (* two bytes *)
      cbn in H. inversion H as [[Hr Hn]]. clear H.
      exists [b0; b1], t. split; [|split; reflexivity].
      assert (Hf : 128 <= r < 2048
                   /\ 192 + r / 64 = byte_Z b0 /\ 128 + r mod 64 = byte_Z b1).
      { clear - Hr R0 R1 L Hs1. Z.to_euclidean_division_equations. lia. }
      destruct Hf as (Hrr & E0 & E1).
      apply EncodeRune_space in Hs. unfold EncodeRune in Hs.
      rewrite (proj2 (Z.ltb_ge _ _)), (proj2 (Z.ltb_lt _ _)) in Hs by lia.
      rewrite E0, E1, !byte_of_Z_byte_Z in Hs. exact Hs.
    + (* three bytes *)
      change (3 <=? 2) with false in H. cbv iota in H.
      destruct t as [|b2 t]; [exfalso; exact (Herr _ H)|].
      pose proof (byte_Z_range b2) as R2.
      destruct (Z.ltb_spec (byte_Z b2) 128) as [|H2]; [exfalso; exact (Herr _ H)|].
      destruct (Z.ltb_spec 191 (byte_Z b2)) as [|H3]; [exfalso; exact (Herr _ H)|].
      cbn in H. inversion H as [[Hr Hn]]. clear H.
      exists [b0; b1; b2], t. split; [|split; reflexivity].
      assert (Hlo : byte_Z b0 = 224 -> 160 <= byte_Z b1).
      { intros E. rewrite E in H0. exact H0. }
      assert (Hf : 2048 <= r < 65536
                   /\ 224 + r / 4096 = byte_Z b0
                   /\ 128 + (r / 64) mod 64 = byte_Z b1
                   /\ 128 + r mod 64 = byte_Z b2).
      { clear - Hr R0 R1 R2 L Hlo Hs1 H2 H3. Z.to_euclidean_division_equations. lia. }
      destruct Hf as (Hrr & E0 & E1 & E2).
      apply EncodeRune_space in Hs. unfold EncodeRune in Hs.
      rewrite !(proj2 (Z.ltb_ge _ _)) in Hs by lia.
      rewrite E0, E1, E2, !byte_of_Z_byte_Z in Hs. exact Hs.
    + (* four bytes: above every white-space character *)
      exfalso.
      change (4 <=? 2) with false in H. cbv iota in H.
      destruct t as [|b2 t]; [exact (Herr _ H)|].
      pose proof (byte_Z_range b2) as R2.
      destruct (Z.ltb_spec (byte_Z b2) 128) as [|H2]; [exact (Herr _ H)|].
      destruct (Z.ltb_spec 191 (byte_Z b2)) as [|H3]; [exact (Herr _ H)|].
      cbn [orb] in H. change (4 <=? 3) with false in H. cbv iota in H.
      destruct t as [|b3 t]; [exact (Herr _ H)|].
      pose proof (byte_Z_range b3) as R3.
      destruct (Z.ltb_spec (byte_Z b3) 128) as [|H4]; [exact (Herr _ H)|].
      destruct (Z.ltb_spec 191 (byte_Z b3)) as [|H5]; [exact (Herr _ H)|].
      cbn [orb] in H. inversion H as [[Hr Hn]]. clear H.
      assert (Hlo : byte_Z b0 = 240 -> 144 <= byte_Z b1).
      { intros E. rewrite E in H0. exact H0. }
      assert (Hrr : 65536 <= r).
      { clear - Hr R0 R1 R2 R3 L Hlo Hs1 H2 H3 H4 H5. Z.to_euclidean_division_equations. lia. }
      apply IsSpace_cases in Hs. cbn [In] in Hs. lia.
Qed.

Lemma spaceSeqs_ok (c : list byte) : In c spaceSeqs -> seq_ok c = true.
Proof.
  assert (H : forallb seq_ok spaceSeqs = true) by (vm_compute; reflexivity).
  rewrite forallb_forall in H. apply H.
Qed.

Lemma spaceSeq_inv (c : list byte) :
  In c spaceSeqs ->
  exists h conts r,
    c = h :: conts
    /\ (byte_Z h < 128 \/ 191 < byte_Z h)
    /\ RuneStart (byte_Z h) = true
    /\ Forall (fun b => 128 <= byte_Z b /\ RuneStart (byte_Z b) = false) conts
    /\ (length conts <= 2)%nat
    /\ (conts = [] -> byte_Z h < 128)
    /\ DecodeRuneInString c = (r, Z.of_nat (length c))
    /\ IsSpace r = true.
Proof.
  intros Hin. apply spaceSeqs_ok in Hin. unfold seq_ok in Hin.
  destruct c as [|h conts]; [discriminate|].
  destruct (DecodeRuneInString (h :: conts)) as [r n] eqn:Hd.
  apply andb_true_iff in Hin as (Hin & Hdec).
  apply andb_true_iff in Hin as (Hin & Hone).
  apply andb_true_iff in Hin as (Hin & Hlen).
  apply andb_true_iff in Hin as (Hin & Hconts).
  apply andb_true_iff in Hin as (Hhead & Hstart).
  apply andb_true_iff in Hdec as (Hsp & Hn).
  apply Z.eqb_eq in Hn. subst n. apply Z.leb_le in Hlen.
  exists h, conts, r. split; [reflexivity|].
  split; [apply orb_true_iff in Hhead; destruct Hhead as [Hh|Hh];
          apply Z.ltb_lt in Hh; auto|].
  split; [exact Hstart|]. split.
  { apply List.Forall_forall. intros b Hb.
    rewrite forallb_forall in Hconts. specialize (Hconts b Hb).
    apply andb_true_iff in Hconts as (Hc1 & Hc2).
    apply Z.leb_le in Hc1. apply negb_true_iff in Hc2. auto. }
  split; [lia|]. split.
  { intros ->. apply Z.ltb_lt in Hone. exact Hone. }
  split; [reflexivity | exact Hsp].
Qed.

(** White space is decoded as white space, wherever it comes first. *)
Lemma spaceSeq_decode (c rest : list byte) :
  In c spaceSeqs ->
  exists r, DecodeRuneInString (c ++ rest) = (r, Z.of_nat (length c))
            /\ IsSpace r = true.
Proof.
  intros Hin.
  destruct (spaceSeq_inv _ Hin) as (h & conts & r & -> & _ & _ & _ & _ & H1 & Hd & Hs).
  exists r. split; [|exact Hs].
  destruct conts as [|b1 conts].
  - specialize (H1 eq_refl). cbn [app length] in *.
    rewrite DecodeRune_ascii in * by exact H1. exact Hd.
  - apply DecodeRune_app; [exact Hd | cbn [length]; lia].
Qed.

(** A run of white space is empty or begins with a byte that continues no
    rune. *)
Lemma spaces_head (t : list byte) :
  spaces t ->
  t = [] \/ exists h t', t = h :: t' /\ (byte_Z h < 128 \/ 191 < byte_Z h).
Proof.
  intros (cs & Hcs & ->).
  destruct cs as [|c cs]; [left; reflexivity|]. right.
  inversion Hcs as [|? ? Hc _]; subst.
  destruct (spaceSeq_inv _ Hc) as (h & conts & r & -> & Hh & _).
  cbn [concat app]. eauto.
Qed.

Lemma spaces_nil : spaces [].
Proof. exists []. split; [constructor | reflexivity]. Qed.

Lemma spaces_cons (c l : list byte) : In c spaceSeqs -> spaces l -> spaces (c ++ l).
Proof.
  intros Hc (cs & Hcs & ->). exists (c :: cs).
  split; [constructor; assumption | reflexivity].
Qed.

(** *** Decoding the last rune *)

Lemma lastRuneStart_le (fuel : nat) (s : list byte) (lim : Z) :
  forall start : Z, lastRuneStart fuel s start lim <= start.
Proof.
  induction fuel as [|k IH]; intros start; cbn [lastRuneStart]; [lia|].
  destruct (lim <=? start); [|lia].
  destruct (s !! Z.to_nat start) as [b|]; [|lia].
  destruct (RuneStart (byte_Z b)); [lia|].
  specialize (IH (start - 1)). lia.
Qed.

Lemma lastRuneStart_hit (k : nat) (s : list byte) (start lim : Z) (b : byte) :
  lim <= start ->
  s !! Z.to_nat start = Some b ->
  RuneStart (byte_Z b) = true ->
  lastRuneStart (S k) s start lim = start.
Proof.
  intros Hl Hb Hr. cbn [lastRuneStart].
  rewrite (proj2 (Z.leb_le _ _)) by exact Hl. rewrite Hb, Hr. reflexivity.
Qed.

Lemma lastRuneStart_miss (k : nat) (s : list byte) (start lim : Z) (b : byte) :
  lim <= start ->
  s !! Z.to_nat start = Some b ->
  RuneStart (byte_Z b) = false ->
  lastRuneStart (S k) s start lim = lastRuneStart k s (start - 1) lim.
Proof.
  intros Hl Hb Hr. cbn [lastRuneStart].
  rewrite (proj2 (Z.leb_le _ _)) by exact Hl. rewrite Hb, Hr. reflexivity.
Qed.

(** The three ways [DecodeLastRuneInString] returns on a string that is
    not empty: an ASCII last byte; an error of one byte; or a rune decoded
    from [start] that ends where the string ends. *)
Lemma DecodeLast_cases (u : list byte) (r size : Z) :
  DecodeLastRuneInString u = (r, size) ->
  (u = [] /\ r = RuneError /\ size = 0)
  \/ exists pre b,
      u = pre ++ [b]
      /\ ((byte_Z b < 128 /\ r = byte_Z b /\ size = 1)
          \/ (128 <= byte_Z b /\ r = RuneError /\ size = 1)
          \/ (128 <= byte_Z b
              /\ exists start,
                  0 <= start < Z.of_nat (length u)
                  /\ DecodeRuneInString (drop (Z.to_nat start) u) = (r, size)
                  /\ start + size = Z.of_nat (length u))).
Proof.
  unfold DecodeLastRuneInString. intros H.
  destruct (last u) as [b|] eqn:Hlast.
  - right. apply last_Some in Hlast as (pre & Hu). exists pre, b.
    split; [exact Hu|].
    unfold RuneSelf in H.
    destruct (Z.ltb_spec (byte_Z b) 128) as [Hb|Hb].
    { left. inversion H. auto. }
    right.
    set (start0 := lastRuneStart 4 u _ _) in H.
    assert (Hs0 : start0 <= Z.of_nat (length u) - 1 - 1)
      by apply lastRuneStart_le.
    set (start := if start0 <? 0 then 0 else start0) in H.
    assert (Hlen : 1 <= Z.of_nat (length u))
      by (rewrite Hu, length_app; cbn [length]; lia).
    assert (Hs : 0 <= start < Z.of_nat (length u))
      by (unfold start; destruct (Z.ltb_spec start0 0); lia).
    destruct (DecodeRuneInString (drop (Z.to_nat start) u)) as [r' size'] eqn:Hd.
    destruct (Z.eqb_spec (start + size') (Z.of_nat (length u))) as [He|He];
      cbn [negb] in H; inversion H; subst.
    + right. split; [exact Hb|]. exists start. auto.
    + left. auto.
  - left. apply last_None in Hlast. inversion H. auto.
Qed.

Lemma ascii_space (b : byte) :
  byte_Z b < 128 -> IsSpace (byte_Z b) = true -> In [b] spaceSeqs.
Proof.
  intros Hb Hs. apply EncodeRune_space in Hs. unfold EncodeRune in Hs.
  rewrite (proj2 (Z.ltb_lt _ _)) in Hs by exact Hb.
  rewrite byte_of_Z_byte_Z in Hs. exact Hs.
Qed.

(** A white-space rune is decoded last only from its encoding. *)
Lemma DecodeLast_space (u : list byte) (r size : Z) :
  DecodeLastRuneInString u = (r, size) ->
  IsSpace r = true ->
  exists pre c, In c spaceSeqs /\ u = pre ++ c /\ size = Z.of_nat (length c).
Proof.
  intros H Hs.
  assert (Herr : r <> RuneError)
    by (intros ->; vm_compute in Hs; discriminate Hs).
  apply DecodeLast_cases in H
    as [(_ & E & _)|(pre & b & Hu & [(Hb & -> & ->)|[(_ & E & _)|(Hb & start & Hst & Hd & He)]])];
    try congruence.
  - exists pre, [b]. split; [apply ascii_space; assumption|]. auto.
  - destruct (DecodeRune_space _ _ _ Hd Hs) as (c & rest & Hc & Hdrop & Hsz).
    assert (Hrest : rest = []).
    { apply (f_equal (@length byte)) in Hdrop.
      rewrite length_drop, length_app in Hdrop.
      destruct rest; [reflexivity | cbn [length] in Hdrop; lia]. }
    subst rest. rewrite app_nil_r in Hdrop.
    exists (take (Z.to_nat start) u), c. split; [exact Hc|]. split; [|exact Hsz].
    rewrite <- Hdrop. symmetry. apply take_drop.
Qed.

(** White space is decoded as white space, wherever it comes last. *)
Lemma spaceSeq_decode_last (pre c : list byte) :
  In c spaceSeqs ->
  exists r, DecodeLastRuneInString (pre ++ c) = (r, Z.of_nat (length c))
            /\ IsSpace r = true.
Proof.
  intros Hin.
  destruct (spaceSeq_inv _ Hin)
    as (h & conts & r & -> & _ & Hstart & Hconts & Hlen & H1 & Hd & Hs).
  exists r. split; [|exact Hs].
  unfold DecodeLastRuneInString.
  destruct conts as [|b1 [|b2 conts]].
  - specialize (H1 eq_refl).
    rewrite DecodeRune_ascii in Hd by exact H1. inversion Hd; subst r.
    rewrite last_snoc. unfold RuneSelf.
    rewrite (proj2 (Z.ltb_lt _ _)) by exact H1. reflexivity.
  - inversion Hconts as [|? ? (Hb1 & _) _]; subst.
    replace (pre ++ [h; b1]) with ((pre ++ [h]) ++ [b1])
      by (rewrite <- app_assoc; reflexivity).
    rewrite last_snoc. unfold RuneSelf, UTFMax.
    rewrite (proj2 (Z.ltb_ge _ _)) by exact Hb1.
    rewrite <- app_assoc. cbn [app].
    assert (Hl : Z.of_nat (length (pre ++ [h; b1])) = Z.of_nat (length pre) + 2)
      by (rewrite length_app; cbn [length]; lia).
    rewrite Hl.
    replace (Z.of_nat (length pre) + 2 - 1 - 1) with (Z.of_nat (length pre)) by lia.
    rewrite (lastRuneStart_hit _ _ _ _ h); [|lia| |exact Hstart].
    2:{ rewrite Nat2Z.id. apply list_lookup_middle. reflexivity. }
    rewrite (proj2 (Z.ltb_ge _ _)) by lia.
    rewrite Nat2Z.id, drop_app_length, Hd. cbn [length].
    rewrite (proj2 (Z.eqb_eq _ _)) by lia. reflexivity.
  - destruct conts; [|cbn [length] in Hlen; lia].
    inversion Hconts as [|? ? (_ & Hr1) Hc2]; subst.
    inversion Hc2 as [|? ? (Hb2 & _) _]; subst.
    replace (pre ++ [h; b1; b2]) with ((pre ++ [h; b1]) ++ [b2])
      by (rewrite <- app_assoc; reflexivity).
    rewrite last_snoc. unfold RuneSelf, UTFMax.
    rewrite (proj2 (Z.ltb_ge _ _)) by exact Hb2.
    rewrite <- app_assoc. cbn [app].
    assert (Hl : Z.of_nat (length (pre ++ [h; b1; b2])) = Z.of_nat (length pre) + 3)
      by (rewrite length_app; cbn [length]; lia).
    rewrite Hl.
    replace (Z.of_nat (length pre) + 3 - 1 - 1) with (Z.of_nat (length pre) + 1) by lia.
    rewrite (lastRuneStart_miss _ _ _ _ b1); [|lia| |exact Hr1].
    2:{ replace (Z.to_nat (Z.of_nat (length pre) + 1)) with (length (pre ++ [h]))
          by (rewrite length_app; cbn [length]; lia).
        replace (pre ++ [h; b1; b2]) with ((pre ++ [h]) ++ b1 :: [b2])
          by (rewrite <- app_assoc; reflexivity).
        apply list_lookup_middle. reflexivity. }
    replace (Z.of_nat (length pre) + 1 - 1) with (Z.of_nat (length pre)) by lia.
    rewrite (lastRuneStart_hit _ _ _ _ h); [|lia| |exact Hstart].
    2:{ rewrite Nat2Z.id. apply list_lookup_middle. reflexivity. }
    rewrite (proj2 (Z.ltb_ge _ _)) by lia.
    rewrite Nat2Z.id, drop_app_length, Hd. cbn [length].
    rewrite (proj2 (Z.eqb_eq _ _)) by lia. reflexivity.
Qed.

(** The width [TrimRightFunc] adds to the index of the last rune that is
    kept is the width [DecodeLastRuneInString] found, whatever white space
    follows. *)
Lemma DecodeLast_forward (u tail : list byte) (r size : Z) :
  DecodeLastRuneInString u = (r, size) ->
  u <> [] ->
  (tail = [] \/ exists h t', tail = h :: t' /\ (byte_Z h < 128 \/ 191 < byte_Z h)) ->
  1 <= size <= Z.of_nat (length u)
  /\ exists b,
      u !! Z.to_nat (Z.of_nat (length u) - size) = Some b
      /\ (if 128 <=? byte_Z b
          then snd (DecodeRuneInString
                      (drop (Z.to_nat (Z.of_nat (length u) - size)) u ++ tail))
          else 1) = size.
Proof.
  intros H Hne Htail.
  apply DecodeLast_cases in H
    as [(E & _)|(pre & b & Hu & [(Hb & -> & ->)|[(Hb & -> & ->)|(Hb & start & Hst & Hd & He)]])];
    [congruence | | |].
  - assert (Hl : Z.of_nat (length u) = Z.of_nat (length pre) + 1)
      by (rewrite Hu, length_app; cbn [length]; lia).
    split; [lia|]. exists b.
    replace (Z.to_nat (Z.of_nat (length u) - 1)) with (length pre) by lia.
    split; [rewrite Hu; apply list_lookup_middle; reflexivity|].
    rewrite (proj2 (Z.leb_gt _ _)) by lia. reflexivity.
  - assert (Hl : Z.of_nat (length u) = Z.of_nat (length pre) + 1)
      by (rewrite Hu, length_app; cbn [length]; lia).
    split; [lia|]. exists b.
    replace (Z.to_nat (Z.of_nat (length u) - 1)) with (length pre) by lia.
    split; [rewrite Hu; apply list_lookup_middle; reflexivity|].
    rewrite (proj2 (Z.leb_le _ _)) by lia.
    rewrite Hu, drop_app_length. cbn [app].
    apply DecodeRune_width1; assumption.
  - assert (Hdne : drop (Z.to_nat start) u <> []).
    { intros E. apply (f_equal (@length byte)) in E.
      rewrite length_drop in E. cbn [length] in E. lia. }
    pose proof (DecodeRune_size _ Hdne) as Hsz. rewrite Hd in Hsz. cbn [snd] in Hsz.
    split; [lia|].
    replace (Z.of_nat (length u) - size) with start by lia.
    destruct (drop (Z.to_nat start) u) as [|b' rest] eqn:Hdrop; [congruence|].
    exists b'. split.
    { rewrite <- (take_drop (Z.to_nat start) u), Hdrop.
      apply list_lookup_middle. rewrite length_take. lia. }
    destruct (Z.leb_spec 128 (byte_Z b')) as [Hb'|Hb'].
    + destruct (Z.le_gt_cases 2 size) as [H2|H2].
      * rewrite (DecodeRune_app _ _ _ _ Hd H2). reflexivity.
      * assert (size = 1) by lia. subst size.
        assert (rest = []).
        { apply (f_equal (@length byte)) in Hdrop.
          rewrite length_drop in Hdrop. cbn [length] in Hdrop.
          destruct rest; [reflexivity | cbn [length] in Hdrop; lia]. }
        subst rest. cbn [app]. apply DecodeRune_width1; assumption.
    + rewrite DecodeRune_ascii in Hd by exact Hb'. inversion Hd. reflexivity.
Qed.

(** *** Trimming *)

Lemma spaceSeq_nonempty (c : list byte) : In c spaceSeqs -> c <> [].
Proof.
  intros Hin. destruct (spaceSeq_inv _ Hin) as (h & conts & r & -> & _).
  discriminate.
Qed.

(** [indexFunc] with [unicode.IsSpace] and [false]: what precedes the index
    it returns is white space, and the rune at the index is none. *)
Lemma indexFunc_spec (s : list byte) (fuel : nat) :
  forall i : nat,
    (i <= length s)%nat ->
    (length s <= fuel + i)%nat ->
    let j := indexFunc fuel s (Z.of_nat i) IsSpace false in
    (j = -1 /\ spaces (drop i s))
    \/ (exists k : nat,
           j = Z.of_nat (i + k)
           /\ (i + k < length s)%nat
           /\ spaces (take k (drop i s))
           /\ exists r n, DecodeRuneInString (drop (i + k) s) = (r, n)
                          /\ IsSpace r = false).
Proof.
  induction fuel as [|fuel IH]; intros i Hi Hf; cbn [indexFunc]; cbv zeta.
  - left. split; [reflexivity|]. rewrite drop_ge by lia. apply spaces_nil.
  - rewrite Nat2Z.id.
    destruct (drop i s) as [|b rest] eqn:Hdrop.
    { left. split; [reflexivity | apply spaces_nil]. }
    destruct (DecodeRuneInString (b :: rest)) as [r size] eqn:Hd.
    destruct (IsSpace r) eqn:Hs; cbn [Bool.eqb].
    + destruct (DecodeRune_space _ _ _ Hd Hs) as (c & rest' & Hc & Hcr & ->).
      pose proof (spaceSeq_nonempty _ Hc) as Hcne.
      assert (Hlen : (length c + length rest' = length s - i)%nat).
      { rewrite <- length_app, <- Hcr, <- Hdrop, length_drop. reflexivity. }
      assert (Hc1 : (1 <= length c)%nat)
        by (destruct c; [congruence | cbn [length]; lia]).
      assert (Hdrop' : drop (i + length c) s = rest').
      { rewrite <- drop_drop, Hdrop, Hcr, drop_app_length.
        reflexivity. }
      replace (Z.of_nat i + Z.of_nat (length c)) with (Z.of_nat (i + length c)) by lia.
      specialize (IH (i + length c)%nat ltac:(lia) ltac:(lia)). cbv zeta in IH.
      rewrite Hdrop' in IH.
      destruct IH as [(Hj & Hsp)|(k & Hj & Hk & Hsp & Hdec)].
      * left. split; [exact Hj|]. rewrite Hcr. apply spaces_cons; assumption.
      * right. exists (length c + k)%nat.
        split; [rewrite Hj; f_equal; lia|]. split; [lia|].
        split.
        -- rewrite Hcr, take_app_add'; [|reflexivity].
           apply spaces_cons; assumption.
        -- replace (i + (length c + k))%nat with (i + length c + k)%nat by lia.
           exact Hdec.
    + right. exists 0%nat.
      split; [f_equal; lia|].
      split; [apply (f_equal (@length byte)) in Hdrop;
              rewrite length_drop in Hdrop; cbn [length] in Hdrop; lia|].
      split; [apply spaces_nil|].
      rewrite Nat.add_0_r, Hdrop. eauto.
Qed.

(** [TrimLeftFunc] with [unicode.IsSpace] removes a run of white space, and
    what is left does not begin with white space. *)
Lemma TrimLeftFunc_spec (s : list byte) :
  exists l,
    s = l ++ TrimLeftFunc s IsSpace
    /\ spaces l
    /\ (forall c rest, In c spaceSeqs -> TrimLeftFunc s IsSpace <> c ++ rest).
Proof.
  unfold TrimLeftFunc.
  pose proof (indexFunc_spec s (length s) 0 ltac:(lia) ltac:(lia)) as H.
  cbv zeta in H. change (Z.of_nat 0) with 0 in H.
  destruct H as [(Hj & Hsp)|(k & Hj & Hk & Hsp & r & n & Hd & Hs)].
  - rewrite Hj. cbn [Z.eqb Pos.eqb]. exists s.
    split; [rewrite app_nil_r; reflexivity|]. split; [exact Hsp|].
    intros c rest Hc E. apply (spaceSeq_nonempty _ Hc).
    destruct c; [reflexivity | discriminate E].
  - rewrite Hj. cbn [Nat.add drop] in *.
    rewrite (proj2 (Z.eqb_neq _ _)) by lia. rewrite Nat2Z.id.
    exists (take k s). split; [symmetry; apply take_drop|]. split; [exact Hsp|].
    intros c rest Hc E. rewrite E in Hd.
    destruct (spaceSeq_decode c rest Hc) as (r' & Hd' & Hs').
    rewrite Hd' in Hd. inversion Hd; subst. congruence.
Qed.

(** [lastIndexFunc] with [unicode.IsSpace] and [false]: what follows the
    rune at the index it returns is white space, and that rune is none. *)
Lemma lastIndexFunc_spec (s : list byte) (fuel : nat) :
  forall i : nat,
    (i <= length s)%nat ->
    (i <= fuel)%nat ->
    spaces (drop i s) ->
    let j := lastIndexFunc fuel s (Z.of_nat i) IsSpace false in
    (j = -1 /\ spaces s)
    \/ (exists (i0 : nat) (r size : Z),
           (0 < i0 <= length s)%nat
           /\ spaces (drop i0 s)
           /\ DecodeLastRuneInString (take i0 s) = (r, size)
           /\ IsSpace r = false
           /\ j = Z.of_nat i0 - size).
Proof.
  induction fuel as [|fuel IH]; intros i Hi Hf Hsp; cbn [lastIndexFunc]; cbv zeta.
  - left. split; [reflexivity|]. assert (i = 0)%nat as -> by lia. exact Hsp.
  - destruct (Z.ltb_spec 0 (Z.of_nat i)) as [Hpos|Hz].
    2:{ left. split; [reflexivity|]. assert (i = 0)%nat as -> by lia. exact Hsp. }
    rewrite Nat2Z.id.
    destruct (DecodeLastRuneInString (take i s)) as [r size] eqn:Hd.
    destruct (IsSpace r) eqn:Hs; cbn [Bool.eqb].
    + destruct (DecodeLast_space _ _ _ Hd Hs) as (pre & c & Hc & Hu & ->).
      pose proof (spaceSeq_nonempty _ Hc) as Hcne.
      assert (Hc1 : (1 <= length c)%nat)
        by (destruct c; [congruence | cbn [length]; lia]).
      assert (Hlen : (length pre + length c = i)%nat).
      { rewrite <- length_app, <- Hu, length_take. lia. }
      assert (Hdrop : drop (length pre) s = c ++ drop i s).
      { rewrite <- (take_drop i s) at 1. rewrite Hu, <- app_assoc.
        apply drop_app_length. }
      replace (Z.of_nat i - Z.of_nat (length c)) with (Z.of_nat (length pre)) by lia.
      apply IH; [lia | lia |].
      rewrite Hdrop. apply spaces_cons; assumption.
    + right. exists i, r, size. repeat split; try assumption; lia.
Qed.

(** [TrimRightFunc] with [unicode.IsSpace] removes a run of white space,
    and what is left does not end with white space. *)
Lemma TrimRightFunc_spec (t : list byte) :
  exists r,
    t = TrimRightFunc t IsSpace ++ r
    /\ spaces r
    /\ (forall c pre, In c spaceSeqs -> TrimRightFunc t IsSpace <> pre ++ c).
Proof.
  unfold TrimRightFunc.
  pose proof (lastIndexFunc_spec t (length t) (length t) ltac:(lia) ltac:(lia)) as H.
  rewrite drop_all in H. specialize (H spaces_nil). cbv zeta in H.
  destruct H as [(Hj & Hsp)|(i0 & r & size & Hi0 & Hsp & Hd & Hs & Hj)].
  - rewrite Hj. cbn [Z.leb Z.compare]. change (-1 + 1) with 0.
    change (Z.to_nat 0) with 0%nat. rewrite take_0. exists t.
    split; [reflexivity|]. split; [exact Hsp|].
    intros c pre Hc E. apply (spaceSeq_nonempty _ Hc).
    destruct pre, c; try reflexivity; discriminate E.
  - rewrite Hj.
    assert (Hne : take i0 t <> []).
    { intros E. apply (f_equal (@length byte)) in E.
      rewrite length_take in E. cbn [length] in E. lia. }
    destruct (DecodeLast_forward _ (drop i0 t) _ _ Hd Hne (spaces_head _ Hsp))
      as (Hsz & b & Hb & Hw).
    rewrite length_take in Hsz, Hb, Hw.
    replace (i0 `min` length t)%nat with i0 in * by lia.
    rewrite (proj2 (Z.leb_le _ _)) by lia.
    assert (Hlt : (Z.to_nat (Z.of_nat i0 - size) < i0)%nat) by lia.
    rewrite lookup_take_lt in Hb by exact Hlt. rewrite Hb.
    assert (Hdrop : drop (Z.to_nat (Z.of_nat i0 - size)) t
                    = drop (Z.to_nat (Z.of_nat i0 - size)) (take i0 t) ++ drop i0 t).
    { rewrite <- (take_drop i0 t) at 1.
      apply drop_app_le. rewrite length_take. lia. }
    rewrite Hdrop. unfold RuneSelf.
    replace (if 128 <=? byte_Z b
             then Z.of_nat i0 - size
                  + snd (DecodeRuneInString
                           (drop (Z.to_nat (Z.of_nat i0 - size)) (take i0 t)
                            ++ drop i0 t))
             else Z.of_nat i0 - size + 1)
      with (Z.of_nat i0)
      by (destruct (128 <=? byte_Z b); lia).
    rewrite Nat2Z.id. exists (drop i0 t).
    split; [symmetry; apply take_drop|]. split; [exact Hsp|].
    intros c pre Hc E. rewrite E in Hd.
    destruct (spaceSeq_decode_last pre c Hc) as (r' & Hd' & Hs').
    rewrite Hd' in Hd. inversion Hd; subst. congruence.
Qed.

(** [TrimSpace] removes the white space of both ends, and no more. *)
Lemma TrimSpace_trimmed (s : list byte) : trimmed s (TrimSpace s).
Proof.
  unfold TrimSpace, TrimFunc.
  destruct (TrimLeftFunc_spec s) as (l & Hs & Hl & Hhead).
  destruct (TrimRightFunc_spec (TrimLeftFunc s IsSpace)) as (r & Ht & Hr & Hlast).
  exists l, r. split; [|split; [|split; [|split]]]; auto.
  - rewrite <- Ht. exact Hs.
  - intros c rest Hc E. apply (Hhead c (rest ++ r) Hc).
    rewrite Ht, E, <- app_assoc. reflexivity.
Qed.

(** A name between a next-line character and an ideographic space, with a
    space and a line feed inside them, is cut down to the name; bytes that
    decode to no rune are no white space and stay. *)
Example TrimSpace_samples :
  TrimSpace [xc2;x85; x20; x61;x2e;x31; x0a; xe3;x80;x80] = [x61;x2e;x31]
  /\ TrimSpace [x80; x20; x61; x20; xc2] = [x80; x20; x61; x20; xc2]
  /\ TrimSpace [x20; xe2;x80;x8a; x09] = [].
Proof. repeat split; vm_compute; reflexivity. Qed.

(** *** The fields of the event *)

(** C7, as the code has it.  Under a binlog version above 1 and on at least
    eight bytes, the position is the little-endian value of the first eight
    bytes and the file name is the rest without its leading and trailing
    white space; under version 1 or lower the body has no position field,
    the position is left 0, and the file name is the whole body without its
    leading and trailing white space.  White space is that of Unicode, in
    UTF-8, as [strings.TrimSpace] removes it. *)
Theorem decodeRotateEvent_fields :
  (forall (d sp : list byte) (binlogVersion : Z),
      1 < binlogVersion ->
      (8 <= length d)%nat ->
      exists name,
        decodeRotateEvent (mkSlice d sp) binlogVersion
        = Ret (mkRotate (le_value (take 8 d)) name)
        /\ trimmed (drop 8 d) name)
  /\ (forall (d sp : list byte) (binlogVersion : Z),
         binlogVersion <= 1 ->
         exists name,
           decodeRotateEvent (mkSlice d sp) binlogVersion = Ret (mkRotate 0 name)
           /\ trimmed d name).
Proof.
  split.
  - intros d sp v Hv Hlen. exists (TrimSpace (drop 8 d)).
    split; [|apply TrimSpace_trimmed].
    unfold decodeRotateEvent.
    destruct (Z.ltb_spec 1 v); [|lia].
    rewrite Uint64_ok by lia. cbn [go_bind].
    rewrite slice_from_ok by lia. reflexivity.
  - intros d sp v Hv. exists (TrimSpace d).
    split; [|apply TrimSpace_trimmed].
    unfold decodeRotateEvent.
    destruct (Z.ltb_spec 1 v); [lia|]. cbn [go_bind].
    rewrite slice_from_ok by lia. reflexivity.
Qed.

Lemma decodeRotateEvent_fields_witness :
  (exists name,
      decodeRotateEvent
        (fresh ([x04;x00;x00;x00;x00;x00;x00;x00]
                ++ [xc2;x85; x20; x61;x2e;x31; x0a; xe3;x80;x80])) 4
      = Ret (mkRotate 4 name)
      /\ trimmed [xc2;x85; x20; x61;x2e;x31; x0a; xe3;x80;x80] name)
  /\ (exists name,
         decodeRotateEvent (fresh [x61;x2e;x31]) 1 = Ret (mkRotate 0 name)
         /\ trimmed [x61;x2e;x31] name).
Proof.
  destruct decodeRotateEvent_fields as (H2 & H1).
  split.
  - apply (H2 ([x04;x00;x00;x00;x00;x00;x00;x00]
               ++ [xc2;x85; x20; x61;x2e;x31; x0a; xe3;x80;x80]) [] 4).
    + lia.
    + cbn [length app]. lia.
  - apply (H1 [x61;x2e;x31] [] 1). lia.
Defined.

(** C7, as the claim has it, fails twice: under version 1 the position is
    0, not 4; and under version 4 the name " a.1" followed by a line feed
    decodes to "a.1", which is not that name with its trailing white space
    removed, the leading space being gone too. *)
Lemma rotate_counterexample :
  decodeRotateEvent (fresh [x61;x2e;x31]) 1 = Ret (mkRotate 0 [x61;x2e;x31])
  /\ decodeRotateEvent
       (fresh ([x04;x00;x00;x00;x00;x00;x00;x00] ++ [x20; x61;x2e;x31; x0a])) 4
     = Ret (mkRotate 4 [x61;x2e;x31])
  /\ ~ right_trimmed [x20; x61;x2e;x31; x0a] [x61;x2e;x31].
Proof.
  split; [vm_compute; reflexivity|]. split; [vm_compute; reflexivity|].
  intros (r & Hr & _). discriminate Hr.
Qed.

(** ** The column-presence bitfields *)

Lemma LengthEncodedInt_Ret (b : slice) (v n : Z) (isNull : bool) :
  LengthEncodedInt b = Ret (v, isNull, n) -> 0 <= v /\ 1 <= n <= 9.
Proof.
  unfold LengthEncodedInt. intros H. go_inv H.
  pose proof (byte_Z_range a).
  repeat match type of H with
         | (if ?c then _ else _) = _ => destruct c
         end;
    inversion H; subst; try split; try lia; apply le_value_nonneg.
Qed.

(** The byte size of a bitmap for a column count that is an [int], when it
    is not negative, is the count divided by eight and rounded up. *)
Lemma bitmapByteSize_ceil (columnCount : Z) :
  0 <= columnCount < 2 ^ 63 ->
  0 <= bitmapByteSize (wrap64 columnCount) ->
  columnCount <= 8 * bitmapByteSize (wrap64 columnCount) < columnCount + 8.
Proof.
  intros Hc. rewrite (wrap64_small columnCount) by lia.
  unfold bitmapByteSize.
  destruct (Z_lt_le_dec (columnCount + 7) (2 ^ 63)) as [Hs|Hb].
  - rewrite wrap64_small by lia. intros _.
    rewrite Z.quot_div_nonneg by lia.
    pose proof (Z.div_mod (columnCount + 7) 8 ltac:(lia)).
    pose proof (Z.mod_pos_bound (columnCount + 7) 8 ltac:(lia)). lia.
  - assert (Hw : wrap64 (columnCount + 7) = columnCount + 7 - 2 ^ 64).
    { unfold wrap64.
      replace (columnCount + 7 + 2 ^ 63)
        with (columnCount + 7 - 2 ^ 63 + 1 * 2 ^ 64) by lia.
      rewrite Z.mod_add by lia. rewrite Z.mod_small; lia. }
    rewrite Hw. intros Hq. exfalso.
    replace (columnCount + 7 - 2 ^ 64) with (- (2 ^ 64 - columnCount - 7)) in Hq by lia.
    rewrite Z.quot_opp_l in Hq by lia.
    rewrite Z.quot_div_nonneg in Hq by lia.
    assert (1 <= (2 ^ 64 - columnCount - 7) / 8)
      by (apply Z.div_le_lower_bound; lia).
    lia.
Qed.

(** C8, as the code has it.  When a rows event decodes, the first presence
    bitfield has [bitmapByteSize] of the column count bytes, which for a
    count below 2^63 is the count divided by eight and rounded up; for the
    update events of versions 1 and 2 a second bitfield is produced, of the
    same length, made of the bytes that follow the first; for every other
    type, the version-0 update event among them, none is produced. *)
Theorem decodeRowsEvent_bitmaps :
  forall (data : slice) (h : option BinFmtDescEvent) (typ : Z) (ev : BinRowsEvent),
    decodeRowsEvent data h typ = Ret ev ->
    len (ColumnsBitmap1 ev) = bitmapByteSize (wrap64 (r_ColumnCount ev))
    /\ (r_ColumnCount ev < 2 ^ 63 ->
        r_ColumnCount ev <= 8 * len (ColumnsBitmap1 ev) < r_ColumnCount ev + 8)
    /\ (typ = UpdateRowsEventV1 \/ typ = UpdateRowsEventV2 ->
        exists b2,
          ColumnsBitmap2 ev = Some b2
          /\ len b2 = len (ColumnsBitmap1 ev)
          /\ elems b2 = take (length (elems (ColumnsBitmap1 ev)))
                          (spare (ColumnsBitmap1 ev)))
    /\ (typ <> UpdateRowsEventV1 -> typ <> UpdateRowsEventV2 ->
        ColumnsBitmap2 ev = None).
Proof.
  intros data h typ ev H. unfold decodeRowsEvent in H.
  do 7 go_step H.
  match goal with
  | Hx : LengthEncodedInt _ = Ret (?cc, _, _) |- _ =>
    rename cc into columnCount; apply LengthEncodedInt_Ret in Hx as (Hcc & _)
  end.
  match goal with
  | Hx : slice_range data ?p _ = Ret _ |- _ =>
    set (pos := p) in *; apply slice_range_Ret_inv in Hx as (Hlo & Hcap & ->)
  end.
  set (bitCount := bitmapByteSize (wrap64 columnCount)) in *.
  assert (Hlen1 : length (take (Z.to_nat (pos + bitCount - pos))
                            (drop (Z.to_nat pos) (backing data)))
                  = Z.to_nat bitCount).
  { rewrite length_take, length_drop. unfold cap in Hcap. fold (backing data) in Hcap.
    lia. }
  apply go_bind_Ret_inv in H as (bitmap2 & Hb2 & H).
  inversion H; subst ev; clear H.
  cbn [ColumnsBitmap1 ColumnsBitmap2 r_ColumnCount elems spare].
  split; [|split; [|split]].
  - rewrite len_mkSlice, Hlen1. lia.
  - intros Hsmall. rewrite len_mkSlice, Hlen1, Z2Nat.id by lia.
    apply bitmapByteSize_ceil; lia.
  - intros Hty.
    assert (Hup : (typ =? UpdateRowsEventV1) || (typ =? UpdateRowsEventV2) = true).
    { destruct Hty as [-> | ->]; reflexivity. }
    rewrite Hup in Hb2. apply go_bind_Ret_inv in Hb2 as (b2 & Hr & Hb2).
    inversion Hb2; subst bitmap2; clear Hb2.
    apply slice_range_Ret_inv in Hr as (Hlo2 & Hcap2 & ->).
    eexists. split; [reflexivity|]. cbn [elems].
    split.
    + rewrite !len_mkSlice, Hlen1, length_take, length_drop.
      unfold cap in Hcap2. fold (backing data) in Hcap2. lia.
    + rewrite Hlen1. f_equal. lia.
  - intros H1 H2.
    destruct (Z.eqb_spec typ UpdateRowsEventV1); [contradiction|].
    destruct (Z.eqb_spec typ UpdateRowsEventV2); [contradiction|].
    cbn in Hb2. inversion Hb2. reflexivity.
Qed.

Lemma decodeRowsEvent_bitmaps_witness :
  exists ev b2,
    decodeRowsEvent (fresh sample_update_body) (Some sample_description)
      UpdateRowsEventV1 = Ret ev
    /\ r_ColumnCount ev = 2
    /\ elems (ColumnsBitmap1 ev) = [x03]
    /\ ColumnsBitmap2 ev = Some b2
    /\ len b2 = 1
    /\ elems b2 = take 1 (spare (ColumnsBitmap1 ev)).
Proof.
  destruct (decodeRowsEvent (fresh sample_update_body) (Some sample_description)
              UpdateRowsEventV1) as [ev|] eqn:Hdec;
    [|exfalso; vm_compute in Hdec; discriminate Hdec].
  destruct (decodeRowsEvent_bitmaps _ _ _ ev Hdec) as (Hlen & _ & Hup & _).
  destruct (Hup (or_introl eq_refl)) as (b2 & Hb2 & Hl2 & He2).
  exists ev, b2.
  vm_compute in Hdec. inversion Hdec; subst ev. cbn in *.
  repeat split; auto.
Defined.

(** C8, as the claim has it, fails: a version-0 update-rows event, whose
    body carries a second bitmap after the first, decodes with no second
    bitfield; the byte is left with the row data. *)
Lemma update_v0_counterexample :
  decodeRowsEvent (fresh sample_update_body) (Some sample_description)
    UpdateRowsEventV0
  = Ret (mkRows 0 7 6 1 None 2 (mkSlice [x03] [x01; xfc; x01; x07]) None None).
Proof. reflexivity. Qed.


Example crc32_check :
  crc32 [x31;x32;x33;x34;x35;x36;x37;x38;x39] = 0xCBF43926.
Proof. vm_compute. reflexivity. Qed.

Example LengthEncodedInt_scenarioB :
  LengthEncodedInt (fresh [x0a]) = Ret (10, false, 1)
  /\ LengthEncodedInt (fresh [xfc; x2c; x01]) = Ret (300, false, 3)
  /\ LengthEncodedInt (fresh [xfb]) = Ret (0, true, 1).
Proof. repeat split; reflexivity. Qed.

Lemma decodeEventHeader_layout_witness :
  decodeEventHeader (fresh [x64;x00;x00;x00; x02; x01;x00;x00;x00]) 19
  = Ret (Err ErrInvalidHeaderSize)
  /\ decodeEventHeader
       (fresh ([x64;x00;x00;x00; x02; x01;x00;x00;x00; x1b;x00;x00;x00;
                x8e;x00;x00;x00; x00;x00] ++ [x09])) 19
     = Ret (Ok (mkHeader 100 2 1 27 142 0))
  /\ decodeEventHeader
       (fresh ([x64;x00;x00;x00; x02; x01;x00;x00;x00; x1b;x00;x00;x00] ++ [])) 13
     = Ret (Ok (mkHeader 100 2 1 27 0 0)).
Proof.
  destruct decodeEventHeader_layout as (Hshort & Hlong & Hlegacy & _).
  split; [|split].
  - apply Hshort. vm_compute. reflexivity.
  - apply (Hlong x64 x00 x00 x00 x02 x01 x00 x00 x00 x1b x00 x00 x00
             x8e x00 x00 x00 x00 x00 [x09] [] 19).
    cbn [length]. lia.
  - apply (Hlegacy x64 x00 x00 x00 x02 x01 x00 x00 x00 x1b x00 x00 x00 [] [] 13).
    lia.
Defined.

(* ================================================================= *)
(** * Further properties of the decode engine *)

(** ** Bounds of the readers *)

Lemma index_Ret_iff (s : slice) (i : Z) :
  (exists b, index s i = Ret b) <-> 0 <= i < len s.
Proof.
  split.
  - intros (b & H). apply index_Ret_inv in H. tauto.
  - intros H. destruct s as [d sp]. rewrite len_mkSlice in H.
    destruct (lookup_lt_is_Some_2 d (Z.to_nat i)) as (b & Hb); [lia|].
    exists b. apply index_ok; [lia | exact Hb].
Qed.

Lemma Uint16_at_Ret_inv (s : slice) (pos v : Z) :
  Uint16_at s pos = Ret v -> 0 <= pos /\ pos + 2 <= len s.
Proof.
  unfold Uint16_at. intros H. go_inv H.
  apply slice_from_Ret_inv in Hm as (Hp & ->).
  unfold Uint16, len in H. cbn [elems] in H. rewrite length_drop in H.
  destruct (Z.leb_spec 2 (Z.of_nat (length (elems s) - Z.to_nat pos)));
    [|discriminate].
  unfold len in *. lia.
Qed.

Lemma Uint32_at_Ret_inv (s : slice) (pos v : Z) :
  Uint32_at s pos = Ret v -> 0 <= pos /\ pos + 4 <= len s.
Proof.
  unfold Uint32_at. intros H. go_inv H.
  apply slice_from_Ret_inv in Hm as (Hp & ->).
  unfold Uint32, len in H. cbn [elems] in H. rewrite length_drop in H.
  destruct (Z.leb_spec 4 (Z.of_nat (length (elems s) - Z.to_nat pos)));
    [|discriminate].
  unfold len in *. lia.
Qed.

Lemma decodeEventHeader_Ok_iff (data : slice) (size : Z) :
  (exists h, decodeEventHeader data size = Ret (Ok h))
  <-> size <= len data /\ 13 <= len data /\ (13 < size -> 19 <= len data).
Proof.
  split.
  - intros (h & H). unfold decodeEventHeader in H.
    destruct (Z.ltb_spec (len data) size); [discriminate|].
    go_inv H. go_inv H. go_inv H. go_inv H.
    apply Uint32_at_Ret_inv in Hm2.
    split; [lia|]. split; [lia|]. intros Hs.
    destruct (Z.ltb_spec 13 size); [|lia].
    go_inv H. go_inv H. apply Uint16_at_Ret_inv in Hm4. lia.
  - intros (Hs & H13 & H19). destruct data as [d sp]. rewrite len_mkSlice in *.
    unfold decodeEventHeader. rewrite len_mkSlice.
    destruct (Z.ltb_spec (Z.of_nat (length d)) size); [lia|]. cbv zeta.
    destruct (lookup_lt_is_Some_2 d (Z.to_nat (0 + 4))) as (b & Hb); [lia|].
    rewrite !Uint32_at_ok by lia. rewrite (index_ok d sp _ b) by (lia || exact Hb).
    cbn [go_bind].
    destruct (Z.ltb_spec 13 size).
    + rewrite Uint32_at_ok, Uint16_at_ok by lia. cbn [go_bind]. eauto.
    + eauto.
Qed.

Lemma decodeEventHeader_Err_iff (data : slice) (size : Z) :
  (exists e, decodeEventHeader data size = Ret (Err e)) <-> len data < size.
Proof.
  split.
  - intros (e & H). unfold decodeEventHeader in H.
    destruct (Z.ltb_spec (len data) size); [assumption|].
    go_inv H. go_inv H. go_inv H. go_inv H.
    destruct (13 <? size); [go_inv H; go_inv H|]; discriminate.
  - intros H. exists ErrInvalidHeaderSize. unfold decodeEventHeader.
    destruct (Z.ltb_spec (len data) size); [reflexivity | lia].
Qed.

(** X1.  The event-header codec panics exactly when it is given at least
    [size] bytes but fewer than the 13 it reads, or, for a width above 13,
    fewer than the 19 it reads; the only error it returns is the one for
    fewer than [size] bytes. *)
Theorem decodeEventHeader_panics_iff :
  forall (data : slice) (size : Z),
    (decodeEventHeader data size = Panic
     <-> size <= len data /\ (len data < 13 \/ (13 < size /\ len data < 19)))
    /\ (forall e, decodeEventHeader data size = Ret (Err e) ->
                  e = ErrInvalidHeaderSize /\ len data < size).
Proof.
  intros data size.
  pose proof (decodeEventHeader_Ok_iff data size) as HOk.
  pose proof (decodeEventHeader_Err_iff data size) as HErr.
  split.
  - destruct (decodeEventHeader data size) as [[h|e]|] eqn:E.
    + split; [discriminate|]. intros Hp.
      destruct HOk as (HOk & _). specialize (HOk (ex_intro _ h eq_refl)). lia.
    + split; [discriminate|]. intros Hp.
      destruct HErr as (HErr & _). specialize (HErr (ex_intro _ e eq_refl)). lia.
    + split; [|reflexivity]. intros _.
      destruct (Z_lt_le_dec (len data) size) as [Hlt|Hge].
      * apply HErr in Hlt as (e & He). discriminate.
      * split; [exact Hge|].
        destruct (Z_lt_le_dec (len data) 13) as [|H13]; [left; assumption|].
        right. destruct (Z_lt_le_dec 13 size) as [Hs|Hs].
        -- split; [exact Hs|].
           destruct (Z_lt_le_dec (len data) 19) as [|H19]; [assumption|].
           destruct HOk as (_ & HOk).
           destruct HOk as (h & Hh); [lia | discriminate].
        -- destruct HOk as (_ & HOk).
           destruct HOk as (h & Hh); [lia | discriminate].
  - intros e He. split.
    + unfold decodeEventHeader in He.
      destruct (len data <? size); [inversion He; reflexivity|].
      go_inv He. go_inv He. go_inv He. go_inv He.
      destruct (13 <? size); [go_inv He; go_inv He|]; discriminate.
    + apply HErr. eauto.
Qed.

(** X2.  The format description decoder never returns an error; it panics
    exactly on a body of fewer than 57 bytes.  When it returns, the binlog
    version is the first two bytes, the header length is the byte at 56 (so
    below 256), the event-type header lengths are all the bytes from 57 on,
    the server version is cut from the 50 bytes at 2 and the checksum flag
    is [hasChecksum] of it. *)
Theorem decodeFmtDescEvent_outcome :
  forall (X : Extern) (data : slice),
    (decodeFmtDescEvent X data = Panic <-> len data < 57)
    /\ (forall d,
           decodeFmtDescEvent X data = Ret d ->
           BinlogVersion d = le_value (take 2 (elems data))
           /\ MySQLVersion d = bytes_Trim (take 50 (drop 2 (elems data))) Itoa_0
           /\ CreateTime d = le_value (take 4 (drop 52 (elems data)))
           /\ Some (EventHeaderLength d) = byte_Z <$> elems data !! 56%nat
           /\ 0 <= EventHeaderLength d <= 255
           /\ elems (EventTypeHeader d) = drop 57 (elems data)
           /\ hasCheckSum d = hasChecksum X (MySQLVersion d)).
Proof.
  intros X data. destruct data as [d sp].
  assert (Hgood : 57 <= len (mkSlice d sp) ->
            exists b, d !! 56%nat = Some b
            /\ decodeFmtDescEvent X (mkSlice d sp)
               = Ret (mkFmtDesc (le_value (take 2 d))
                        (bytes_Trim (take 50 (drop 2 d)) Itoa_0)
                        (le_value (take 4 (drop 52 d))) (byte_Z b)
                        (mkSlice (drop 57 d) sp)
                        (hasChecksum X (bytes_Trim (take 50 (drop 2 d)) Itoa_0)))).
  { rewrite len_mkSlice. intros Hl.
    destruct (lookup_lt_is_Some_2 d 56) as (b & Hb); [lia|].
    exists b. split; [exact Hb|].
    unfold decodeFmtDescEvent. cbv zeta.
    rewrite Uint16_ok by lia. cbn [go_bind].
    unfold slice_range, cap, backing. cbn [elems spare].
    rewrite length_app.
    destruct (Z.leb_spec (0 + 2 + 50) (Z.of_nat (length d + length sp))); [|lia].
    cbn [Z.leb Z.add Pos.add Pos.succ Z.compare Pos.compare Pos.compare_cont
         andb go_bind elems].
    rewrite Uint32_at_ok by lia.
    rewrite (index_ok d sp _ b) by (lia || exact Hb).
    rewrite slice_from_ok by lia. cbn [go_bind].
    change (Z.to_nat (52 - 2)) with 50%nat. change (Z.to_nat 2) with 2%nat.
    change (Z.to_nat 52) with 52%nat. change (Z.to_nat 57) with 57%nat.
    rewrite drop_app_le by lia. rewrite take_app_le by (rewrite length_drop; lia).
    reflexivity. }
  split.
  - split.
    + intros Hp. destruct (Z_lt_le_dec (len (mkSlice d sp)) 57) as [|Hge];
        [assumption|].
      destruct (Hgood Hge) as (b & _ & Hr). rewrite Hr in Hp. discriminate.
    + rewrite len_mkSlice. intros Hl.
      destruct (decodeFmtDescEvent X (mkSlice d sp)) as [r|] eqn:E; [|reflexivity].
      exfalso. unfold decodeFmtDescEvent in E. cbv zeta in E.
      do 4 go_inv E. apply index_Ret_inv in Hm2. rewrite len_mkSlice in Hm2. lia.
  - intros r Hr.
    destruct (Z_lt_le_dec (len (mkSlice d sp)) 57) as [Hlt|Hge].
    + exfalso. rewrite len_mkSlice in Hlt.
      unfold decodeFmtDescEvent in Hr. cbv zeta in Hr.
      do 4 go_inv Hr. apply index_Ret_inv in Hm2. rewrite len_mkSlice in Hm2. lia.
    + destruct (Hgood Hge) as (b & Hb & Hg). rewrite Hg in Hr.
      inversion Hr; subst r; clear Hr. cbn.
      rewrite Hb. cbn. pose proof (byte_Z_range b).
      repeat split; try reflexivity; lia.
Qed.

(** X3.  [NewBinFileDecoder] succeeds exactly on a file that begins with the
    four bytes FE 62 69 6E; the decoder it returns holds the options, the
    bytes after the magic number, no format description and an empty table
    registry.  On an empty file the error is that of the read, on any other
    file it is the invalid-header error. *)
Theorem NewBinFileDecoder_magic :
  forall (file : list byte) (options : option BinReaderOption),
    (forall decoder,
        NewBinFileDecoder file options = Ok decoder
        <-> exists events,
            file = [xfe; x62; x69; x6e] ++ events
            /\ decoder = mkDecoder options events (mkInfo None ∅))
    /\ (forall e,
           NewBinFileDecoder file options = Err e ->
           e = if bool_decide (file = []) then io_EOF else ErrInvalidFileHeader).
Proof.
  intros file options.
  destruct file as [|a [|b [|c [|d rest]]]];
    try (split; [intros decoder; split;
                 [discriminate | intros (ev & Hf & _); discriminate Hf]
                |intros e He; cbn in He; inversion He; reflexivity]).
  - split; [intros decoder; split;
            [cbn; case_bool_decide; discriminate
            |intros (ev & Hf & _); discriminate Hf]|].
    intros e He. cbn in He. case_bool_decide; [discriminate|].
    inversion He; reflexivity.
  - split; [intros decoder; split;
            [cbn; case_bool_decide; discriminate
            |intros (ev & Hf & _); discriminate Hf]|].
    intros e He. cbn in He. case_bool_decide; [discriminate|].
    inversion He; reflexivity.
  - split; [intros decoder; split;
            [cbn; case_bool_decide; discriminate
            |intros (ev & Hf & _); discriminate Hf]|].
    intros e He. cbn in He. case_bool_decide; [discriminate|].
    inversion He; reflexivity.
  - split.
    + intros decoder. unfold NewBinFileDecoder. cbn [take drop length repeat Nat.sub app].
      split.
      * case_bool_decide as Hm; [|discriminate].
        intros Hd. inversion Hd; subst decoder.
        unfold binFileHeader in Hm. inversion Hm; subst.
        exists rest. split; reflexivity.
      * intros (ev & Hf & ->). inversion Hf; subst.
        rewrite bool_decide_true by reflexivity. reflexivity.
    + intros e. unfold NewBinFileDecoder. cbn [take drop length repeat Nat.sub app].
      case_bool_decide; [discriminate|]. intros He. inversion He. reflexivity.
Qed.

(** ** Frames *)

(** The frame [readEvent] returns is the next [EventSize] bytes of the
    file: the header bytes of the current width, then the body bytes. *)
Lemma readEvent_frame (X : Extern) (decoder : BinFileDecoder)
    (headerData data : slice) (header : BinEventHeader) (rd : list byte) :
  eventHeaderLength decoder < 2 ^ 63 ->
  readEvent X decoder = Ret (Ok (headerData, header, data), rd) ->
  len headerData = eventHeaderLength decoder
  /\ len data = EventSize header - eventHeaderLength decoder
  /\ 0 <= eventHeaderLength decoder <= EventSize header
  /\ buf decoder = elems headerData ++ elems data ++ rd
  /\ spare headerData = [] /\ spare data = [].
Proof.
  intros Hhl H. apply readEvent_Ok in H as (rd0 & H1 & H2 & _ & H4).
  apply decodeEventHeader_Ok_range in H2 as (_ & _ & Hes & _).
  pose proof (ReadNBytes_len _ _ _ _ H1) as (L1 & S1 & _).
  pose proof (ReadNBytes_len _ _ _ _ H4) as (L4 & S4 & _).
  apply ReadNBytes_Ok in H1 as (B1 & -> & ->).
  apply ReadNBytes_Ok in H4 as (B4 & -> & ->).
  rewrite wrap64_small in * by lia.
  repeat split; try assumption; try lia.
  cbn [elems fresh]. rewrite !take_drop. reflexivity.
Qed.

(** ** Errors of the body decoders *)

Lemma LengthEncodedString_error (b s : slice) (isNull : bool) (n : Z) (e : error) :
  LengthEncodedString b = Ret (s, isNull, n, Some e) -> e = ErrTruncated.
Proof.
  unfold LengthEncodedString. intros H. go_step H.
  destruct (_ <=? _); [go_step H|]; inversion H; reflexivity.
Qed.

Ltac bools :=
  repeat match goal with
         | H : (_ || _) = true |- _ => apply orb_true_iff in H; destruct H as [H|H]
         | H : (_ || _) = false |- _ => apply orb_false_iff in H; destruct H as [? H]
         | H : (_ =? _) = true |- _ => apply Z.eqb_eq in H
         | H : (_ =? _) = false |- _ => apply Z.eqb_neq in H
         end.

(** One column of [decodeMeta]: an error is the unknown-type error, for a
    type without a case; an entry is for a type with a case, and at most
    two bytes of metadata were read. *)
Lemma decodeMeta_column_inv (data : slice) (pos t : Z) (r : res (ColumnType * Z)) :
  decodeMeta_column data pos t = Ret r ->
  match r with
  | Err e => e = ErrUnknownFieldType /\ metaKnown t = false
  | Ok (_, pos') => metaKnown t = true /\ pos <= pos' <= pos + 2
  end.
Proof.
  unfold decodeMeta_column. intros H.
  destruct (t =? MySQLTypeString) eqn:E1.
  { do 2 go_inv H. destruct (_ || _) in H; inversion H; subst r;
      (split; [bools; subst t; reflexivity | lia]). }
  destruct (_ || _) eqn:E2 in H.
  { go_inv H. inversion H; subst r. split; [bools; subst t; reflexivity | lia]. }
  destruct (t =? MySQLTypeBit) eqn:E3.
  { do 2 go_inv H. inversion H; subst r. split; [bools; subst t; reflexivity | lia]. }
  destruct (_ || _) eqn:E4 in H.
  { go_inv H. inversion H; subst r. split; [bools; subst t; reflexivity | lia]. }
  destruct (t =? MySQLTypeNewDecimal) eqn:E5.
  { do 2 go_inv H. inversion H; subst r. split; [bools; subst t; reflexivity | lia]. }
  destruct (_ || _) eqn:E6 in H.
  { go_inv H. inversion H; subst r. split; [bools; subst t; reflexivity | lia]. }
  destruct (_ || _) eqn:E7 in H.
  { inversion H; subst r. split; [bools; subst t; reflexivity | lia]. }
  inversion H; subst r. split; [reflexivity|].
  bools. unfold metaKnown.
  rewrite !(proj2 (Z.eqb_neq _ _)) by assumption. reflexivity.
Qed.

Lemma decodeMeta_loop_inv (data : slice) (types : list Z) :
  forall (pos : Z) (r : res (list ColumnType)),
    decodeMeta_loop data pos types = Ret r ->
    match r with
    | Err e => e = ErrUnknownFieldType /\ Exists (fun t => metaKnown t = false) types
    | Ok metas => length metas = length types
                  /\ Forall (fun t => metaKnown t = true) types
    end.
Proof.
  induction types as [|t rest IH]; intros pos r H; cbn [decodeMeta_loop] in H.
  - inversion H. split; [reflexivity | constructor].
  - go_inv H. apply decodeMeta_column_inv in Hm.
    destruct a as [[m pos']|e].
    + destruct Hm as (Hk & _). go_inv H. apply IH in Hm.
      destruct a as [ms|e]; inversion H; subst r.
      * destruct Hm as (Hl & Hf). cbn [length]. split; [lia | constructor; auto].
      * destruct Hm as (-> & Hex). split; [reflexivity | apply Exists_cons_tl; exact Hex].
    + destruct Hm as (-> & Hk). inversion H; subst r.
      split; [reflexivity | apply Exists_cons_hd; exact Hk].
Qed.

Lemma tableIDLen_of_cases (h : option BinFmtDescEvent) (i n : Z) :
  tableIDLen_of h i = Ret n -> (n = 4 \/ n = 6) /\ h <> None.
Proof.
  unfold tableIDLen_of. destruct h as [d|]; [|discriminate].
  intros H. go_inv H. split; [|discriminate].
  destruct (_ =? _); inversion H; auto.
Qed.

(** A table id read from the first [n] bytes, [n] being 4 or 6. *)
Lemma FixedLengthInt_slice_to (data idb : slice) (n : Z) :
  n = 4 \/ n = 6 ->
  slice_to data n = Ret idb ->
  0 <= FixedLengthInt idb < 256 ^ n.
Proof.
  intros Hn H. unfold slice_to in H.
  apply slice_range_Ret_inv in H as (_ & Hcap & ->).
  unfold FixedLengthInt, wrapu64. cbn [elems].
  set (l := take _ _).
  assert (Hl : Z.of_nat (length l) = n).
  { unfold l. rewrite length_take, length_drop. unfold cap in Hcap.
    fold (backing data) in Hcap. lia. }
  pose proof (le_value_nonneg l). pose proof (le_value_bound l) as Hb.
  rewrite Hl in Hb.
  assert (256 ^ n <= 2 ^ 64) by (destruct Hn; subst n; lia).
  rewrite Z.mod_small; lia.
Qed.

Lemma columnTypes_Ret (data : slice) (pos columnCount : Z) (types : list Z) :
  0 <= columnCount ->
  columnTypes data pos columnCount = Ret types ->
  columnCount < 2 ^ 63 /\ Z.of_nat (length types) = columnCount.
Proof.
  unfold columnTypes. intros Hc H.
  destruct (Z.leb_spec (2 ^ 63) columnCount); [discriminate|].
  destruct (Z.leb_spec columnCount 0).
  - inversion H. cbn. lia.
  - destruct (Z.leb_spec 0 pos); [|discriminate].
    destruct (Z.leb_spec (pos + columnCount) (len data)); [|discriminate].
    cbn in H. inversion H. split; [lia|].
    rewrite length_fmap, length_take, length_drop. unfold len in *. lia.
Qed.

(** What [decodeTableMapEvent] returns: a table that satisfies
    [tableMap_ok] and no error; or the table without its null bitmap and
    [io.EOF]; or no table and the error of the metadata. *)
Lemma decodeTableMapEvent_inv (data : slice) (h : option BinFmtDescEvent)
    (ot : option BinTableMapEvent) (oe : option error) :
  decodeTableMapEvent data h = Ret (ot, oe) ->
  h <> None
  /\ match ot, oe with
     | Some t, None => tableMap_ok t
     | Some t, Some e => e = io_EOF /\ NullBitmap t = None
     | None, Some e => e = ErrTruncated \/ e = ErrUnknownFieldType
     | None, None => False
     end.
Proof.
  unfold decodeTableMapEvent. intros H.
  do 12 go_step H.
  match goal with
  | Hx : tableIDLen_of h _ = Ret ?n |- _ =>
    apply tableIDLen_of_cases in Hx as (Hn & Hh)
  end.
  split; [exact Hh|].
  match goal with
  | Hx : slice_to data _ = Ret _ |- _ =>
    pose proof (FixedLengthInt_slice_to _ _ _ Hn Hx) as Hid
  end.
  match goal with
  | Hx : LengthEncodedInt _ = Ret (?cc, _, _) |- _ =>
    apply LengthEncodedInt_Ret in Hx as (Hcc & _)
  end.
  match goal with
  | Hx : columnTypes _ _ _ = Ret _ |- _ =>
    apply (columnTypes_Ret _ _ _ _ Hcc) in Hx as (Hsmall & Hlen)
  end.
  match type of H with
  | match ?err with _ => _ end = _ => destruct err as [e|]
  end.
  { inversion H; subst ot oe. left.
    match goal with
    | Hx : LengthEncodedString _ = _ |- _ =>
      exact (LengthEncodedString_error _ _ _ _ _ Hx)
    end. }
  go_step H.
  match goal with
  | Hx : decodeMeta _ _ = Ret ?m |- _ =>
    unfold decodeMeta in Hx; apply decodeMeta_loop_inv in Hx; destruct m as [metas|e]
  end.
  2: { inversion H; subst ot oe. right. tauto. }
  go_step H.
  match type of H with
  | (if ?c then _ else _) = _ => destruct c eqn:Eb
  end; inversion H; subst ot oe; clear H.
  - apply Z.eqb_eq in Eb.
    unfold tableMap_ok. cbn.
    repeat split; try tauto; try lia.
    eexists. split; [reflexivity|].
    rewrite Eb. apply bitmapByteSize_ceil; [lia|].
    rewrite <- Eb. unfold len. lia.
  - split; reflexivity.
Qed.

Lemma decodeFmtDescEvent_header_length (X : Extern) (data : slice) (d : BinFmtDescEvent) :
  decodeFmtDescEvent X data = Ret d -> 0 <= EventHeaderLength d <= 255.
Proof.
  unfold decodeFmtDescEvent. intros H. do 5 go_inv H.
  inversion H; subst d. cbn. pose proof (byte_Z_range a2). lia.
Qed.

(** ** What a decode changes *)

(** The [switch] of [DecodeEvent]: the format description changes only in
    the case of the format description event, the registry only in the case
    of the table-map event, and neither when an error comes out. *)
Lemma decodeBody_frame (X : Extern) (b b' : BinaryLogInfo) (typ : Z) (data : slice)
    (r : res BinEventBody) :
  decodeBody X b typ data = Ret (b', r) ->
  (typ <> FormatDescriptionEvent -> description b' = description b)
  /\ (typ <> TableMapEvent -> tableInfo b' = tableInfo b)
  /\ (forall e, r = Err e -> b' = b).
Proof.
  unfold decodeBody. intros H.
  repeat match type of H with
         | (if ?c then _ else _) = _ => destruct c eqn:?
         end;
    bools; subst;
    repeat match type of H with
           | go_bind _ _ = _ => go_step H
           | match ?x with _ => _ end = _ => destruct x
           end;
    try discriminate;
    inversion H; subst; repeat split; intros; try reflexivity;
    try congruence; try contradiction.
Qed.




(** The ways through [DecodeEvent]. *)
Lemma DecodeEvent_cases (X : Extern) (decoder decoder' : BinFileDecoder)
    (r : option BinEvent * option error) :
  DecodeEvent X decoder = Ret (decoder', r) ->
  Option decoder' = Option decoder
  /\ ((exists e,
          readEvent X decoder = Ret (Err e, buf decoder')
          /\ r = (None, Some e) /\ bin decoder' = bin decoder)
      \/ exists headerData header data,
          readEvent X decoder = Ret (Ok (headerData, header, data), buf decoder')
          /\ ((EventType header <> FormatDescriptionEvent
               /\ Start (Option decoder) header = false
               /\ r = (None, None) /\ bin decoder' = bin decoder)
              \/ ((EventType header = FormatDescriptionEvent
                   \/ Start (Option decoder) header = true)
                  /\ exists ct cv data' oe,
                      Validation X (Some header) (Some (bin decoder)) headerData data
                      = Ret (ct, cv, data', oe)
                      /\ ((exists e, oe = Some e
                                     /\ r = (Some (mkEvent header None ct cv), Some e)
                                     /\ bin decoder' = bin decoder)
                          \/ (oe = None
                              /\ exists rb,
                                  decodeBody X (bin decoder) (EventType header) data'
                                  = Ret (bin decoder', rb)
                                  /\ r = match rb with
                                         | Err e => (None, Some e)
                                         | Ok body =>
                                           (Some (mkEvent header (Some body) ct cv), None)
                                         end))))).
Proof.
  intros H. split; [exact (DecodeEvent_Option _ _ _ _ H)|].
  unfold DecodeEvent in H. go_inv H.
  destruct a as [[[[hd h] dt]|e] rd].
  - right. exists hd, h, dt. cbn [with_buf Option bin] in H.
    destruct (Z.eqb_spec (EventType h) FormatDescriptionEvent) as [Ef|Ef];
      destruct (Start (Option decoder) h) eqn:Es; cbn [negb andb] in H.
    all: try (inversion H; subst; cbn; split; [exact Hm|]; left; auto; fail).
    all: go_inv H; destruct a as [[[ct cv] dt'] oe];
      (assert (Hbuf : buf decoder' = rd);
       [destruct oe; [inversion H; reflexivity|];
        go_inv H; destruct a as [b [body|e]]; inversion H; reflexivity|]);
      subst rd; split; [exact Hm|]; right; (split; [auto|]);
      exists ct, cv, dt', oe; (split; [exact Hm0|]);
      destruct oe as [e|];
      [left; exists e; inversion H; subst; auto
      |right; split; [reflexivity|];
       go_inv H; destruct a as [b rb]; exists rb;
       destruct rb; inversion H; subst; cbn; auto].
  - left. exists e. inversion H; subst. cbn. auto.
Qed.




Example sample_stop_decodes :
  DecodeEvent sample_extern
    (mkDecoder None (sample_stop ++ sample_xid) (mkInfo (Some sample_description) ∅))
  = Ret (mkDecoder None sample_xid (mkInfo (Some sample_description) ∅),
         (None, Some ErrNotSupportEvent)).
Proof. vm_compute. reflexivity. Qed.


(** X6.  [DecodeEvent] changes the decode context only by returning an
    event: the options never change; a call that returns an error, or
    nothing, leaves the format description and the registry as they were;
    a call that returns an event other than a format description event
    leaves the format description, and one that returns an event other than
    a table-map event leaves the registry. *)
Theorem DecodeEvent_context_frame :
  forall (X : Extern) (decoder decoder' : BinFileDecoder)
         (oev : option BinEvent) (oe : option error),
    DecodeEvent X decoder = Ret (decoder', (oev, oe)) ->
    Option decoder' = Option decoder
    /\ (oe <> None \/ oev = None -> bin decoder' = bin decoder)
    /\ (forall ev, oev = Some ev ->
                   EventType (Header ev) <> FormatDescriptionEvent ->
                   description (bin decoder') = description (bin decoder))
    /\ (forall ev, oev = Some ev ->
                   EventType (Header ev) <> TableMapEvent ->
                   tableInfo (bin decoder') = tableInfo (bin decoder)).
Proof.
  intros X decoder decoder' oev oe H.
  apply DecodeEvent_cases in H as (Ho & H). split; [exact Ho|].
  destruct H as [(e & _ & Hr & Hb)|(hd & h & dt & _ & H)].
  { inversion Hr; subst. rewrite Hb. repeat split; auto; discriminate. }
  destruct H as [(_ & _ & Hr & Hb)|(_ & ct & cv & dt' & oe' & _ & H)].
  { inversion Hr; subst. rewrite Hb. repeat split; auto; discriminate. }
  destruct H as [(e & -> & Hr & Hb)|(-> & rb & Hbody & Hr)].
  { inversion Hr; subst. rewrite Hb. repeat split; auto. }
  apply decodeBody_frame in Hbody as (Hd & Ht & He).
  destruct rb as [body|e]; inversion Hr; subst oev oe.
  - split; [intros [Hx|Hx]; [contradiction | discriminate]|].
    split; intros ev Hev Hty; inversion Hev; subst ev; cbn in Hty; auto.
  - split; [intros _; apply (He e eq_refl)|].
    split; discriminate.
Qed.

(** X7.  A table-map event that [DecodeEvent] returns is registered under
    its table id, replacing what was registered there; every other table
    id keeps its entry, and the format description is unchanged. *)
Theorem DecodeEvent_registers_table :
  forall (X : Extern) (decoder decoder' : BinFileDecoder) (ev : BinEvent),
    DecodeEvent X decoder = Ret (decoder', (Some ev, None)) ->
    EventType (Header ev) = TableMapEvent ->
    exists t,
      Body ev = Some (BodyTableMap t)
      /\ tableInfo (bin decoder') = <[tm_TableID t := t]> (tableInfo (bin decoder))
      /\ tableInfo (bin decoder') !! tm_TableID t = Some t
      /\ (forall id, id <> tm_TableID t ->
                     tableInfo (bin decoder') !! id = tableInfo (bin decoder) !! id)
      /\ description (bin decoder') = description (bin decoder)
      /\ tableMap_ok t.
Proof.
  intros X decoder decoder' ev H Hty.
  apply DecodeEvent_event_inv in H
    as (hd & dt & rd & dt' & body & _ & _ & _ & Hbody & HB & _).
  rewrite Hty in Hbody.
  apply decodeBody_TableMap in Hbody as (t & Htm & -> & ->).
  apply decodeTableMapEvent_inv in Htm as (_ & Hok).
  exists t. cbn [tableInfo description].
  split; [exact HB|]. split; [reflexivity|].
  split; [apply lookup_insert_eq|].
  split; [intros id Hid; apply lookup_insert_ne; congruence|].
  split; [reflexivity | exact Hok].
Qed.

Example sample_table_map_decodes :
  let t := mkTableMap 7 6 1 [x64;x62] [x74] 1 [3]
             [mkColumnType 0 [] false 0 0 0 0 0 0 0 0] (Some (fresh [x00])) in
  DecodeEvent sample_extern
    (mkDecoder None (sample_table_map ++ sample_xid)
       (mkInfo (Some sample_description) ∅))
  = Ret (mkDecoder None sample_xid (mkInfo (Some sample_description) {[7 := t]}),
         (Some (mkEvent (mkHeader 100 19 1 38 153 0) (Some (BodyTableMap t))
                  x00 (fresh [])), None)).
Proof. vm_compute. reflexivity. Qed.

Lemma DecodeEvent_registers_table_witness :
  exists t,
    tm_TableID t = 7
    /\ tm_Table t = [x74]
    /\ tableMap_ok t
    /\ forall id, id <> tm_TableID t ->
                  ({[7 := t]} : gmap Z BinTableMapEvent) !! id = None.
Proof.
  destruct (DecodeEvent_registers_table sample_extern _ _ _
              sample_table_map_decodes eq_refl)
    as (t & HB & _ & _ & Hother & _ & Hok).
  cbn in HB. inversion HB; subst t.
  match type of Hok with tableMap_ok ?t => exists t end.
  split; [reflexivity|].
  split; [reflexivity|]. split; [exact Hok|].
  intros id Hid. etransitivity; [exact (Hother id Hid) | apply lookup_empty].
Defined.

(** ** Invariants of the walk *)

Lemma decodeBody_Ok_type (X : Extern) (b b' : BinaryLogInfo) (typ : Z) (data : slice)
    (body : BinEventBody) :
  decodeBody X b typ data = Ret (b', Ok body) -> body_of_type typ body.
Proof.
  unfold decodeBody. intros H.
  destruct (typ =? FormatDescriptionEvent) eqn:E1.
  { go_step H. inversion H; subst. apply Z.eqb_eq in E1. exact E1. }
  destruct (typ =? QueryEvent) eqn:E2.
  { do 2 go_step H. inversion H; subst. apply Z.eqb_eq in E2. exact E2. }
  destruct (typ =? XIDEvent) eqn:E3.
  { go_step H. inversion H; subst. apply Z.eqb_eq in E3. exact E3. }
  destruct (typ =? IntvarEvent) eqn:E4.
  { go_step H. inversion H; subst. apply Z.eqb_eq in E4. exact E4. }
  destruct (typ =? RotateEvent) eqn:E5.
  { do 2 go_step H. inversion H; subst. apply Z.eqb_eq in E5. exact E5. }
  destruct (typ =? TableMapEvent) eqn:E6.
  { go_step H.
    match type of H with
    | match ?oe with _ => _ end = _ => destruct oe; [discriminate|]
    end.
    match type of H with
    | match ?ot with _ => _ end = _ => destruct ot; [|discriminate]
    end.
    inversion H; subst. apply Z.eqb_eq in E6. exact E6. }
  destruct (isRowsEvent typ) eqn:E7.
  { go_step H. inversion H; subst. cbn. split; [exact E7|].
    unfold decodeRowsEvent in Hm. do 8 go_step Hm. inversion Hm. reflexivity. }
  destruct (_ || _) eqn:E8 in H.
  { inversion H; subst. cbn. bools; auto. }
  destruct (typ =? UnknownEvent); discriminate.
Qed.

Lemma DecodeEvent_context_ok (X : Extern) (decoder decoder' : BinFileDecoder)
    (r : option BinEvent * option error) :
  context_ok (bin decoder) ->
  DecodeEvent X decoder = Ret (decoder', r) ->
  context_ok (bin decoder').
Proof.
  intros Hok H.
  apply DecodeEvent_cases in H as (_ & [(e & _ & _ & ->)|(hd & h & dt & _ & H)]);
    [exact Hok|].
  destruct H as [(_ & _ & _ & ->)|(_ & ct & cv & dt' & oe & _ & H)]; [exact Hok|].
  destruct H as [(e & _ & _ & ->)|(_ & rb & Hbody & _)]; [exact Hok|].
  destruct rb as [body|e].
  2: { apply decodeBody_frame in Hbody as (_ & _ & He). rewrite (He e eq_refl).
       exact Hok. }
  destruct Hok as (Hd & Ht).
  destruct (Z.eq_dec (EventType h) FormatDescriptionEvent) as [Ef|Ef].
  { rewrite Ef in Hbody.
    apply decodeBody_FormatDescription in Hbody as (d & Hdec & _ & ->).
    split; cbn [description tableInfo]; [|exact Ht].
    intros d' Hd'. inversion Hd'; subst d'.
    exact (decodeFmtDescEvent_header_length _ _ _ Hdec). }
  destruct (Z.eq_dec (EventType h) TableMapEvent) as [Em|Em].
  { rewrite Em in Hbody.
    apply decodeBody_TableMap in Hbody as (t & Htm & _ & ->).
    apply decodeTableMapEvent_inv in Htm as (_ & Hok).
    split; cbn [description tableInfo]; [exact Hd|].
    intros id t' Hl.
    destruct (Z.eq_dec (tm_TableID t) id) as [<-|Hne].
    - rewrite lookup_insert_eq in Hl. inversion Hl; subst t'. auto.
    - rewrite lookup_insert_ne in Hl by exact Hne. exact (Ht id t' Hl). }
  apply decodeBody_frame in Hbody as (Hd' & Ht' & _).
  split.
  - rewrite (Hd' Ef). exact Hd.
  - rewrite (Ht' Em). exact Ht.
Qed.

(** A property of the decoder that every decode keeps and a property of
    the events the decodes return hold, at the end of the walk, of the
    decoder left and of the events the consumer was called with. *)
Lemma WalkEvent_loop_invariant (X : Extern) {C : Type}
    (f : C -> BinEvent -> C * (bool * option error))
    (P : BinFileDecoder -> Prop) (Q : BinEvent -> Prop) :
  (forall d d' r, P d -> DecodeEvent X d = Ret (d', r) -> P d') ->
  (forall d d' ev, P d -> DecodeEvent X d = Ret (d', (Some ev, None)) ->
                   Stop (Option d) (Header ev) = false -> Q ev) ->
  forall (n : nat) (decoder : BinFileDecoder) (c : C) (w : Walked C),
    P decoder ->
    WalkEvent_loop X f n decoder c = Some (Ret w) ->
    P (w_decoder w) /\ Forall Q (w_calls w).
Proof.
  intros HP HQ. induction n as [|n IH]; intros decoder c w Hd H; [discriminate|].
  cbn [WalkEvent_loop] in H.
  destruct (DecodeEvent X decoder) as [[d' [event [e|]]]|] eqn:E; [| |discriminate].
  - pose proof (HP _ _ _ Hd E).
    destruct (bool_decide (e = io_EOF)); inversion H; subst; cbn; auto.
  - pose proof (HP _ _ _ Hd E) as Hd'.
    pose proof (DecodeEvent_Option _ _ _ _ E) as Ho.
    destruct event as [event|]; [|exact (IH _ _ _ Hd' H)].
    destruct (Stop (Option d') (Header event)) eqn:Es;
      [inversion H; subst; cbn; auto|].
    rewrite Ho in Es. pose proof (HQ _ _ _ Hd E Es) as Hq.
    destruct (f c event) as [c' [isContinue err]].
    destruct (negb isContinue || bool_decide (err <> None)).
    + inversion H; subst. cbn. auto.
    + destruct (WalkEvent_loop X f n d' c') as [[w'|]|] eqn:Ew; try discriminate.
      inversion H; subst. cbn. destruct (IH _ _ _ Hd' Ew). auto.
Qed.

Lemma WalkEvent_invariant (X : Extern) {C : Type}
    (f : C -> BinEvent -> C * (bool * option error))
    (P : BinFileDecoder -> Prop) (Q : BinEvent -> Prop) :
  (forall d d' r, P d -> DecodeEvent X d = Ret (d', r) -> P d') ->
  (forall d d' ev, P d -> DecodeEvent X d = Ret (d', (Some ev, None)) ->
                   Stop (Option d) (Header ev) = false -> Q ev) ->
  forall (decoder : BinFileDecoder) (c : C) (w : Walked C),
    P decoder ->
    WalkEvent X f decoder c = Ret w ->
    P (w_decoder w) /\ Forall Q (w_calls w).
Proof.
  intros HP HQ decoder c w Hd H.
  apply (WalkEvent_loop_invariant X f P Q HP HQ (S (length (buf decoder))) decoder c);
    [exact Hd|].
  rewrite WalkEvent_loop_enough by lia. rewrite H. reflexivity.
Qed.

(** X8.  The decode context stays well formed through a walk: if, before
    the walk, the header length of the format description (when there is
    one) is a byte and every table of the registry is stored under its own
    id and is a table-map event that decoded (id of 4 or 6 bytes, one type
    and one metadata entry per column, all of known types, a null bitmap of
    the byte length due), then the same holds of the decoder the walk
    leaves.  It holds of the decoder of a file just opened. *)
Theorem WalkEvent_keeps_context_ok :
  forall (X : Extern) (C : Type) (f : C -> BinEvent -> C * (bool * option error))
         (decoder : BinFileDecoder) (c : C) (w : Walked C),
    (context_ok (bin decoder) ->
     WalkEvent X f decoder c = Ret w ->
     context_ok (bin (w_decoder w))
     /\ 0 <= eventHeaderLength (w_decoder w) <= 255)
    /\ (forall options events, context_ok (bin (opened options events))).
Proof.
  intros X C f decoder c w. split.
  - intros Hok H.
    assert (HP : forall d d' r, context_ok (bin d) ->
                   DecodeEvent X d = Ret (d', r) -> context_ok (bin d'))
      by (intros d d' r; apply DecodeEvent_context_ok).
    destruct (WalkEvent_invariant X f (fun d => context_ok (bin d)) (fun _ => True)
                HP (fun _ _ _ _ _ _ => I) decoder c w Hok H) as (Hw & _).
    split; [exact Hw|].
    unfold eventHeaderLength.
    destruct (description (bin (w_decoder w))) as [d|] eqn:Ed.
    + exact (proj1 Hw d Ed).
    + unfold defaultEventHeaderSize. lia.
  - intros options events. split; cbn.
    + discriminate.
    + intros id t Hl. rewrite lookup_empty in Hl. discriminate.
Qed.

Lemma WalkEvent_keeps_context_ok_witness :
  exists w,
    WalkEvent sample_extern counting
      (opened None (sample_fde ++ sample_table_map ++ sample_xid)) 0 = Ret w
    /\ context_ok (bin (w_decoder w))
    /\ 0 <= eventHeaderLength (w_decoder w) <= 255.
Proof.
  destruct (WalkEvent sample_extern counting
              (opened None (sample_fde ++ sample_table_map ++ sample_xid)) 0)
    as [w|] eqn:H; [|exfalso; vm_compute in H; discriminate H].
  exists w. split; [reflexivity|].
  destruct (WalkEvent_keeps_context_ok sample_extern Z counting
              (opened None (sample_fde ++ sample_table_map ++ sample_xid)) 0 w)
    as (Hkeep & Hopen).
  exact (Hkeep (Hopen None _) H).
Defined.

Lemma Stop_false_before_stop (o : BinReaderOption) (header : BinEventHeader) :
  0 <= Timestamp header < 2 ^ 32 ->
  Stop (Some o) header = false ->
  before_stop o header.
Proof.
  intros Hts H. unfold Stop in H. unfold before_stop.
  rewrite Time_Unix_time_Unix in H by lia.
  destruct (Z.eqb_spec (EndPos o) 0) as [E0|E0];
    destruct (Z.ltb_spec (EndPos o) (LogPos header));
    destruct (Time_IsZero (EndTime o));
    destruct (Z.leb_spec (Time_Unix (EndTime o)) (Timestamp header));
    cbn in H; try discriminate; split; auto; right; lia.
Qed.

Lemma DecodeEvent_delivered (X : Extern) (decoder decoder' : BinFileDecoder)
    (ev : BinEvent) :
  DecodeEvent X decoder = Ret (decoder', (Some ev, None)) ->
  Stop (Option decoder) (Header ev) = false ->
  delivered X (Option decoder) ev.
Proof.
  intros H Hstop.
  apply DecodeEvent_cases in H as (_ & [(e & _ & Hr & _)|(hd & h & dt & Hread & H)]);
    [discriminate|].
  apply readEvent_Ok in Hread as (rd0 & _ & Hdec & Hknown & _).
  apply decodeEventHeader_Ok_range in Hdec as (Hts & _).
  destruct H as [(_ & _ & Hr & _)|(Hstart & ct & cv & dt' & oe & _ & H)];
    [discriminate|].
  destruct H as [(e & _ & Hr & _)|(_ & rb & Hbody & Hr)]; [discriminate|].
  destruct rb as [body|e]; inversion Hr; subst ev; clear Hr. cbn [Header Body] in *.
  apply decodeBody_Ok_type in Hbody.
  unfold delivered. cbn [Header Body].
  split; [exact Hknown|]. split; [eauto|]. split; [exact Hstart|].
  split; [exact Hstop|].
  intros o Ho. rewrite Ho in Hstop. apply Stop_false_before_stop; assumption.
Qed.

(** X9.  Every event the consumer is called with in a walk has an event
    type named in [EventType2Str], carries a body, of the struct of its
    event type; it is a format description event or satisfies the start
    condition; the stop condition does not hold for it, so that with
    options it is not past a set end position and is before a set end
    time. *)
Theorem WalkEvent_calls_delivered :
  forall (X : Extern) (C : Type) (f : C -> BinEvent -> C * (bool * option error))
         (decoder : BinFileDecoder) (c : C) (w : Walked C),
    WalkEvent X f decoder c = Ret w ->
    Forall (delivered X (Option decoder)) (w_calls w).
Proof.
  intros X C f decoder c w H.
  refine (proj2 (WalkEvent_invariant X f
                   (fun d => Option d = Option decoder)
                   (delivered X (Option decoder)) _ _ decoder c w eq_refl H)).
  - intros d d' r Hd Hdec. rewrite (DecodeEvent_Option _ _ _ _ Hdec). exact Hd.
  - intros d d' ev Hd Hdec Hstop. rewrite <- Hd.
    exact (DecodeEvent_delivered _ _ _ _ Hdec Hstop).
Qed.

Lemma WalkEvent_calls_delivered_witness :
  exists w,
    WalkEvent sample_extern counting
      (opened (Some (mkOption 0 142 zeroTime zeroTime)) (sample_fde ++ sample_xid)) 0
    = Ret w
    /\ length (w_calls w) = 2%nat
    /\ Forall (fun ev => LogPos (Header ev) <= 142 /\ Body ev <> None) (w_calls w).
Proof.
  destruct (WalkEvent sample_extern counting
              (opened (Some (mkOption 0 142 zeroTime zeroTime))
                 (sample_fde ++ sample_xid)) 0)
    as [w|] eqn:H; [|exfalso; vm_compute in H; discriminate H].
  exists w. split; [reflexivity|].
  pose proof (WalkEvent_calls_delivered sample_extern Z counting _ 0 w H) as Hd.
  split; [vm_compute in H; inversion H; reflexivity|].
  eapply Forall_impl; [exact Hd|].
  intros ev (_ & (body & Hb & _) & _ & _ & Hbs).
  destruct (Hbs _ eq_refl) as ([H0|Hle] & _); [discriminate H0|].
  split; [exact Hle | rewrite Hb; discriminate].
Defined.

Lemma WalkEvent_loop_threads_consumer (X : Extern) {C : Type}
    (f : C -> BinEvent -> C * (bool * option error)) (n : nat) :
  forall (decoder : BinFileDecoder) (c : C) (w : Walked C),
    WalkEvent_loop X f n decoder c = Some (Ret w) ->
    w_consumer w = fold_left (fun c ev => fst (f c ev)) (w_calls w) c
    /\ (forall pre ev post,
           w_calls w = pre ++ ev :: post ->
           snd (f (fold_left (fun c ev => fst (f c ev)) pre c) ev) = (true, None)
           \/ (post = []
               /\ w_err w
                  = snd (snd (f (fold_left (fun c ev => fst (f c ev)) pre c) ev)))).
Proof.
  induction n as [|n IH]; intros decoder c w H; [discriminate|].
  cbn [WalkEvent_loop] in H.
  destruct (DecodeEvent X decoder) as [[d' [event [e|]]]|] eqn:E; [| |discriminate].
  - destruct (bool_decide (e = io_EOF)); inversion H; subst; cbn;
      (split; [reflexivity|]); intros [|? ?] ev post Hx; discriminate Hx.
  - destruct event as [event|]; [|exact (IH _ _ _ H)].
    destruct (Stop (Option d') (Header event)).
    { inversion H; subst; cbn. split; [reflexivity|].
      intros [|? ?] ev post Hx; discriminate Hx. }
    destruct (f c event) as [c' [isContinue err]] eqn:Ef.
    destruct (negb isContinue || bool_decide (err <> None)) eqn:Ec.
    + inversion H; subst; cbn. rewrite Ef. split; [reflexivity|].
      intros [|x pre] ev post Hx; inversion Hx; subst.
      * right. cbn. rewrite Ef. auto.
      * destruct pre; discriminate.
    + apply orb_false_iff in Ec as (Hc & He).
      apply negb_false_iff in Hc. subst isContinue.
      apply bool_decide_eq_false in He.
      assert (err = None)
        by (destruct err; [exfalso; apply He; discriminate | reflexivity]).
      subst err.
      destruct (WalkEvent_loop X f n d' c') as [[w'|]|] eqn:Ew; try discriminate.
      inversion H; subst w; clear H. cbn [called w_consumer w_calls w_err].
      destruct (IH _ _ _ Ew) as (Hfold & Hcalls).
      split; [cbn [fold_left]; rewrite Ef; exact Hfold|].
      intros [|x pre] ev post Hx; inversion Hx; subst.
      * left. cbn. rewrite Ef. reflexivity.
      * cbn [fold_left app]. rewrite Ef. cbn [fst]. apply Hcalls. assumption.
Qed.

(** X10.  The state of the consumer a walk leaves is the state threaded
    through its calls, in order; every call but the last returned
    "continue" and no error; and when the last call did not, what the walk
    returns is the error of that call (none if the consumer only asked to
    stop). *)
Theorem WalkEvent_threads_consumer :
  forall (X : Extern) (C : Type) (f : C -> BinEvent -> C * (bool * option error))
         (decoder : BinFileDecoder) (c : C) (w : Walked C),
    WalkEvent X f decoder c = Ret w ->
    w_consumer w = fold_left (fun c ev => fst (f c ev)) (w_calls w) c
    /\ (forall pre ev post,
           w_calls w = pre ++ ev :: post ->
           snd (f (fold_left (fun c ev => fst (f c ev)) pre c) ev) = (true, None)
           \/ (post = []
               /\ w_err w
                  = snd (snd (f (fold_left (fun c ev => fst (f c ev)) pre c) ev)))).
Proof.
  intros X C f decoder c w H.
  apply (WalkEvent_loop_threads_consumer X f (S (length (buf decoder))) decoder).
  rewrite WalkEvent_loop_enough by lia. rewrite H. reflexivity.
Qed.

Lemma WalkEvent_threads_consumer_witness :
  exists w,
    WalkEvent sample_extern counting (opened None (sample_fde ++ sample_xid)) 0 = Ret w
    /\ w_consumer w = Z.of_nat (length (w_calls w)).
Proof.
  destruct (WalkEvent sample_extern counting (opened None (sample_fde ++ sample_xid)) 0)
    as [w|] eqn:H; [|exfalso; vm_compute in H; discriminate H].
  exists w. split; [reflexivity|].
  destruct (WalkEvent_threads_consumer sample_extern Z counting _ 0 w H) as (Hfold & _).
  assert (Hg : forall (l : list BinEvent) (c : Z),
             fold_left (fun c ev => fst (counting c ev)) l c = c + Z.of_nat (length l)).
  { induction l as [|ev l IH]; intros c; cbn [fold_left length]; [lia|].
    rewrite IH. cbn [counting fst]. lia. }
  rewrite Hfold, Hg. lia.
Defined.

Lemma DecodeEvent_context_frame_witness :
  bin (mkDecoder None sample_xid (mkInfo (Some sample_description) ∅))
  = bin (mkDecoder None (sample_stop ++ sample_xid) (mkInfo (Some sample_description) ∅)).
Proof.
  destruct (DecodeEvent_context_frame sample_extern _ _ _ _ sample_stop_decodes)
    as (_ & Hbin & _).
  apply Hbin. left. discriminate.
Defined.

(** ** Frames that are skipped, refused, or crash the decoder *)

(** X11.  [DecodeEvent] returns neither event nor error only for a frame
    that is no format description event, under options whose [StartTime]
    is after the timestamp of the frame, and whose [StartPos] is unset or
    after the start offset of the frame.  A [StartPos] alone skips
    nothing: the [StartTime] of a skip is after 1970. *)
Theorem DecodeEvent_skip_inv :
  forall (X : Extern) (decoder decoder' : BinFileDecoder),
    DecodeEvent X decoder = Ret (decoder', (None, None)) ->
    exists o headerData header data,
      Option decoder = Some o
      /\ readEvent X decoder = Ret (Ok (headerData, header, data), buf decoder')
      /\ EventType header <> FormatDescriptionEvent
      /\ 0 <= Timestamp header < Time_Unix (StartTime o)
      /\ (StartPos o = 0 \/ LogPos header - EventSize header < StartPos o)
      /\ bin decoder' = bin decoder.
Proof.
  intros X decoder decoder' H.
  apply DecodeEvent_cases in H as (_ & [(e & _ & Hr & _)|(hd & h & dt & Hread & H)]);
    [discriminate|].
  destruct H as [(Hty & Hstart & _ & Hbin)|(_ & ct & cv & dt' & oe & _ & H)].
  - pose proof Hread as Hread'.
    apply readEvent_Ok in Hread' as (rd0 & _ & Hdec & _).
    apply decodeEventHeader_Ok_range in Hdec as (Hts & _ & Hes & Hlp).
    unfold Start in Hstart. destruct (Option decoder) as [o|]; [|discriminate].
    exists o, hd, h, dt. split; [reflexivity|]. split; [exact Hread|].
    split; [exact Hty|].
    rewrite Time_Unix_time_Unix, wrap64_small in Hstart by lia.
    destruct (Z.eqb_spec (StartPos o) 0);
      destruct (Z.leb_spec (StartPos o) (LogPos h - EventSize h));
      destruct (Z.leb_spec (Time_Unix (StartTime o)) (Timestamp h));
      cbn in Hstart; try discriminate; repeat split; auto; lia.
  - destruct H as [(e & _ & Hr & _)|(_ & rb & _ & Hr)]; [discriminate|].
    destruct rb; discriminate.
Qed.

Lemma DecodeEvent_skip_inv_witness :
  exists o header,
    Option (mkDecoder (Some (mkOption 0 0 (time_Unix 2000000000) zeroTime))
              (sample_table_map ++ sample_xid) (mkInfo (Some sample_description) ∅))
    = Some o
    /\ EventType header <> FormatDescriptionEvent
    /\ 0 <= Timestamp header < Time_Unix (StartTime o).
Proof.
  assert (Hdec : DecodeEvent sample_extern
                   (mkDecoder (Some (mkOption 0 0 (time_Unix 2000000000) zeroTime))
                      (sample_table_map ++ sample_xid)
                      (mkInfo (Some sample_description) ∅))
                 = Ret (mkDecoder (Some (mkOption 0 0 (time_Unix 2000000000) zeroTime))
                          sample_xid (mkInfo (Some sample_description) ∅),
                        (None, None)))
    by (vm_compute; reflexivity).
  destruct (DecodeEvent_skip_inv sample_extern _ _ Hdec)
    as (o & hd & h & dt & Ho & _ & Hty & Hts & _).
  exists o, h. auto.
Defined.

Lemma decodeBody_unhandled (X : Extern) (b : BinaryLogInfo) (typ : Z) (data : slice) :
  handledEvent typ = false ->
  decodeBody X b typ data
  = Ret (b, Err (if typ =? UnknownEvent then ErrUnknownEvent else ErrNotSupportEvent)).
Proof.
  unfold handledEvent. intros H.
  repeat (apply orb_false_iff in H; destruct H as [H ?]).
  unfold decodeBody.
  repeat match goal with
         | E : ?c = false |- context [?c] => rewrite E
         end.
  cbn [orb]. destruct (typ =? UnknownEvent); reflexivity.
Qed.

(** X12.  A frame that passes the start test and validation but whose
    event type the [switch] has no decoder for ends the walk with an error,
    the unknown-event error for type 0 and the unsupported-event error for
    any other, though [EventType2Str] names the type; the frame is
    consumed, the consumer is not called and the context is unchanged. *)
Theorem unsupported_event_ends_walk :
  forall (X : Extern) (C : Type) (f : C -> BinEvent -> C * (bool * option error))
         (decoder : BinFileDecoder) (c : C) (headerData data data' cv : slice)
         (header : BinEventHeader) (rd : list byte) (ct : byte),
    readEvent X decoder = Ret (Ok (headerData, header, data), rd) ->
    handledEvent (EventType header) = false ->
    Start (Option decoder) header = true ->
    Validation X (Some header) (Some (bin decoder)) headerData data
    = Ret (ct, cv, data', None) ->
    let e := if EventType header =? UnknownEvent
             then ErrUnknownEvent else ErrNotSupportEvent in
    DecodeEvent X decoder = Ret (with_buf decoder rd, (None, Some e))
    /\ WalkEvent X f decoder c = Ret (mkWalked (Some e) (with_buf decoder rd) c []).
Proof.
  intros X C f decoder c hd dt dt' cv h rd ct Hread Hun Hstart Hval e.
  assert (Hdec : DecodeEvent X decoder = Ret (with_buf decoder rd, (None, Some e))).
  { unfold DecodeEvent. rewrite Hread. cbn [go_bind with_buf Option bin].
    rewrite Hstart, andb_false_r, Hval. cbn [go_bind].
    rewrite (decodeBody_unhandled _ _ _ _ Hun). reflexivity. }
  split; [exact Hdec|].
  rewrite WalkEvent_unfold, Hdec.
  assert (He : e <> io_EOF) by (unfold e; destruct (_ =? _); discriminate).
  rewrite bool_decide_false by exact He. reflexivity.
Qed.

Lemma unsupported_event_ends_walk_witness :
  WalkEvent sample_extern counting
    (mkDecoder None (sample_stop ++ sample_xid) (mkInfo (Some sample_description) ∅)) 0
  = Ret (mkWalked (Some ErrNotSupportEvent)
           (mkDecoder None sample_xid (mkInfo (Some sample_description) ∅)) 0 []).
Proof.
  refine (proj2 (unsupported_event_ends_walk sample_extern Z counting
                   (mkDecoder None (sample_stop ++ sample_xid)
                      (mkInfo (Some sample_description) ∅)) 0
                   (fresh sample_stop) (fresh []) (fresh []) (fresh [])
                   (mkHeader 100 3 1 19 134 0) sample_xid x00 _ _ _ _)).
  - vm_compute. reflexivity.
  - vm_compute. reflexivity.
  - reflexivity.
  - vm_compute. reflexivity.
Defined.

(** X13.  While the decoder has no format description, a frame of a query,
    rotate, table-map or rows event that passes the start test makes
    [DecodeEvent], and with it the walk, panic: those cases read
    [decoder.description], which is nil. *)
Theorem DecodeEvent_without_description_panics :
  forall (X : Extern) (C : Type) (f : C -> BinEvent -> C * (bool * option error))
         (decoder : BinFileDecoder) (c : C) (headerData data : slice)
         (header : BinEventHeader) (rd : list byte),
    description (bin decoder) = None ->
    readEvent X decoder = Ret (Ok (headerData, header, data), rd) ->
    readsDescription (EventType header) = true ->
    Start (Option decoder) header = true ->
    DecodeEvent X decoder = Panic /\ WalkEvent X f decoder c = Panic.
Proof.
  intros X C f decoder c hd dt h rd Hnone Hread Hty Hstart.
  assert (Hdec : DecodeEvent X decoder = Panic).
  { assert (Hhl : eventHeaderLength decoder < 2 ^ 63)
      by (unfold eventHeaderLength; rewrite Hnone; reflexivity).
    pose proof (readEvent_frame _ _ _ _ _ _ Hhl Hread) as (L1 & L2 & Hle & _).
    pose proof Hread as Hread'.
    apply readEvent_Ok in Hread' as (rd0 & _ & Hdec & _).
    apply decodeEventHeader_Ok_range in Hdec as (_ & _ & Hes & _).
    unfold DecodeEvent. rewrite Hread. cbn [go_bind with_buf Option bin].
    rewrite Hstart, andb_false_r.
    unfold Validation. rewrite Hnone.
    replace (len dt + len hd) with (EventSize h) by lia.
    rewrite wrap64_small, Z.eqb_refl by lia. cbn [negb go_bind].
    unfold readsDescription in Hty. unfold decodeBody, descriptionVersion.
    rewrite Hnone.
    unfold isRowsEvent in Hty.
    repeat (apply orb_true_iff in Hty; destruct Hty as [Hty|Hty]);
      apply Z.eqb_eq in Hty; rewrite Hty; reflexivity. }
  split; [exact Hdec|]. rewrite WalkEvent_unfold, Hdec. reflexivity.
Qed.

Lemma DecodeEvent_without_description_panics_witness :
  WalkEvent sample_extern counting (opened None sample_query) 0 = Panic.
Proof.
  refine (proj2 (DecodeEvent_without_description_panics sample_extern Z counting
                   (opened None sample_query) 0
                   (fresh (take 19 sample_query)) (fresh (drop 19 sample_query))
                   (mkHeader 100 2 1 40 155 0) [] _ _ _ _)).
  - reflexivity.
  - vm_compute. reflexivity.
  - reflexivity.
  - reflexivity.
Defined.

(** X14.  With checksums on, a frame whose body has fewer than five bytes
    and that is not skipped makes [DecodeEvent], and with it the walk,
    panic: validation indexes the body at its length minus five.  (A stop
    event written with its four checksum bytes is such a frame.) *)
Theorem DecodeEvent_short_body_panics :
  forall (X : Extern) (C : Type) (f : C -> BinEvent -> C * (bool * option error))
         (decoder : BinFileDecoder) (c : C) (d : BinFmtDescEvent)
         (headerData data : slice) (header : BinEventHeader) (rd : list byte),
    description (bin decoder) = Some d ->
    hasCheckSum d = true ->
    EventHeaderLength d < 2 ^ 63 ->
    readEvent X decoder = Ret (Ok (headerData, header, data), rd) ->
    EventType header = FormatDescriptionEvent \/ Start (Option decoder) header = true ->
    EventSize header < EventHeaderLength d + 5 ->
    DecodeEvent X decoder = Panic /\ WalkEvent X f decoder c = Panic.
Proof.
  intros X C f decoder c d hd dt h rd Hd Hcs Hhl' Hread Hstart Hshort.
  assert (Hdec : DecodeEvent X decoder = Panic).
  { assert (Hl : eventHeaderLength decoder = EventHeaderLength d)
      by (unfold eventHeaderLength; rewrite Hd; reflexivity).
    assert (Hhl : eventHeaderLength decoder < 2 ^ 63) by lia.
    pose proof (readEvent_frame _ _ _ _ _ _ Hhl Hread) as (L1 & L2 & Hle & _).
    pose proof Hread as Hread'.
    apply readEvent_Ok in Hread' as (rd0 & _ & Hdec & _).
    apply decodeEventHeader_Ok_range in Hdec as (_ & _ & Hes & _).
    unfold DecodeEvent. rewrite Hread. cbn [go_bind with_buf Option bin].
    assert (Hsk : negb (EventType h =? FormatDescriptionEvent)
                  && negb (Start (Option decoder) h) = false).
    { destruct Hstart as [-> | ->]; [reflexivity | apply andb_false_r]. }
    rewrite Hsk. unfold Validation. rewrite Hd, Hcs.
    replace (len dt + len hd) with (EventSize h) by lia.
    rewrite wrap64_small, Z.eqb_refl by lia. cbn [negb].
    unfold index, binlogChecksumLength.
    destruct (Z.leb_spec 0 (len dt - 4 - 1)); [lia|]. reflexivity. }
  split; [exact Hdec|]. rewrite WalkEvent_unfold, Hdec. reflexivity.
Qed.

Lemma DecodeEvent_short_body_panics_witness :
  WalkEvent sample_extern counting
    (mkDecoder None
       ([x64;x00;x00;x00; x03; x01;x00;x00;x00; x17;x00;x00;x00; x92;x00;x00;x00;
         x00;x00] ++ [x09; xc6; x96; xb0])
       (mkInfo (Some (mkFmtDesc 4 [x35;x2e;x37;x2e;x33;x30] 1 19
                        (fresh (repeat x08 38)) true)) ∅)) 0
  = Panic.
Proof.
  refine (proj2 (DecodeEvent_short_body_panics sample_extern Z counting _ 0
                   (mkFmtDesc 4 [x35;x2e;x37;x2e;x33;x30] 1 19
                      (fresh (repeat x08 38)) true)
                   (fresh [x64;x00;x00;x00; x03; x01;x00;x00;x00; x17;x00;x00;x00;
                           x92;x00;x00;x00; x00;x00])
                   (fresh [x09; xc6; x96; xb0])
                   (mkHeader 100 3 1 23 146 0) [] _ _ _ _ _ _)).
  - reflexivity.
  - reflexivity.
  - vm_compute. reflexivity.
  - vm_compute. reflexivity.
  - right. reflexivity.
  - vm_compute. reflexivity.
Defined.

(** ** Column metadata and bit fields *)

Lemma decodeMeta_column_total (data : slice) (pos t : Z) :
  0 <= pos -> pos + 2 <= len data ->
  exists r, decodeMeta_column data pos t = Ret r.
Proof.
  intros Hpos Hlen.
  destruct (proj2 (index_Ret_iff data pos) ltac:(lia)) as [b0 Hb0].
  destruct (proj2 (index_Ret_iff data (pos + 1)) ltac:(lia)) as [b1 Hb1].
  assert (HU : exists v, Uint16_at data pos = Ret v).
  { destruct data as [d sp]. unfold len in Hlen. cbn [elems] in Hlen.
    eexists. apply Uint16_at_ok; lia. }
  destruct HU as [v HU].
  unfold decodeMeta_column.
  destruct (t =? MySQLTypeString).
  { rewrite Hb0. cbn [go_bind]. rewrite Hb1. cbn [go_bind].
    destruct (_ || _); eexists; reflexivity. }
  destruct (_ || _).
  { rewrite HU. eexists; reflexivity. }
  destruct (t =? MySQLTypeBit).
  { rewrite Hb0. cbn [go_bind]. rewrite Hb1. eexists; reflexivity. }
  destruct (_ || _).
  { rewrite Hb0. eexists; reflexivity. }
  destruct (t =? MySQLTypeNewDecimal).
  { rewrite Hb0. cbn [go_bind]. rewrite Hb1. eexists; reflexivity. }
  destruct (_ || _).
  { rewrite Hb0. eexists; reflexivity. }
  destruct (_ || _); eexists; reflexivity.
Qed.

Lemma decodeMeta_loop_total (data : slice) (types : list Z) :
  forall pos : Z,
    0 <= pos -> pos + 2 * Z.of_nat (length types) <= len data ->
    exists r, decodeMeta_loop data pos types = Ret r.
Proof.
  induction types as [|t rest IH]; intros pos Hpos Hlen; cbn [decodeMeta_loop].
  - eexists; reflexivity.
  - cbn [length] in Hlen.
    destruct (decodeMeta_column_total data pos t) as [c Hc]; [lia | lia |].
    rewrite Hc. cbn [go_bind].
    apply decodeMeta_column_inv in Hc.
    destruct c as [[m pos']|e]; [|eexists; reflexivity].
    destruct Hc as (_ & Hp).
    destruct (IH pos') as [r Hr]; [lia | lia |].
    rewrite Hr. cbn [go_bind]. destruct r; eexists; reflexivity.
Qed.

(** X15.  [decodeMeta] over the column types of a table: when it returns
    without error there is one metadata entry per column and every column
    type has a case in its [switch]; its only error is the unknown-type
    error, for a list that holds a type without a case; and it reads at most
    two bytes per column, so with that many bytes of metadata it does not
    panic. *)
Theorem decodeMeta_outcome :
  (forall (types : list Z) (data : slice) (r : res (list ColumnType)),
      decodeMeta types data = Ret r ->
      match r with
      | Ok metas => length metas = length types
                    /\ Forall (fun t => metaKnown t = true) types
      | Err e => e = ErrUnknownFieldType
                 /\ Exists (fun t => metaKnown t = false) types
      end)
  /\ (forall (types : list Z) (data : slice),
         2 * Z.of_nat (length types) <= len data ->
         exists r, decodeMeta types data = Ret r).
Proof.
  split.
  - intros types data r H. apply decodeMeta_loop_inv in H.
    destruct r; exact H.
  - intros types data H. apply decodeMeta_loop_total; lia.
Qed.

Lemma testbit_le_value (l : list byte) :
  forall i : Z,
    0 <= i ->
    Z.testbit (le_value l) i
    = match l !! Z.to_nat (i / 8) with
      | Some b => Z.testbit (byte_Z b) (i mod 8)
      | None => false
      end.
Proof.
  induction l as [|b r IH]; intros i Hi.
  - cbn [le_value]. rewrite Z.bits_0. rewrite lookup_nil. reflexivity.
  - cbn [le_value]. pose proof (byte_Z_range b) as Hb.
    destruct (Z.lt_ge_cases i 8) as [Hlt|Hge].
    + assert (Hq : i / 8 = 0) by (apply Z.div_small; lia).
      assert (Hm : i mod 8 = i) by (apply Z.mod_small; lia).
      rewrite Hq, Hm. cbn [Z.to_nat lookup list_lookup].
      rewrite <- (Z.mod_pow2_bits_low (byte_Z b + 256 * le_value r) 8 i) by lia.
      change (2 ^ 8) with 256.
      rewrite <- (Z.mod_unique_pos (byte_Z b + 256 * le_value r) 256
                    (le_value r) (byte_Z b)) by lia.
      reflexivity.
    + replace i with ((i - 8) + 8) at 1 by lia.
      rewrite <- Z.div_pow2_bits by lia.
      change (2 ^ 8) with 256.
      rewrite <- (Z.div_unique_pos (byte_Z b + 256 * le_value r) 256
                    (le_value r) (byte_Z b)) by lia.
      rewrite IH by lia.
      replace (i / 8) with ((i - 8) / 8 + 1)
        by (replace i with ((i - 8) + 1 * 8) at 2 by lia;
            rewrite Z.div_add by lia; reflexivity).
      replace (i mod 8) with ((i - 8) mod 8)
        by (replace i with ((i - 8) + 1 * 8) at 2 by lia;
            rewrite Z.mod_add by lia; reflexivity).
      assert (0 <= (i - 8) / 8) by (apply Z.div_pos; lia).
      rewrite Z.add_1_r, Z2Nat.inj_succ by lia.
      reflexivity.
Qed.

Lemma land_bit_test (a k : Z) :
  0 <= k -> negb (Z.land a (Z.shiftl 1 k) =? 0) = Z.testbit a k.
Proof.
  intros Hk. rewrite Z.shiftl_1_l.
  destruct (Z.testbit a k) eqn:Hb.
  - destruct (Z.eqb_spec (Z.land a (2 ^ k)) 0) as [E|_]; [|reflexivity].
    exfalso.
    assert (Ht : Z.testbit (Z.land a (2 ^ k)) k = true)
      by (rewrite Z.land_spec, Hb, Z.pow2_bits_true by lia; reflexivity).
    rewrite E, Z.bits_0 in Ht. discriminate.
  - assert (E : Z.land a (2 ^ k) = 0).
    { apply Z.bits_inj'. intros n Hn. rewrite Z.land_spec, Z.bits_0.
      destruct (Z.eq_dec n k) as [->|Hne].
      - rewrite Hb. reflexivity.
      - rewrite Z.pow2_bits_false by lia. apply andb_false_r. }
    rewrite E. reflexivity.
Qed.

(** X16.  [isSet] reads the bit field as one little-endian number: for an
    index below eight times the length of the field it is bit [index] of
    that number (bit 0 is the lowest bit of the first byte), and for any
    other index it panics. *)
Theorem isSet_testbit :
  forall (bits : slice) (i : Z),
    isSet bits i
    = if (0 <=? i) && (i <? 8 * len bits)
      then Ret (Z.testbit (le_value (elems bits)) i)
      else Panic.
Proof.
  intros bits i. unfold isSet, index.
  destruct (Z.leb_spec 0 i) as [Hi|Hi]; cbn [andb].
  - assert (Hq : 0 <= i / 8) by (apply Z.div_pos; lia).
    destruct (Z.leb_spec 0 (i / 8)) as [_|]; [|lia]. cbn [andb].
    destruct (Z.ltb_spec i (8 * len bits)) as [Hlt|Hge].
    + destruct (Z.ltb_spec (i / 8) (len bits)) as [Hl|Hl];
        [|exfalso; assert (i / 8 < len bits) by (apply Z.div_lt_upper_bound; lia); lia].
      rewrite testbit_le_value by lia.
      destruct (elems bits !! Z.to_nat (i / 8)) as [b|] eqn:Hb.
      * cbn [go_bind]. rewrite land_bit_test by (apply Z.mod_pos_bound; lia).
        reflexivity.
      * exfalso. apply lookup_ge_None in Hb. unfold len in Hl. lia.
    + destruct (Z.ltb_spec (i / 8) (len bits)) as [Hl|Hl]; [|reflexivity].
      exfalso. assert (i < 8 * len bits); [|lia].
      pose proof (Z.div_mod i 8 ltac:(lia)). pose proof (Z.mod_pos_bound i 8 ltac:(lia)).
      lia.
  - destruct (Z.leb_spec 0 (i / 8)) as [Hq|_]; [|reflexivity].
    exfalso. assert (i / 8 < 0) by (apply Z.div_lt_upper_bound; lia). lia.
Qed.

(** ** The header of a rows event *)

Lemma Uint16_at_value (s : slice) (pos v : Z) :
  Uint16_at s pos = Ret v ->
  0 <= pos /\ pos + 2 <= len s
  /\ v = le_value (take 2 (drop (Z.to_nat pos) (elems s))).
Proof.
  intros H. pose proof (Uint16_at_Ret_inv _ _ _ H) as (Hp & Hl).
  destruct s as [d sp]. unfold len in Hl. cbn [elems] in *.
  rewrite Uint16_at_ok in H by lia. inversion H. unfold len. cbn [elems]. lia.
Qed.

Lemma FixedLengthInt_prefix (data idb : slice) (n : Z) :
  n = 4 \/ n = 6 ->
  n <= len data ->
  slice_to data n = Ret idb ->
  FixedLengthInt idb = le_value (take (Z.to_nat n) (elems data)).
Proof.
  intros Hn Hlen H.
  pose proof (FixedLengthInt_slice_to _ _ _ Hn H) as Hb.
  unfold slice_to in H. apply slice_range_Ret_inv in H as (_ & _ & ->).
  unfold FixedLengthInt, wrapu64 in *. cbn [elems] in *.
  rewrite Z.sub_0_r, drop_0 in *. unfold backing in *.
  unfold len in Hlen.
  rewrite take_app_le in * by lia.
  set (l := take _ _) in *.
  pose proof (le_value_nonneg l). pose proof (le_value_bound l) as Hb'.
  assert (Z.of_nat (length l) = n) by (unfold l; rewrite length_take; lia).
  assert (256 ^ n <= 2 ^ 64) by (destruct Hn; subst n; lia).
  rewrite Z.mod_small; [reflexivity|]. split; [lia|].
  replace (Z.of_nat (length l)) with n in Hb' by lia. lia.
Qed.

(** X17.  The header of a rows event that decodes.  The width of the table
    id is 4 when the post-header length the format description lists for
    the event type is 6, and 6 otherwise; the table id is the little-endian
    value of that many leading bytes and the flags that of the two bytes
    after them; the version is the one of the event type; extra data is
    present exactly for version 2 and then has the announced length minus
    two (modulo 2^16) bytes; no table map is attached. *)
Theorem decodeRowsEvent_header :
  forall (data : slice) (h : option BinFmtDescEvent) (typ : Z) (ev : BinRowsEvent),
    decodeRowsEvent data h typ = Ret ev ->
    exists d b,
      h = Some d
      /\ index (EventTypeHeader d) (wrap8 (typ - 1)) = Ret b
      /\ r_tableIDLen ev = (if byte_Z b =? 6 then 4 else 6)
      /\ Version ev = rowsVersion typ
      /\ r_tableIDLen ev + 2 <= len data
      /\ r_TableID ev = le_value (take (Z.to_nat (r_tableIDLen ev)) (elems data))
      /\ r_Flags ev
         = le_value (take 2 (drop (Z.to_nat (r_tableIDLen ev)) (elems data)))
      /\ match ExtraData ev with
         | None => rowsVersion typ <> 2
         | Some x =>
           rowsVersion typ = 2
           /\ exists e, Uint16_at data (r_tableIDLen ev + 2) = Ret e
                        /\ len x = wrap16 (e - 2)
         end
      /\ tableMap ev = None.
Proof.
  intros data h typ ev H. unfold decodeRowsEvent in H.
  destruct h as [d|]; [|discriminate]. cbn [tableIDLen_of] in H.
  go_inv H. rename a into n, Hm into Hn.
  go_inv Hn. rename a into b, Hm into Hb. inversion Hn as [Hn']; clear Hn.
  assert (Hn46 : n = 4 \/ n = 6) by (subst n; destruct (_ =? _); auto).
  go_inv H. rename a into idb, Hm into Hid.
  go_inv H. rename a into flags, Hm into Hfl.
  apply Uint16_at_value in Hfl as (_ & Hlen & Hflv).
  go_step H.
  match goal with
  | Hx : (if _ then _ else _) = Ret (?o, ?z) |- _ =>
    rename Hx into He, o into extra, z into pos
  end.
  do 3 go_step H. go_inv H.
  inversion H; subst ev; clear H.
  cbn [Version r_TableID r_tableIDLen r_Flags ExtraData tableMap].
  exists d, b. split; [reflexivity|]. split; [exact Hb|].
  split; [subst n; reflexivity|]. split; [reflexivity|]. split; [lia|].
  split; [apply FixedLengthInt_prefix; [exact Hn46 | lia | exact Hid]|].
  split; [exact Hflv|]. split; [|reflexivity].
  clear - He Hlen.
  destruct (Z.eqb_spec (rowsVersion typ) 2) as [Hv|Hv].
  - apply go_bind_Ret_inv in He as (e & Hel & He).
    apply go_bind_Ret_inv in He as (x & Hx & He).
    inversion He; subst extra pos; clear He.
    split; [exact Hv|]. exists e. split; [exact Hel|].
    apply slice_range_Ret_inv in Hx as (Hlo & Hcap & ->).
    rewrite len_mkSlice, length_take, length_drop.
    unfold cap in Hcap. fold (backing data) in Hcap. lia.
  - inversion He; subst extra pos. exact Hv.
Qed.

Lemma decodeRowsEvent_header_witness :
  exists ev,
    decodeRowsEvent (fresh sample_update_body) (Some sample_description)
      UpdateRowsEventV1 = Ret ev
    /\ r_tableIDLen ev = 6 /\ r_TableID ev = 7 /\ r_Flags ev = 1.
Proof.
  destruct (decodeRowsEvent (fresh sample_update_body) (Some sample_description)
              UpdateRowsEventV1) as [ev|] eqn:H;
    [|exfalso; vm_compute in H; discriminate H].
  exists ev. split; [reflexivity|].
  destruct (decodeRowsEvent_header _ _ _ _ H)
    as (d & b & Hd & Hb & Hn & _ & _ & Hid & Hfl & _).
  inversion Hd; subst d. vm_compute in Hb. inversion Hb; subst b.
  change (r_tableIDLen ev = 6) in Hn. rewrite Hn in Hid, Hfl.
  split; [exact Hn|]. split; [rewrite Hid | rewrite Hfl]; vm_compute; reflexivity.
Defined.

(** X18.  A version-2 rows event that announces an extra-data length below
    two makes [decodeRowsEvent] panic unless the body has some 64 KiB of
    capacity: the length minus two is computed in [uint16] and wraps to
    65534 or 65535, and the slice of that many bytes is out of range. *)
Theorem decodeRowsEvent_extra_length_underflow :
  forall (data : slice) (h : option BinFmtDescEvent) (typ n e : Z),
    rowsVersion typ = 2 ->
    tableIDLen_of h (wrap8 (typ - 1)) = Ret n ->
    Uint16_at data (n + 2) = Ret e ->
    e < 2 ->
    cap data < n + 65538 + e ->
    decodeRowsEvent data h typ = Panic.
Proof.
  intros data h typ n e Hv Hn He Hlt Hcap.
  apply Uint16_at_value in He as He'. destruct He' as (_ & _ & Hev).
  assert (0 <= e) by (subst e; apply le_value_nonneg).
  unfold decodeRowsEvent. rewrite Hn. cbn [go_bind].
  destruct (slice_to data n); [|reflexivity]. cbn [go_bind].
  destruct (Uint16_at data n); [|reflexivity]. cbn [go_bind].
  rewrite Hv. cbn [Z.eqb Pos.eqb]. rewrite He. cbn [go_bind].
  assert (Hw : wrap16 (e - 2) = 65534 + e).
  { unfold wrap16. assert (e = 0 \/ e = 1) as [-> | ->] by lia; reflexivity. }
  rewrite Hw. unfold slice_range.
  destruct (Z.leb_spec (n + 2 + 2 + (65534 + e)) (cap data)); [lia|].
  rewrite andb_false_r. reflexivity.
Qed.

Lemma decodeRowsEvent_extra_length_underflow_witness :
  decodeRowsEvent
    (fresh ([x07;x00;x00;x00;x00;x00] ++ [x01;x00] ++ [x00;x00] ++ [x01] ++ [xff]))
    (Some sample_description) WriteRowsEventV2
  = Panic.
Proof.
  apply (decodeRowsEvent_extra_length_underflow _ _ _ 6 0).
  - reflexivity.
  - vm_compute. reflexivity.
  - vm_compute. reflexivity.
  - lia.
  - vm_compute. reflexivity.
Defined.

(** ** The layout of a query event *)

Lemma byte_Z_byte_of_Z (z : Z) : byte_Z (byte_of_Z z) = z mod 256.
Proof.
  unfold byte_Z, byte_of_Z.
  pose proof (Z.mod_pos_bound z 256 ltac:(lia)) as Hm.
  destruct (Byte.of_N (Z.to_N (z mod 256))) as [b|] eqn:E.
  - apply Byte.to_of_N in E. change (Z.of_N (Byte.to_N b) = z mod 256).
    rewrite E. lia.
  - apply Byte.of_N_None_iff in E. lia.
Qed.

Lemma length_le_bytes (n : nat) : forall v : Z, length (le_bytes n v) = n.
Proof. induction n as [|n IH]; intros v; cbn [le_bytes length]; [|rewrite IH]; reflexivity. Qed.

Lemma le_value_le_bytes (n : nat) :
  forall v : Z, le_value (le_bytes n v) = v mod 256 ^ Z.of_nat n.
Proof.
  induction n as [|n IH]; intros v; cbn [le_bytes le_value].
  - cbn. rewrite Z.mod_1_r. reflexivity.
  - rewrite IH, byte_Z_byte_of_Z, Nat2Z.inj_succ, Z.pow_succ_r by lia.
    rewrite (Z.rem_mul_r v 256 (256 ^ Z.of_nat n)) by lia. reflexivity.
Qed.

Lemma Uint32_at_app (pre post sp : list byte) (x pos : Z) :
  0 <= x < 2 ^ 32 ->
  pos = Z.of_nat (length pre) ->
  Uint32_at (mkSlice (pre ++ le_bytes 4 x ++ post) sp) pos = Ret x.
Proof.
  intros Hx ->. rewrite Uint32_at_ok.
  - rewrite Nat2Z.id, drop_app_length.
    rewrite (take_app_length' _ _ 4) by (rewrite length_le_bytes; reflexivity).
    rewrite le_value_le_bytes. rewrite Z.mod_small; [reflexivity | lia].
  - lia.
  - rewrite !length_app, length_le_bytes. lia.
Qed.

Lemma Uint16_at_app (pre post sp : list byte) (x pos : Z) :
  0 <= x < 2 ^ 16 ->
  pos = Z.of_nat (length pre) ->
  Uint16_at (mkSlice (pre ++ le_bytes 2 x ++ post) sp) pos = Ret x.
Proof.
  intros Hx ->. rewrite Uint16_at_ok.
  - rewrite Nat2Z.id, drop_app_length.
    rewrite (take_app_length' _ _ 2) by (rewrite length_le_bytes; reflexivity).
    rewrite le_value_le_bytes. rewrite Z.mod_small; [reflexivity | lia].
  - lia.
  - rewrite !length_app, length_le_bytes. lia.
Qed.

Lemma index_app (pre post sp : list byte) (b : byte) (pos : Z) :
  pos = Z.of_nat (length pre) ->
  index (mkSlice (pre ++ [b] ++ post) sp) pos = Ret b.
Proof.
  intros ->. apply index_ok; [lia|].
  rewrite Nat2Z.id. rewrite lookup_app_r by lia.
  rewrite Nat.sub_diag. reflexivity.
Qed.

Lemma slice_range_app (pre mid post sp : list byte) (pos hi : Z) :
  pos = Z.of_nat (length pre) ->
  hi = pos + Z.of_nat (length mid) ->
  slice_range (mkSlice (pre ++ mid ++ post) sp) pos hi = Ret (mkSlice mid (post ++ sp)).
Proof.
  intros -> ->. unfold slice_range, cap, backing. cbn [elems spare].
  rewrite !length_app.
  destruct (Z.leb_spec 0 (Z.of_nat (length pre))); [|lia].
  destruct (Z.leb_spec (Z.of_nat (length pre))
              (Z.of_nat (length pre) + Z.of_nat (length mid))); [|lia].
  destruct (Z.leb_spec (Z.of_nat (length pre) + Z.of_nat (length mid))
              (Z.of_nat (length pre + (length mid + length post) + length sp)%nat));
    [|lia].
  cbn [andb]. f_equal.
  rewrite <- !app_assoc.
  replace (Z.of_nat (length pre) + Z.of_nat (length mid) - Z.of_nat (length pre))
    with (Z.of_nat (length mid)) by lia.
  rewrite !Nat2Z.id, drop_app_length, take_app_length.
  f_equal.
  rewrite <- Nat2Z.inj_add, Nat2Z.id, <- length_app, app_assoc, drop_app_length.
  reflexivity.
Qed.

Lemma slice_from_app (pre post sp : list byte) (pos : Z) :
  pos = Z.of_nat (length pre) ->
  slice_from (mkSlice (pre ++ post) sp) pos = Ret (mkSlice post sp).
Proof.
  intros ->. rewrite slice_from_ok by (rewrite length_app; lia).
  rewrite Nat2Z.id, drop_app_length. reflexivity.
Qed.

Ltac solve_pos :=
  rewrite ?length_app, ?length_le_bytes; cbn [length]; lia.

(** X19.  The layout [decodeQueryEvent] reads.  A body made of the thread id
    and the execution time on four bytes each, the length of the schema on
    one byte, the error code on two bytes, for binlog version 4 and later
    the length of the status variables on two bytes and the status
    variables, then the schema, one byte that is ignored, and the query
    text, all little-endian, decodes to exactly these fields; before
    version 4 no status variables are read. *)
Theorem decodeQueryEvent_layout :
  forall (spid et ec v : Z) (sv schema query sp : list byte) (z : byte),
    0 <= spid < 2 ^ 32 ->
    0 <= et < 2 ^ 32 ->
    0 <= ec < 2 ^ 16 ->
    Z.of_nat (length schema) < 256 ->
    Z.of_nat (length sv) < 2 ^ 16 ->
    decodeQueryEvent
      (mkSlice (le_bytes 4 spid ++ le_bytes 4 et
                ++ [byte_of_Z (Z.of_nat (length schema))] ++ le_bytes 2 ec
                ++ (if 4 <=? v then le_bytes 2 (Z.of_nat (length sv)) ++ sv else [])
                ++ schema ++ [z] ++ query) sp) v
    = Ret (mkQuery spid et ec
             (if 4 <=? v then Z.of_nat (length sv) else 0)
             (if 4 <=? v
              then Some (mkSlice sv ((schema ++ [z] ++ query) ++ sp))
              else None)
             schema query).
Proof.
  intros spid et ec v sv schema query sp z Hspid Het Hec Hsch Hsv.
  unfold decodeQueryEvent.
  match goal with
  | |- context [mkSlice ?L sp] => rewrite <- (app_nil_l L)
  end.
  rewrite (Uint32_at_app [] _ sp spid) by (try assumption; solve_pos).
  cbn [go_bind].
  rewrite (app_assoc [] (le_bytes 4 spid)).
  rewrite (Uint32_at_app _ _ sp et) by (try assumption; solve_pos).
  cbn [go_bind].
  rewrite (app_assoc _ (le_bytes 4 et)).
  rewrite index_app by solve_pos.
  cbn [go_bind].
  rewrite byte_Z_byte_of_Z, (Z.mod_small (Z.of_nat (length schema))) by lia.
  rewrite (app_assoc _ [byte_of_Z _]).
  rewrite (Uint16_at_app _ _ sp ec) by (try assumption; solve_pos).
  cbn [go_bind].
  rewrite (app_assoc _ (le_bytes 2 ec)).
  destruct (4 <=? v).
  - rewrite <- (app_assoc (le_bytes 2 _) sv).
    rewrite (Uint16_at_app _ _ sp (Z.of_nat (length sv))) by (try lia; solve_pos).
    cbn [go_bind].
    rewrite (app_assoc _ (le_bytes 2 (Z.of_nat (length sv)))).
    rewrite (slice_range_app _ sv) by solve_pos.
    cbn [go_bind].
    rewrite (app_assoc _ sv).
    rewrite (slice_range_app _ schema) by solve_pos.
    cbn [go_bind].
    rewrite (app_assoc _ schema), (app_assoc _ [z]).
    rewrite slice_from_app by solve_pos.
    reflexivity.
  - rewrite (app_nil_l (schema ++ _)). cbn [go_bind].
    rewrite (slice_range_app _ schema) by solve_pos.
    cbn [go_bind].
    rewrite (app_assoc _ schema), (app_assoc _ [z]).
    rewrite slice_from_app by solve_pos.
    reflexivity.
Qed.

Lemma decodeQueryEvent_layout_witness :
  decodeQueryEvent (fresh (drop 19 sample_query)) 4
  = Ret (mkQuery 5 0 0 0
           (Some (mkSlice [] [x64;x62; x00; x42;x45;x47;x49;x4e]))
           [x64;x62] [x42;x45;x47;x49;x4e]).
Proof.
  apply (decodeQueryEvent_layout 5 0 0 4 [] [x64;x62] [x42;x45;x47;x49;x4e] [] x00).
  - lia.
  - lia.
  - lia.
  - vm_compute. reflexivity.
  - vm_compute. reflexivity.
Defined.

(** ** What validation does to the body *)

(** X20.  Whenever [Validation] returns, the body it returns followed by the
    checksum value it stored is the body it was given.  Either nothing was
    stored, the body is returned as it came and the error, if any, is not
    the checksum error; or checksums are on, the stored value is the last
    four bytes, the stored type is the byte before them, and the error is
    decided by [ChecksumValidate] alone: the test of the length of the
    value against four never fails. *)
Theorem Validation_outcome :
  forall (X : Extern) (hdr : option BinEventHeader) (bin : option BinaryLogInfo)
         (header body : slice) (ct : byte) (cv body' : slice) (err : option error),
    Validation X hdr bin header body = Ret (ct, cv, body', err) ->
    elems body' ++ elems cv = elems body
    /\ ((cv = fresh [] /\ ct = x00 /\ body' = body /\ err <> Some ErrChecksum)
        \/ (len cv = 4
            /\ index body (len body - 5) = Ret ct
            /\ (exists b d, bin = Some b /\ description b = Some d
                            /\ hasCheckSum d = true)
            /\ err = if ChecksumValidate X ct (elems cv) (elems header ++ elems body')
                     then None else Some ErrChecksum)).
Proof.
  intros X hdr bin header body ct cv body' err H. unfold Validation in H.
  assert (Hplain : forall e : option error,
             e <> Some ErrChecksum ->
             Ret (x00, fresh [], body, e) = Ret (ct, cv, body', err) ->
             elems body' ++ elems cv = elems body
             /\ ((cv = fresh [] /\ ct = x00 /\ body' = body /\ err <> Some ErrChecksum)
                 \/ (len cv = 4
                     /\ index body (len body - 5) = Ret ct
                     /\ (exists b d, bin = Some b /\ description b = Some d
                                     /\ hasCheckSum d = true)
                     /\ err = if ChecksumValidate X ct (elems cv)
                                   (elems header ++ elems body')
                              then None else Some ErrChecksum))).
  { intros e He Heq. inversion Heq; subst. split; [apply app_nil_r|].
    left. auto. }
  destruct bin as [b|];
    [|apply (Hplain (Some ErrEmptyBinaryLogInfo)); [discriminate | exact H]].
  destruct hdr as [h|];
    [|apply (Hplain (Some ErrEmptyEventHeader)); [discriminate | exact H]].
  destruct (negb _);
    [apply (Hplain (Some ErrEventSize)); [discriminate | exact H]|].
  destruct (description b) as [d|] eqn:Hd;
    [|apply (Hplain None); [discriminate | exact H]].
  destruct (hasCheckSum d) eqn:Hcs;
    [|apply (Hplain None); [discriminate | exact H]].
  clear Hplain. unfold binlogChecksumLength in H.
  apply go_bind_Ret_inv in H as (t & Ht & H).
  apply go_bind_Ret_inv in H as (v & Hv & H).
  apply go_bind_Ret_inv in H as (bd & Hbd & H).
  pose proof (index_Ret_inv _ _ _ Ht) as (Hi & _).
  apply slice_from_Ret_inv in Hv as (_ & ->).
  unfold slice_to in Hbd. apply slice_range_Ret_inv in Hbd as (_ & _ & ->).
  replace (len body - 4 - 1 + 1) with (len body - 4) in * by lia.
  replace (len body - 4 - 1) with (len body - 5) in * by lia.
  assert (Hlen4 : len (mkSlice (drop (Z.to_nat (len body - 4)) (elems body))
                         (spare body)) = 4).
  { rewrite len_mkSlice, length_drop. unfold len in *. lia. }
  assert (Htake : take (Z.to_nat (len body - 4 - 0)) (drop (Z.to_nat 0) (backing body))
                  = take (Z.to_nat (len body - 4)) (elems body)).
  { rewrite Z.sub_0_r. change (Z.to_nat 0) with 0%nat. rewrite drop_0.
    unfold backing. apply take_app_le. unfold len. lia. }
  rewrite Htake in H. rewrite Hlen4 in H. cbn [Z.eqb Pos.eqb negb] in H.
  rewrite orb_false_r in H.
  split.
  - destruct (ChecksumValidate X _ _ _); inversion H; subst; cbn [elems];
      apply take_drop.
  - right.
    destruct (ChecksumValidate X _ _ _) eqn:Hval; inversion H; subst;
      cbn [elems negb]; cbn [elems] in Hval; rewrite Hval;
      (split; [exact Hlen4|]); (split; [exact Ht|]); (split; [eauto|reflexivity]).
Qed.

Lemma Validation_outcome_witness :
  exists ct cv body' err,
    Validation sample_extern (Some (mkHeader 1 15 1 119 123 0))
      (Some (mkInfo (Some (mkFmtDesc 4 [x35;x2e;x37;x2e;x33;x30] 1 19
                             (fresh (repeat x08 38)) true)) ∅))
      (fresh (take 19 sample_fde_crc)) (fresh (drop 19 sample_fde_crc))
    = Ret (ct, cv, body', err)
    /\ elems body' ++ elems cv = drop 19 sample_fde_crc.
Proof.
  destruct (Validation sample_extern (Some (mkHeader 1 15 1 119 123 0))
      (Some (mkInfo (Some (mkFmtDesc 4 [x35;x2e;x37;x2e;x33;x30] 1 19
                             (fresh (repeat x08 38)) true)) ∅))
      (fresh (take 19 sample_fde_crc)) (fresh (drop 19 sample_fde_crc)))
    as [[[[ct cv] body'] err]|] eqn:H; [|exfalso; vm_compute in H; discriminate H].
  exists ct, cv, body', err. split; [reflexivity|].
  exact (proj1 (Validation_outcome _ _ _ _ _ _ _ _ _ H)).
Defined.
